(** * koishi-plugin-lex-ninjutsu: tiered name resolution and merged search

    A shallow embedding of the plugin's sources:
    - the main plugin class [LexNinjutsu] (the version with
      [ninjutsu.search], [getMatchInfo] and [getDescriptionPreview]);
    - the pinyin helper plugin [NinjutsuPinyin];
    - the earlier [src/index.tsx], whose [tryGetNinjutsuAtLevel] carries its
      own strategy table (module [IndexTsx]).

    JavaScript strings are sequences of UTF-16 code units; the database table
    is the list of its rows in store order; awaited calls are run one after
    the other in a small state-and-error monad that also records every query
    sent to the database.  A listener started by an emit that nobody awaits
    is kept as a run still to finish.  What the engine alone decides (lower
    case, regular expressions beyond the constructs spelled out here, the
    printing of large numbers) is a parameter, the class [JSRuntime]. *)

From Stdlib Require Import List NArith Arith Bool Lia String Ascii.
From Stdlib Require Import Sorting.Sorted Sorting.Permutation.
From Stdlib Require DecimalN.
Import ListNotations.
Local Open Scope N_scope.
Local Open Scope list_scope.

(* ===================================================================== *)
(** * JavaScript strings *)
(* ===================================================================== *)

(** A string is its sequence of UTF-16 code units. *)
Definition jsstring := list N.

Definition jsstring_eqb (a b : jsstring) : bool :=
  if list_eq_dec N.eq_dec a b then true else false.

(** Source literals, written with Rocq's ASCII strings. *)
Fixpoint lit (s : string) : jsstring :=
  match s with
  | EmptyString => []
  | String c r => N_of_ascii c :: lit r
  end.

(** [String.prototype.length] and [substring(0, n)]. *)
Definition js_length (s : jsstring) : nat := List.length s.
Definition substring0 (n : nat) (s : jsstring) : jsstring := firstn n s.

(** [s.replaceAll(a, b)] for a one-unit pattern [a] and replacement [b]. *)
Definition replaceAll1 (a b : N) (s : jsstring) : jsstring :=
  map (fun u => if u =? a then b else u) s.

(** Surrogates, and the code point of a surrogate pair. *)
Definition isLeadSurrogate (u : N) : bool := (0xD800 <=? u) && (u <=? 0xDBFF).
Definition isTrailSurrogate (u : N) : bool := (0xDC00 <=? u) && (u <=? 0xDFFF).
Definition pairCodePoint (hi lo : N) : N :=
  0x10000 + (hi - 0xD800) * 0x400 + (lo - 0xDC00).

(** A string read the way a [u]-flagged regular expression (or [for..of])
    reads it: a lead surrogate directly followed by a trail surrogate is one
    code point, any other unit stands for itself.  Each code point comes with
    the units that spell it. *)
Fixpoint scan (s : jsstring) : list (N * jsstring) :=
  match s with
  | [] => []
  | u :: t =>
      match t with
      | l :: t' =>
          if isLeadSurrogate u && isTrailSurrogate l
          then (pairCodePoint u l, [u; l]) :: scan t'
          else (u, [u]) :: scan t
      | [] => [(u, [u])]
      end
  end.

Definition codePoints (s : jsstring) : list N := map fst (scan s).

(** The units of a scanned sequence, put back together. *)
Definition spell (cs : list (N * jsstring)) : jsstring :=
  List.concat (map snd cs).

(** No unit of the string is a surrogate standing alone. *)
Fixpoint wellFormed (s : jsstring) : bool :=
  match s with
  | [] => true
  | u :: t =>
      match t with
      | l :: t' =>
          if isLeadSurrogate u && isTrailSurrogate l then wellFormed t'
          else negb (isLeadSurrogate u) && negb (isTrailSurrogate u) && wellFormed t
      | [] => negb (isLeadSurrogate u) && negb (isTrailSurrogate u)
      end
  end.

(* ===================================================================== *)
(** * Unicode property escapes *)
(* ===================================================================== *)

(** The tables behind [\p{P}], [\p{S}] and [\p{Z}]: the General_Category
    values of the Unicode Character Database, version 14.0, as inclusive
    ranges of code points. *)

(** Code point ranges of general category P: punctuation (Pc, Pd, Ps, Pe, Pi, Pf, Po). *)
Definition General_Category_P : list (N * N) :=
  [ (33, 35); (37, 42); (44, 47); (58, 59); (63, 64);
    (91, 93); (95, 95); (123, 123); (125, 125); (161, 161);
    (167, 167); (171, 171); (182, 183); (187, 187); (191, 191);
    (894, 894); (903, 903); (1370, 1375); (1417, 1418); (1470, 1470);
    (1472, 1472); (1475, 1475); (1478, 1478); (1523, 1524); (1545, 1546);
    (1548, 1549); (1563, 1563); (1565, 1567); (1642, 1645); (1748, 1748);
    (1792, 1805); (2039, 2041); (2096, 2110); (2142, 2142); (2404, 2405);
    (2416, 2416); (2557, 2557); (2678, 2678); (2800, 2800); (3191, 3191);
    (3204, 3204); (3572, 3572); (3663, 3663); (3674, 3675); (3844, 3858);
    (3860, 3860); (3898, 3901); (3973, 3973); (4048, 4052); (4057, 4058);
    (4170, 4175); (4347, 4347); (4960, 4968); (5120, 5120); (5742, 5742);
    (5787, 5788); (5867, 5869); (5941, 5942); (6100, 6102); (6104, 6106);
    (6144, 6154); (6468, 6469); (6686, 6687); (6816, 6822); (6824, 6829);
    (7002, 7008); (7037, 7038); (7164, 7167); (7227, 7231); (7294, 7295);
    (7360, 7367); (7379, 7379); (8208, 8231); (8240, 8259); (8261, 8273);
    (8275, 8286); (8317, 8318); (8333, 8334); (8968, 8971); (9001, 9002);
    (10088, 10101); (10181, 10182); (10214, 10223); (10627, 10648); (10712, 10715);
    (10748, 10749); (11513, 11516); (11518, 11519); (11632, 11632); (11776, 11822);
    (11824, 11855); (11858, 11869); (12289, 12291); (12296, 12305); (12308, 12319);
    (12336, 12336); (12349, 12349); (12448, 12448); (12539, 12539); (42238, 42239);
    (42509, 42511); (42611, 42611); (42622, 42622); (42738, 42743); (43124, 43127);
    (43214, 43215); (43256, 43258); (43260, 43260); (43310, 43311); (43359, 43359);
    (43457, 43469); (43486, 43487); (43612, 43615); (43742, 43743); (43760, 43761);
    (44011, 44011); (64830, 64831); (65040, 65049); (65072, 65106); (65108, 65121);
    (65123, 65123); (65128, 65128); (65130, 65131); (65281, 65283); (65285, 65290);
    (65292, 65295); (65306, 65307); (65311, 65312); (65339, 65341); (65343, 65343);
    (65371, 65371); (65373, 65373); (65375, 65381); (65792, 65794); (66463, 66463);
    (66512, 66512); (66927, 66927); (67671, 67671); (67871, 67871); (67903, 67903);
    (68176, 68184); (68223, 68223); (68336, 68342); (68409, 68415); (68505, 68508);
    (69293, 69293); (69461, 69465); (69510, 69513); (69703, 69709); (69819, 69820);
    (69822, 69825); (69952, 69955); (70004, 70005); (70085, 70088); (70093, 70093);
    (70107, 70107); (70109, 70111); (70200, 70205); (70313, 70313); (70731, 70735);
    (70746, 70747); (70749, 70749); (70854, 70854); (71105, 71127); (71233, 71235);
    (71264, 71276); (71353, 71353); (71484, 71486); (71739, 71739); (72004, 72006);
    (72162, 72162); (72255, 72262); (72346, 72348); (72350, 72354); (72769, 72773);
    (72816, 72817); (73463, 73464); (73727, 73727); (74864, 74868); (77809, 77810);
    (92782, 92783); (92917, 92917); (92983, 92987); (92996, 92996); (93847, 93850);
    (94178, 94178); (113823, 113823); (121479, 121483); (125278, 125279) ]%N.

(** Code point ranges of general category S: symbols (Sm, Sc, Sk, So). *)
Definition General_Category_S : list (N * N) :=
  [ (36, 36); (43, 43); (60, 62); (94, 94); (96, 96);
    (124, 124); (126, 126); (162, 166); (168, 169); (172, 172);
    (174, 177); (180, 180); (184, 184); (215, 215); (247, 247);
    (706, 709); (722, 735); (741, 747); (749, 749); (751, 767);
    (885, 885); (900, 901); (1014, 1014); (1154, 1154); (1421, 1423);
    (1542, 1544); (1547, 1547); (1550, 1551); (1758, 1758); (1769, 1769);
    (1789, 1790); (2038, 2038); (2046, 2047); (2184, 2184); (2546, 2547);
    (2554, 2555); (2801, 2801); (2928, 2928); (3059, 3066); (3199, 3199);
    (3407, 3407); (3449, 3449); (3647, 3647); (3841, 3843); (3859, 3859);
    (3861, 3863); (3866, 3871); (3892, 3892); (3894, 3894); (3896, 3896);
    (4030, 4037); (4039, 4044); (4046, 4047); (4053, 4056); (4254, 4255);
    (5008, 5017); (5741, 5741); (6107, 6107); (6464, 6464); (6622, 6655);
    (7009, 7018); (7028, 7036); (8125, 8125); (8127, 8129); (8141, 8143);
    (8157, 8159); (8173, 8175); (8189, 8190); (8260, 8260); (8274, 8274);
    (8314, 8316); (8330, 8332); (8352, 8384); (8448, 8449); (8451, 8454);
    (8456, 8457); (8468, 8468); (8470, 8472); (8478, 8483); (8485, 8485);
    (8487, 8487); (8489, 8489); (8494, 8494); (8506, 8507); (8512, 8516);
    (8522, 8525); (8527, 8527); (8586, 8587); (8592, 8967); (8972, 9000);
    (9003, 9254); (9280, 9290); (9372, 9449); (9472, 10087); (10132, 10180);
    (10183, 10213); (10224, 10626); (10649, 10711); (10716, 10747); (10750, 11123);
    (11126, 11157); (11159, 11263); (11493, 11498); (11856, 11857); (11904, 11929);
    (11931, 12019); (12032, 12245); (12272, 12283); (12292, 12292); (12306, 12307);
    (12320, 12320); (12342, 12343); (12350, 12351); (12443, 12444); (12688, 12689);
    (12694, 12703); (12736, 12771); (12800, 12830); (12842, 12871); (12880, 12880);
    (12896, 12927); (12938, 12976); (12992, 13311); (19904, 19967); (42128, 42182);
    (42752, 42774); (42784, 42785); (42889, 42890); (43048, 43051); (43062, 43065);
    (43639, 43641); (43867, 43867); (43882, 43883); (64297, 64297); (64434, 64450);
    (64832, 64847); (64975, 64975); (65020, 65023); (65122, 65122); (65124, 65126);
    (65129, 65129); (65284, 65284); (65291, 65291); (65308, 65310); (65342, 65342);
    (65344, 65344); (65372, 65372); (65374, 65374); (65504, 65510); (65512, 65518);
    (65532, 65533); (65847, 65855); (65913, 65929); (65932, 65934); (65936, 65948);
    (65952, 65952); (66000, 66044); (67703, 67704); (68296, 68296); (71487, 71487);
    (73685, 73713); (92988, 92991); (92997, 92997); (113820, 113820); (118608, 118723);
    (118784, 119029); (119040, 119078); (119081, 119140); (119146, 119148); (119171, 119172);
    (119180, 119209); (119214, 119274); (119296, 119361); (119365, 119365); (119552, 119638);
    (120513, 120513); (120539, 120539); (120571, 120571); (120597, 120597); (120629, 120629);
    (120655, 120655); (120687, 120687); (120713, 120713); (120745, 120745); (120771, 120771);
    (120832, 121343); (121399, 121402); (121453, 121460); (121462, 121475); (121477, 121478);
    (123215, 123215); (123647, 123647); (126124, 126124); (126128, 126128); (126254, 126254);
    (126704, 126705); (126976, 127019); (127024, 127123); (127136, 127150); (127153, 127167);
    (127169, 127183); (127185, 127221); (127245, 127405); (127462, 127490); (127504, 127547);
    (127552, 127560); (127568, 127569); (127584, 127589); (127744, 128727); (128733, 128748);
    (128752, 128764); (128768, 128883); (128896, 128984); (128992, 129003); (129008, 129008);
    (129024, 129035); (129040, 129095); (129104, 129113); (129120, 129159); (129168, 129197);
    (129200, 129201); (129280, 129619); (129632, 129645); (129648, 129652); (129656, 129660);
    (129664, 129670); (129680, 129708); (129712, 129722); (129728, 129733); (129744, 129753);
    (129760, 129767); (129776, 129782); (129792, 129938); (129940, 129994) ]%N.

(** Code point ranges of general category Z: separators (Zs, Zl, Zp). *)
Definition General_Category_Z : list (N * N) :=
  [ (32, 32); (160, 160); (5760, 5760); (8192, 8202); (8232, 8233);
    (8239, 8239); (8287, 8287); (12288, 12288) ]%N.
Definition inRanges (rs : list (N * N)) (c : N) : bool :=
  existsb (fun r => (fst r <=? c) && (c <=? snd r)) rs.

(** The alternation [\p{P}|\p{S}|\p{Z}] on one code point. *)
Definition matchesPSZ (c : N) : bool :=
  inRanges General_Category_P c
  || inRanges General_Category_S c
  || inRanges General_Category_Z c.

(* ===================================================================== *)
(** * removePunctuation *)
(* ===================================================================== *)

(** [s.replaceAll(/\p{P}|\p{S}|\p{Z}/ug, '')]: the scan goes code point by
    code point and deletes the matching ones. *)
Fixpoint removePunctuation (s : jsstring) : jsstring :=
  match s with
  | [] => []
  | u :: t =>
      match t with
      | l :: t' =>
          if isLeadSurrogate u && isTrailSurrogate l
          then if matchesPSZ (pairCodePoint u l)
               then removePunctuation t'
               else u :: l :: removePunctuation t'
          else if matchesPSZ u
               then removePunctuation t
               else u :: removePunctuation t
      | [] => if matchesPSZ u then [] else [u]
      end
  end.

(* ===================================================================== *)
(** * Regular expressions built from a keyword *)
(* ===================================================================== *)

(** [new RegExp(source)] without flags.  [compile] reads the sources made of
    ordinary characters, [.], the postfix [*], and a backslash in front of a
    syntax character.  Any other construct ([^ $ + ? ( ) [ ] { } |], class
    and control escapes) is reported as [OutsideFragment]: what the engine
    makes of such a source is taken from the runtime ([newRegExp] below). *)

Definition c_star : N := 42.        (* * *)
Definition c_dot : N := 46.         (* . *)
Definition c_backslash : N := 92.   (* \ *)

(** SyntaxCharacter of the pattern grammar: ^ $ \ . * + ? ( ) [ ] { } | *)
Definition syntaxCharacters : list N :=
  [94; 36; 92; 46; 42; 43; 63; 40; 41; 91; 93; 123; 125; 124].

Definition isSyntaxCharacter (c : N) : bool :=
  existsb (N.eqb c) syntaxCharacters.

(** LineTerminator: LF, CR, LS, PS. *)
Definition isLineTerminator (c : N) : bool :=
  (c =? 10) || (c =? 13) || (c =? 0x2028) || (c =? 0x2029).

Inductive Atom : Type :=
| AnyChar              (* [.]: any unit but a line terminator *)
| Char (c : N).        (* one literal unit *)

Record Term : Type := mkTerm { atom : Atom; starred : bool }.

Inductive Compiled : Type :=
| Regex (ts : list Term)
| SyntaxError           (* the constructor throws *)
| OutsideFragment.      (* left to the engine of the runtime *)

Definition consTerm (t : Term) (r : Compiled) : Compiled :=
  match r with
  | Regex ts => Regex (t :: ts)
  | other => other
  end.

(** Left to right over the source; the first offending character decides. *)
Fixpoint compile (p : jsstring) : Compiled :=
  match p with
  | [] => Regex []
  | c :: rest =>
      if c =? c_star then SyntaxError                 (* nothing to repeat *)
      else if c =? c_backslash then
        match rest with
        | [] => SyntaxError                           (* \ at end of pattern *)
        | e :: rest' =>
            if isSyntaxCharacter e then
              match rest' with
              | q :: rest'' =>
                  if q =? c_star
                  then consTerm (mkTerm (Char e) true) (compile rest'')
                  else consTerm (mkTerm (Char e) false) (compile rest')
              | [] => Regex [mkTerm (Char e) false]
              end
            else OutsideFragment
        end
      else if isSyntaxCharacter c && negb (c =? c_dot) then OutsideFragment
      else
        let a := if c =? c_dot then AnyChar else Char c in
        match rest with
        | q :: rest' =>
            if q =? c_star
            then consTerm (mkTerm a true) (compile rest')
            else consTerm (mkTerm a false) (compile rest)
        | [] => Regex [mkTerm a false]
        end
  end.

Definition atomMatches (a : Atom) (c : N) : bool :=
  match a with
  | AnyChar => negb (isLineTerminator c)
  | Char d => c =? d
  end.

(** [a*] followed by the continuation [k]. *)
Fixpoint matchStar (a : Atom) (k : jsstring -> bool) (s : jsstring) : bool :=
  k s ||
  match s with
  | c :: s' => atomMatches a c && matchStar a k s'
  | [] => false
  end.

(** Do the terms match a prefix of [s]? *)
Fixpoint matchHere (ts : list Term) (s : jsstring) : bool :=
  match ts with
  | [] => true
  | t :: ts' =>
      if starred t then matchStar (atom t) (matchHere ts') s
      else match s with
           | c :: s' => atomMatches (atom t) c && matchHere ts' s'
           | [] => false
           end
  end.

(** [regexp.test(s)]: a match may start at any index. *)
Fixpoint test (ts : list Term) (s : jsstring) : bool :=
  matchHere ts s ||
  match s with
  | _ :: s' => test ts s'
  | [] => false
  end.

(** [s.includes(k)]: [k] occurs in [s] as a contiguous run of units. *)
Fixpoint startsWith (k s : jsstring) : bool :=
  match k, s with
  | [], _ => true
  | a :: k', b :: s' => (a =? b) && startsWith k' s'
  | _ :: _, [] => false
  end.

Fixpoint includes (k s : jsstring) : bool :=
  startsWith k s ||
  match s with
  | _ :: s' => includes k s'
  | [] => false
  end.

(** A keyword without syntax characters. *)
Definition plainKeyword (k : jsstring) : bool :=
  forallb (fun c => negb (isSyntaxCharacter c)) k.

(** What belongs to the JavaScript engine and is not spelled out here:
    [String.prototype.toLowerCase]; [new RegExp(source)] for a source beyond
    the constructs [compile] reads, which throws a SyntaxError ([None]) or
    gives a regular expression, kept as its [test] function; and the digits
    [Number::toString] gives a number above 2^53. *)
Class JSRuntime : Type := {
  toLowerCase : jsstring -> jsstring;
  regExpBeyond : jsstring -> option (jsstring -> bool);
  numberToStringBeyond : N -> jsstring
}.

(** [new RegExp(source)]: the [test] function of the regular expression, or
    nothing when the constructor throws. *)
Definition newRegExp {rt : JSRuntime} (source : jsstring)
  : option (jsstring -> bool) :=
  match compile source with
  | Regex ts => Some (test ts)
  | SyntaxError => None
  | OutsideFragment => regExpBeyond source
  end.

(* ===================================================================== *)
(** * The [ninjutsu] table and the database service *)
(* ===================================================================== *)

(** [interface NinjutsuInfo] *)
Record NinjutsuInfo : Type := mkNinjutsuInfo {
  id : N;
  name : jsstring;
  description : jsstring;
  nameNoPunctuation : jsstring;
  namePinyin : jsstring
}.

(** The columns a query may name ([row[propertyName]]). *)
Inductive PropertyName : Type :=
| P_name
| P_nameNoPunctuation
| P_namePinyin.

Definition column (p : PropertyName) (row : NinjutsuInfo) : jsstring :=
  match p with
  | P_name => name row
  | P_nameNoPunctuation => nameNoPunctuation row
  | P_namePinyin => namePinyin row
  end.

(** A row as handed to [upsert]: the key and the columns that are present. *)
Record Partial : Type := mkPartial {
  p_id : N;
  p_name : option jsstring;
  p_description : option jsstring;
  p_nameNoPunctuation : option jsstring;
  p_namePinyin : option jsstring
}.

Definition orKeep (new : option jsstring) (old : jsstring) : jsstring :=
  match new with
  | Some v => v
  | None => old
  end.

Definition patchRow (p : Partial) (row : NinjutsuInfo) : NinjutsuInfo :=
  {| id := id row;
     name := orKeep (p_name p) (name row);
     description := orKeep (p_description p) (description row);
     nameNoPunctuation := orKeep (p_nameNoPunctuation p) (nameNoPunctuation row);
     namePinyin := orKeep (p_namePinyin p) (namePinyin row) |}.

(** A fresh row: every ['string'] column starts as the empty string. *)
Definition initialRow (i : N) : NinjutsuInfo :=
  {| id := i; name := []; description := [];
     nameNoPunctuation := []; namePinyin := [] |}.

Definition hasId (i : N) (row : NinjutsuInfo) : bool := id row =? i.

(** [upsert] of one row: update the row with that primary key, or insert. *)
Definition upsertRow (tbl : list NinjutsuInfo) (p : Partial) : list NinjutsuInfo :=
  if existsb (hasId (p_id p)) tbl
  then map (fun row => if hasId (p_id p) row then patchRow p row else row) tbl
  else tbl ++ [patchRow p (initialRow (p_id p))].

Definition upsertRows (tbl : list NinjutsuInfo) (ps : list Partial) : list NinjutsuInfo :=
  fold_left upsertRow ps tbl.

Definition fullRow (row : NinjutsuInfo) : Partial :=
  {| p_id := id row;
     p_name := Some (name row);
     p_description := Some (description row);
     p_nameNoPunctuation := Some (nameNoPunctuation row);
     p_namePinyin := Some (namePinyin row) |}.

(** What the database was asked, in order. *)
Inductive Query : Type :=
| SelectEq (p : PropertyName) (value : jsstring)
| SelectRegex (p : PropertyName) (source : jsstring) (limit : nat)
| Upsert (rows : list Partial)
| RemoveIdGt0.

(** The database: the table in store order, and the journal of queries. *)
Record Database : Type := mkDatabase {
  table : list NinjutsuInfo;
  journal : list Query
}.

Inductive Exception : Type :=
| RegExpSyntaxError     (* thrown by [new RegExp] *)
| TypeError.            (* a property read on [undefined] *)

Inductive Result (A : Type) : Type :=
| Ok (a : A)
| Throw (e : Exception).
Arguments Ok {A} a.
Arguments Throw {A} e.

(** Awaited calls run in sequence over the database; a throw ends the run. *)
Definition M (A : Type) : Type := Database -> Result A * Database.

Definition ret {A} (a : A) : M A := fun db => (Ok a, db).

Definition bind {A B} (c : M A) (k : A -> M B) : M B :=
  fun db =>
    match c db with
    | (Ok a, db') => k a db'
    | (Throw e, db') => (Throw e, db')
    end.

Definition throw {A} (e : Exception) : M A := fun db => (Throw e, db).

Notation "x <- c ;; k" := (bind c (fun x => k))
  (at level 61, c at next level, right associativity).

Definition journalled (q : Query) (db : Database) : Database :=
  {| table := table db; journal := journal db ++ [q] |}.

(** [select('ninjutsu').where(row => $.eq(row[p], value)).execute()] *)
Definition select_eq (p : PropertyName) (value : jsstring) : M (list NinjutsuInfo) :=
  fun db =>
    (Ok (filter (fun row => jsstring_eqb (column p row) value) (table db)),
     journalled (SelectEq p value) db).

(** [select('ninjutsu').where(row => $.regex(row[p], new RegExp(source)))
       .limit(limit).execute()] *)
Definition select_regex_limit {rt : JSRuntime} (p : PropertyName)
    (source : jsstring) (limit : nat) : M (list NinjutsuInfo) :=
  fun db =>
    match newRegExp source with
    | Some matches =>
        (Ok (firstn limit (filter (fun row => matches (column p row)) (table db))),
         journalled (SelectRegex p source limit) db)
    | None => (Throw RegExpSyntaxError, db)
    end.

(** [database.upsert('ninjutsu', rows)] *)
Definition upsert (rows : list Partial) : M unit :=
  fun db =>
    (Ok tt, {| table := upsertRows (table db) rows;
               journal := journal db ++ [Upsert rows] |}).

(** [database.remove('ninjutsu', { id: { $gt: 0 } })] *)
Definition remove_id_gt_0 : M unit :=
  fun db =>
    (Ok tt, {| table := filter (fun row => negb (0 <? id row)) (table db);
               journal := journal db ++ [RemoveIdGt0] |}).

(* ===================================================================== *)
(** * Services and configuration *)
(* ===================================================================== *)

(** [ctx.pinyin.pinyin(s, { style: 0 })]: one string per syllable. *)
Definition PinyinService : Type := jsstring -> list jsstring.

(** The part of the koishi context the plugin reads: the optional service. *)
Record KoishiContext : Type := mkContext {
  pinyin : option PinyinService
}.

(** [enum MatchLevel { Strict, Normal, Homophone }] *)
Inductive MatchLevel : Type := Strict | Normal | Homophone.

Definition levelValue (l : MatchLevel) : nat :=
  match l with
  | Strict => 0
  | Normal => 1
  | Homophone => 2
  end.

(** [interface Config] (the URL is not needed here). *)
Record Config : Type := mkConfig {
  matchLevel : MatchLevel;
  searchLimit : nat;
  descriptionPreviewLimit : nat;
  searchOnFailed : bool
}.

(** The levels visited by
    [for(let level = Strict; level <= cfg.matchLevel; level++)]. *)
Definition levelsUpTo (m : MatchLevel) : list MatchLevel :=
  filter (fun l => Nat.leb (levelValue l) (levelValue m)) [Strict; Normal; Homophone].

(* ===================================================================== *)
(** * NinjutsuPinyin *)
(* ===================================================================== *)

Module NinjutsuPinyin.
Section WithService.
Context {rt : JSRuntime}.
(** The plugin declares [inject = ['pinyin']]: it only runs with the
    service present. *)
Variable service : PinyinService.

(** [pinyin(s, { style: 0 }).join('').toLowerCase()] *)
Definition getPinyin (s : jsstring) : jsstring :=
  toLowerCase (List.concat (service s)).

Definition setNamePinyin (info : NinjutsuInfo) : NinjutsuInfo :=
  {| id := id info; name := name info; description := description info;
     nameNoPunctuation := nameNoPunctuation info;
     namePinyin := getPinyin (nameNoPunctuation info) |}.

Definition updateDatabasePinyin : M unit :=
  data <- select_eq P_namePinyin [] ;;
  let data := map setNamePinyin data in
  upsert (map fullRow data).
End WithService.
End NinjutsuPinyin.

(* ===================================================================== *)
(** * Objects used as id-keyed maps *)
(* ===================================================================== *)

(** [searchNinjutsu] keeps its rows in plain objects linked through their
    prototypes, so the objects live in a heap and are named by address.
    A property key is the decimal string of an id; it is kept as the id. *)
Record JSObject : Type := mkObject {
  properties : list (N * NinjutsuInfo);   (* own properties, in creation order *)
  prototype : option nat                  (* [None]: [Object.prototype] *)
}.

Definition Heap : Type := list JSObject.

(** [{}] *)
Definition newObject (h : Heap) : nat * Heap :=
  (List.length h, h ++ [mkObject [] None]).

Fixpoint updateAt (h : Heap) (a : nat) (f : JSObject -> JSObject) : Heap :=
  match h, a with
  | [], _ => []
  | o :: h', O => f o :: h'
  | o :: h', S a' => o :: updateAt h' a' f
  end.

(** Writing an own data property: an existing key keeps its place. *)
Fixpoint assign (k : N) (v : NinjutsuInfo) (ps : list (N * NinjutsuInfo))
  : list (N * NinjutsuInfo) :=
  match ps with
  | [] => [(k, v)]
  | (k', v') :: ps' =>
      if k =? k' then (k, v) :: ps' else (k', v') :: assign k v ps'
  end.

(** [obj[k] = v] on an object whose prototype is [Object.prototype]. *)
Definition setProperty (h : Heap) (a : nat) (k : N) (v : NinjutsuInfo) : Heap :=
  updateAt h a (fun o => mkObject (assign k v (properties o)) (prototype o)).

(** [Object.setPrototypeOf(obj, proto)] *)
Definition setPrototypeOf (h : Heap) (a : nat) (proto : nat) : Heap :=
  updateAt h a (fun o => mkObject (properties o) (Some proto)).

(** Canonical numeric keys below 2^32 - 1 are array indices. *)
Definition isArrayIndex (k : N) : bool := k <? 4294967295.

Fixpoint insertKey (k : N) (l : list N) : list N :=
  match l with
  | [] => [k]
  | x :: l' => if k <=? x then k :: l else x :: insertKey k l'
  end.

Fixpoint sortKeys (l : list N) : list N :=
  match l with
  | [] => []
  | k :: l' => insertKey k (sortKeys l')
  end.

(** OrdinaryOwnPropertyKeys: the array indices in ascending order, then the
    other keys in creation order. *)
Definition orderKeys (ks : list N) : list N :=
  sortKeys (filter isArrayIndex ks)
  ++ filter (fun k => negb (isArrayIndex k)) ks.

Definition ownKeys (o : JSObject) : list N :=
  orderKeys (map fst (properties o)).

Definition seen (visited : list N) (k : N) : bool := existsb (N.eqb k) visited.

(** [for(let id in obj)]: the own keys of the object, then those of its
    prototype chain, a key being visited once.  The chain of a heap without
    cycles is no longer than the heap. *)
Fixpoint forInFrom (fuel : nat) (h : Heap) (a : option nat) (visited : list N)
  : list N :=
  match fuel, a with
  | S fuel', Some a =>
      match nth_error h a with
      | Some o =>
          filter (fun k => negb (seen visited k)) (ownKeys o)
          ++ forInFrom fuel' h (prototype o) (visited ++ ownKeys o)
      | None => []
      end
  | _, _ => []
  end.

Definition forIn (h : Heap) (a : nat) : list N :=
  forInFrom (List.length h) h (Some a) [].

Fixpoint lookupKey (k : N) (ps : list (N * NinjutsuInfo)) : option NinjutsuInfo :=
  match ps with
  | [] => None
  | (k', v) :: ps' => if k =? k' then Some v else lookupKey k ps'
  end.

(** [obj[k]]: the nearest object of the prototype chain that has the key. *)
Fixpoint getFrom (fuel : nat) (h : Heap) (a : option nat) (k : N)
  : option NinjutsuInfo :=
  match fuel, a with
  | S fuel', Some a =>
      match nth_error h a with
      | Some o =>
          match lookupKey k (properties o) with
          | Some v => Some v
          | None => getFrom fuel' h (prototype o) k
          end
      | None => None
      end
  | _, _ => None
  end.

Definition getProperty (h : Heap) (a : nat) (k : N) : option NinjutsuInfo :=
  getFrom (List.length h) h (Some a) k.

(* ===================================================================== *)
(** * LexNinjutsu *)
(* ===================================================================== *)

(** [type NinjutsuInfoSourceData] *)
Record NinjutsuInfoSourceData : Type := mkSourceData {
  src_id : N;
  src_name : jsstring;
  src_description : jsstring
}.

(** [session.text('.result-item', { name, description })] *)
Record ResultItem : Type := mkResultItem {
  item_name : jsstring;
  item_description : jsstring
}.

(** What [ninjutsu.search] answers. *)
Inductive SearchMessage : Type :=
| NoResult                                   (* [.no-result] *)
| ResultList (items : list ResultItem).      (* [.result-title] and the items *)

Definition c_newline : N := 10.
Definition c_space : N := 32.
Definition c_ellipsis : N := 0x2026.

Module LexNinjutsu.
Section Plugin.
Context {rt : JSRuntime}.
Variable ctx : KoishiContext.
Variable cfg : Config.

(** [ctx.bail('get-pinyin', s)]: the listener is [NinjutsuPinyin.getPinyin].
    Without the service nothing listens; the plugin never calls it then. *)
Definition bail_get_pinyin (s : jsstring) : jsstring :=
  match pinyin ctx with
  | Some service => NinjutsuPinyin.getPinyin service s
  | None => []
  end.

Definition getKeywordOf (l : MatchLevel) : jsstring -> jsstring :=
  match l with
  | Strict => fun name => name
  | Normal => fun name => removePunctuation name
  | Homophone => fun name => bail_get_pinyin (removePunctuation name)
  end.

Definition propertyNameOf (l : MatchLevel) : PropertyName :=
  match l with
  | Strict => P_name
  | Normal => P_nameNoPunctuation
  | Homophone => P_namePinyin
  end.

Definition getMatchInfo (matchLevel : MatchLevel)
  : (jsstring -> jsstring) * PropertyName :=
  let matchLevel :=
    match matchLevel, pinyin ctx with
    | Homophone, None => Normal
    | _, _ => matchLevel
    end in
  (getKeywordOf matchLevel, propertyNameOf matchLevel).

(* ninjutsu.update *)

Definition toNinjutsuInfo (d : NinjutsuInfoSourceData) : Partial :=
  let nameNoPunctuation := removePunctuation (src_name d) in
  {| p_id := src_id d;
     p_name := Some (src_name d);
     p_description := Some (src_description d);
     p_nameNoPunctuation := Some nameNoPunctuation;
     p_namePinyin := None |}.

(** [ctx.emit('ninjutsu-database-update')] starts the listeners and does not
    wait for them: it gives the runs it started, which are still to finish.
    [NinjutsuPinyin] listens when it is loaded, that is when the service is
    there. *)
Definition emit_ninjutsu_database_update : list (M unit) :=
  match pinyin ctx with
  | Some service => [NinjutsuPinyin.updateDatabasePinyin service]
  | None => []
  end.

(** [jutsus] is the list the source answered with.  The command returns once
    the upsert is done; the result here is the listener runs that the emit
    left unfinished (the reply text is not kept). *)
Definition updateDatabase (jutsus : list NinjutsuInfoSourceData)
  : M (list (M unit)) :=
  let rows := map toNinjutsuInfo jutsus in
  _ <- upsert rows ;;
  ret emit_ninjutsu_database_update.

(* ninjutsu.clear *)

Definition clearDatabase : M unit := remove_id_gt_0.

(* ninjutsu.info, ninjutsu.release *)

Definition tryGetNinjutsuAtLevel (name : jsstring) (matchLevel : MatchLevel)
  : M (option NinjutsuInfo) :=
  let '(getKeyword, propertyName) := getMatchInfo matchLevel in
  let keyword := getKeyword name in
  res <- select_eq propertyName keyword ;;
  ret (hd_error res).

Fixpoint tryGetNinjutsuFrom (levels : list MatchLevel) (name : jsstring)
  : M (option NinjutsuInfo) :=
  match levels with
  | [] => ret None
  | level :: later =>
      ninjutsu <- tryGetNinjutsuAtLevel name level ;;
      match ninjutsu with
      | Some found => ret (Some found)
      | None => tryGetNinjutsuFrom later name
      end
  end.

Definition tryGetNinjutsu (name : jsstring) : M (option NinjutsuInfo) :=
  tryGetNinjutsuFrom (levelsUpTo (matchLevel cfg)) name.

(* ninjutsu.search *)

Definition searchNinjutsuAtLevel (name : jsstring) (limit : nat)
    (matchLevel : MatchLevel) : M (list NinjutsuInfo) :=
  let '(getKeyword, propertyName) := getMatchInfo matchLevel in
  let keyword := getKeyword name in
  select_regex_limit propertyName (lit ".*" ++ keyword ++ lit ".*") limit.

Definition getDescriptionPreview (description : jsstring) : jsstring :=
  let limit := descriptionPreviewLimit cfg in
  if Nat.eqb limit 0 then description
  else
    let description := replaceAll1 c_newline c_space description in
    if Nat.leb (js_length description) limit then description
    else substring0 limit description ++ [c_ellipsis].

(** The first loop: one object per level, each made the prototype of the
    one before. *)
Fixpoint collectLevels (levels : list MatchLevel) (keyword : jsstring)
    (limit : nat) (h : Heap) (prev : nat) : M Heap :=
  match levels with
  | [] => ret h
  | level :: later =>
      ninjutsus <- searchNinjutsuAtLevel keyword limit level ;;
      let '(cur, h) := newObject h in
      let h := fold_left (fun h ninjutsu => setProperty h cur (id ninjutsu) ninjutsu)
                         ninjutsus h in
      let h := setPrototypeOf h prev cur in
      collectLevels later keyword limit h cur
  end.

Definition resultItem (ninjutsu : NinjutsuInfo) : ResultItem :=
  {| item_name := name ninjutsu;
     item_description := getDescriptionPreview (description ninjutsu) |}.

(** The second loop, over [for(let id in res)]: [count] and [message]. *)
Fixpoint renderKeys (h : Heap) (res : nat) (limit : nat) (keys : list N)
    (count : nat) (message : list ResultItem) : Result (nat * list ResultItem) :=
  match keys with
  | [] => Ok (count, message)
  | k :: keys' =>
      match getProperty h res k with
      | None => Throw TypeError
      | Some ninjutsu =>
          let count := S count in
          if Nat.ltb limit count
          then renderKeys h res limit keys' count message
          else renderKeys h res limit keys' count (message ++ [resultItem ninjutsu])
      end
  end.

(** [limit ??= this.cfg.searchLimit] *)
Definition limitOrDefault (limit : option nat) : nat :=
  match limit with
  | Some l => l
  | None => searchLimit cfg
  end.

(** The body of [searchNinjutsu] up to its last [if]: both loops, giving
    [count] and [message]. *)
Definition searchNinjutsuLoops (limit : option nat) (keyword : jsstring)
  : M (nat * list ResultItem) :=
  let limit := limitOrDefault limit in
  let '(res, h) := newObject [] in
  let prev := res in
  h <- collectLevels (levelsUpTo (matchLevel cfg)) keyword limit h prev ;;
  match renderKeys h res limit (forIn h res) 0 [] with
  | Throw e => throw e
  | Ok (count, message) => ret (count, message)
  end.

Definition searchNinjutsu (limit : option nat) (keyword : jsstring)
  : M SearchMessage :=
  loops <- searchNinjutsuLoops limit keyword ;;
  let '(count, message) := loops in
  if Nat.eqb count 0 then ret NoResult else ret (ResultList message).

End Plugin.
End LexNinjutsu.

(* ===================================================================== *)
(** * src/index.tsx *)
(* ===================================================================== *)

(** The earlier plugin file has no search command; its resolver carries the
    strategy table inside [tryGetNinjutsuAtLevel]. *)
Module IndexTsx.
Section Plugin.
Context {rt : JSRuntime}.
Variable ctx : KoishiContext.
Variable cfg : Config.

Definition bail_get_pinyin (s : jsstring) : jsstring :=
  match pinyin ctx with
  | Some service => NinjutsuPinyin.getPinyin service s
  | None => []
  end.

Definition tryGetNinjutsuAtLevel (name : jsstring) (matchLevel : MatchLevel)
  : M (option NinjutsuInfo) :=
  match matchLevel, pinyin ctx with
  | Homophone, None => ret None
  | _, _ =>
      let target :=
        match matchLevel with
        | Strict => name
        | Normal => removePunctuation name
        | Homophone => bail_get_pinyin (removePunctuation name)
        end in
      let property :=
        match matchLevel with
        | Strict => P_name
        | Normal => P_nameNoPunctuation
        | Homophone => P_namePinyin
        end in
      res <- select_eq property target ;;
      ret (hd_error res)
  end.

Fixpoint tryGetNinjutsuFrom (levels : list MatchLevel) (name : jsstring)
  : M (option NinjutsuInfo) :=
  match levels with
  | [] => ret None
  | level :: later =>
      ninjutsu <- tryGetNinjutsuAtLevel name level ;;
      match ninjutsu with
      | Some found => ret (Some found)
      | None => tryGetNinjutsuFrom later name
      end
  end.

Definition tryGetNinjutsu (name : jsstring) : M (option NinjutsuInfo) :=
  tryGetNinjutsuFrom (levelsUpTo (matchLevel cfg)) name.

End Plugin.
End IndexTsx.

(** A runtime for closed examples: ASCII letters are lowered, every other
    unit is left alone.  The examples build no pattern beyond what [compile]
    reads and print no id above 2^53, so the two other fields are never
    consulted in them. *)
Definition asciiToLowerCase (s : jsstring) : jsstring :=
  map (fun u => if (65 <=? u) && (u <=? 90) then u + 32 else u) s.

Definition asciiRuntime : JSRuntime :=
  {| toLowerCase := asciiToLowerCase;
     regExpBeyond := fun _ => None;
     numberToStringBeyond := fun _ => [] |}.

(** A stand-in service for closed examples: the text itself, as one piece. *)
Definition echoService : PinyinService := fun s => [s].

(* ===================================================================== *)
(** * ninjutsu.info *)
(* ===================================================================== *)

(** The decimal digits of a number. *)
Fixpoint digits (u : Decimal.uint) : jsstring :=
  match u with
  | Decimal.Nil => []
  | Decimal.D0 r => 48 :: digits r
  | Decimal.D1 r => 49 :: digits r
  | Decimal.D2 r => 50 :: digits r
  | Decimal.D3 r => 51 :: digits r
  | Decimal.D4 r => 52 :: digits r
  | Decimal.D5 r => 53 :: digits r
  | Decimal.D6 r => 54 :: digits r
  | Decimal.D7 r => 55 :: digits r
  | Decimal.D8 r => 56 :: digits r
  | Decimal.D9 r => 57 :: digits r
  end.

(** The integers a JavaScript number holds exactly, one after the other. *)
Definition maxExactInteger : N := 2 ^ 53.

(** [`${n}`] for an id: up to 2^53 the number is the integer itself and
    [Number::toString] gives its decimal digits; above, the number is a
    rounded one and is printed with an exponent from 10^21 on. *)
Definition numberToString {rt : JSRuntime} (n : N) : jsstring :=
  if n <=? maxExactInteger then digits (N.to_uint n)
  else numberToStringBeyond n.

(** What [ninjutsu.info] answers. *)
Inductive Reply : Type :=
| InfoText (shownName shownDescription url : jsstring)  (* [.info] *)
| InfoTextLinked (shownName shownDescription href : jsstring)
    (* [.info] of [src/index.tsx]: the url is an [<a href>] element around
       the text [.more-info] *)
| NotFoundText                                          (* [.not-found] *)
| NotFoundTrySearch (command : jsstring).
    (* [.not-found-try-search] is queued, then [session.execute(command)] *)

Module LexNinjutsuInfo.
Section Plugin.
Context {rt : JSRuntime}.
Variable ctx : KoishiContext.
Variable cfg : Config.
(** [cfg.sourceUrl] *)
Variable sourceUrl : jsstring.

Definition onNotfound (name : jsstring) : M Reply :=
  if negb (searchOnFailed cfg) then ret NotFoundText
  else ret (NotFoundTrySearch (lit "ninjutsu.search " ++ name)).

(** [`${this.cfg.sourceUrl}/jutsus/${ninjutsu.id}`] *)
Definition infoUrl (i : N) : jsstring :=
  sourceUrl ++ lit "/jutsus/" ++ numberToString i.

Definition infoText (ninjutsu : NinjutsuInfo) : Reply :=
  InfoText (name ninjutsu) (description ninjutsu) (infoUrl (id ninjutsu)).

Definition getNinjutsuInfo (name : jsstring) : M Reply :=
  ninjutsu <- LexNinjutsu.tryGetNinjutsu ctx cfg name ;;
  match ninjutsu with
  | None => onNotfound name
  | Some ninjutsu => ret (infoText ninjutsu)
  end.

End Plugin.
End LexNinjutsuInfo.

(** [getNinjutsuInfo] of [src/index.tsx]: no search to fall back on; the
    URL is not shown as text, it is the [href] of an [<a>] element whose
    content is [session.text('.more-info')]. *)
Module IndexTsxInfo.
Section Plugin.
Context {rt : JSRuntime}.
Variable ctx : KoishiContext.
Variable cfg : Config.
Variable sourceUrl : jsstring.

Definition infoUrl (i : N) : jsstring :=
  sourceUrl ++ lit "/jutsus/" ++ numberToString i.

Definition infoText (ninjutsu : NinjutsuInfo) : Reply :=
  InfoTextLinked (name ninjutsu) (description ninjutsu) (infoUrl (id ninjutsu)).

Definition getNinjutsuInfo (name : jsstring) : M Reply :=
  ninjutsu <- IndexTsx.tryGetNinjutsu ctx cfg name ;;
  match ninjutsu with
  | None => ret NotFoundText
  | Some ninjutsu => ret (infoText ninjutsu)
  end.

End Plugin.
End IndexTsxInfo.

(* ===================================================================== *)
(** * Vocabulary of the statements *)
(* ===================================================================== *)

Section Vocabulary.
Context {rt : JSRuntime}.
Variable ctx : KoishiContext.

(** The key and the column of a level, as [getMatchInfo] hands them out. *)
Definition keyOf (level : MatchLevel) (name : jsstring) : jsstring :=
  fst (LexNinjutsu.getMatchInfo ctx level) name.

Definition columnOf (level : MatchLevel) : PropertyName :=
  snd (LexNinjutsu.getMatchInfo ctx level).

(** The rows whose column of the level equals the key of the level. *)
Definition exactRows (level : MatchLevel) (name : jsstring)
    (tbl : list NinjutsuInfo) : list NinjutsuInfo :=
  filter (fun row => jsstring_eqb (column (columnOf level) row) (keyOf level name)) tbl.

Definition exactQuery (name : jsstring) (level : MatchLevel) : Query :=
  SelectEq (columnOf level) (keyOf level name).

(** The rows whose column of the level contains the key of the level, in
    store order. *)
Definition substringRows (level : MatchLevel) (keyword : jsstring)
    (tbl : list NinjutsuInfo) : list NinjutsuInfo :=
  filter (fun row => includes (keyOf level keyword) (column (columnOf level) row)) tbl.

(** The rows a level's search query answers with, whatever regular
    expression its source gives. *)
Definition levelRows (level : MatchLevel) (keyword : jsstring) (limit : nat)
    (tbl : list NinjutsuInfo) : list NinjutsuInfo :=
  match newRegExp (lit ".*" ++ keyOf level keyword ++ lit ".*") with
  | Some matches =>
      firstn limit (filter (fun row => matches (column (columnOf level) row)) tbl)
  | None => []
  end.
End Vocabulary.

(** Listener runs that were started and not awaited come to their end, one
    after the other. *)
Fixpoint settle (pending : list (M unit)) : M unit :=
  match pending with
  | [] => ret tt
  | run :: later => _ <- run ;; settle later
  end.

(** The operations that write the catalog: [ninjutsu.update] with the list
    the source answered, the [ready] event (which starts the backfill when
    [NinjutsuPinyin] is loaded: it listens to [ready] as it does to
    ['ninjutsu-database-update']), and [ninjutsu.clear].  An operation is
    taken with the listener runs it started: they have finished when the
    next operation begins. *)
Inductive CatalogOp : Type :=
| OpUpdate (jutsus : list NinjutsuInfoSourceData)
| OpReady
| OpClear.

Definition runOp {rt : JSRuntime} (ctx : KoishiContext) (op : CatalogOp) : M unit :=
  match op with
  | OpUpdate jutsus =>
      pending <- LexNinjutsu.updateDatabase ctx jutsus ;;
      settle pending
  | OpReady => settle (LexNinjutsu.emit_ninjutsu_database_update ctx)
  | OpClear => LexNinjutsu.clearDatabase
  end.

(** The table after [ninjutsu.update]: at the moment the command returns,
    or once the listener runs it started have finished as well. *)
Definition afterUpdate {rt : JSRuntime} (ctx : KoishiContext)
    (jutsus : list NinjutsuInfoSourceData) (settled : bool) (db : Database)
  : Database :=
  if settled then snd (runOp ctx (OpUpdate jutsus) db)
  else snd (LexNinjutsu.updateDatabase ctx jutsus db).

Fixpoint runOps {rt : JSRuntime} (ctx : KoishiContext) (ops : list CatalogOp)
  : M unit :=
  match ops with
  | [] => ret tt
  | op :: later => _ <- runOp ctx op ;; runOps ctx later
  end.

(** The pinyin column is empty or is the pinyin of the row's normalized
    name. *)
Definition pinyinConsistent {rt : JSRuntime} (service : PinyinService)
    (row : NinjutsuInfo) : Prop :=
  namePinyin row = []
  \/ namePinyin row = NinjutsuPinyin.getPinyin service (nameNoPunctuation row).

(** What the backfill does to one row. *)
Definition backfillRow {rt : JSRuntime} (service : PinyinService)
    (row : NinjutsuInfo) : NinjutsuInfo :=
  if jsstring_eqb (namePinyin row) []
  then NinjutsuPinyin.setNamePinyin service row
  else row.

(** The terms of the pattern built from a keyword without syntax
    characters. *)
Definition literal (c : N) : Term := mkTerm (Char c) false.
Definition anyStar : Term := mkTerm AnyChar true.

(** The scanned code points that [removePunctuation] keeps. *)
Definition kept (c : N * jsstring) : bool := negb (matchesPSZ (fst c)).

(** A row as a property of an id-keyed object. *)
Definition property (row : NinjutsuInfo) : N * NinjutsuInfo := (id row, row).

(** The object a level's rows are stored in, as a list of properties. *)
Definition bucket (rows : list NinjutsuInfo) : list (N * NinjutsuInfo) :=
  fold_left (fun ps row => assign (id row) row ps) rows [].

(** The object of one level of a search. *)
Definition bucketOf {rt : JSRuntime} (ctx : KoishiContext) (keyword : jsstring)
    (limit : nat) (tbl : list NinjutsuInfo) (level : MatchLevel)
  : list (N * NinjutsuInfo) :=
  bucket (levelRows ctx level keyword limit tbl).

(** A heap of objects, each the prototype of the one before it; the first
    one lives at address [base]. *)
Fixpoint chain (base : nat) (bs : list (list (N * NinjutsuInfo))) : Heap :=
  match bs with
  | [] => []
  | b :: bs' =>
      match bs' with
      | [] => [mkObject b None]
      | _ :: _ => mkObject b (Some (S base)) :: chain (S base) bs'
      end
  end.

(** Key lists visited one after the other, a key being taken the first time
    it shows up. *)
Fixpoint mergeKeys (visited : list N) (kss : list (list N)) : list N :=
  match kss with
  | [] => []
  | ks :: later =>
      filter (fun k => negb (seen visited k)) ks
      ++ mergeKeys (visited ++ ks) later
  end.

(** The first of the property lists that has the key. *)
Fixpoint firstLookup (k : N) (bs : list (list (N * NinjutsuInfo)))
  : option NinjutsuInfo :=
  match bs with
  | [] => None
  | b :: later =>
      match lookupKey k b with
      | Some v => Some v
      | None => firstLookup k later
      end
  end.

(** The position of the first key list that holds the key. *)
Fixpoint firstIndex (k : N) (kss : list (list N)) : nat :=
  match kss with
  | [] => 0
  | ks :: later => if seen ks k then 0 else S (firstIndex k later)
  end.

(** [a] comes before [b] in the list. *)
Definition before {A : Type} (l : list A) (a b : A) : Prop :=
  exists l1 l2 l3, l = l1 ++ a :: l2 ++ b :: l3.

(** The ids of the rows a level's search query answers with. *)
Definition levelIds {rt : JSRuntime} (ctx : KoishiContext) (keyword : jsstring)
    (limit : nat) (tbl : list NinjutsuInfo) (level : MatchLevel) : list N :=
  map id (levelRows ctx level keyword limit tbl).

(** The keys of a search in the order [for..in] visits them. *)
Definition mergedKeys {rt : JSRuntime} (ctx : KoishiContext) (keyword : jsstring)
    (limit : nat) (tbl : list NinjutsuInfo) (levels : list MatchLevel) : list N :=
  mergeKeys [] (map (fun level => orderKeys (levelIds ctx keyword limit tbl level)) levels).

(** The normalized name of a row is the normalization of its name. *)
Definition normalized (row : NinjutsuInfo) : Prop :=
  nameNoPunctuation row = removePunctuation (name row).

(** The row holds what the source said about an entry. *)
Definition stores (d : NinjutsuInfoSourceData) (row : NinjutsuInfo) : Prop :=
  id row = src_id d
  /\ name row = src_name d
  /\ description row = src_description d
  /\ nameNoPunctuation row = removePunctuation (src_name d).

(** Follows the spec's words (4.3): levels in ascending order, the first row
    of the first level whose exact query is not empty, else nothing. *)
Fixpoint resolve {rt : JSRuntime} (ctx : KoishiContext) (levels : list MatchLevel)
    (name : jsstring) (tbl : list NinjutsuInfo) : option NinjutsuInfo :=
  match levels with
  | [] => None
  | level :: later =>
      match exactRows ctx level name tbl with
      | first :: _ => Some first
      | [] => resolve ctx later name tbl
      end
  end.

(* ===================================================================== *)
(** * Sample data *)
(* ===================================================================== *)

(** A row as [ninjutsu.update] first stores it: the normalized name is
    computed, the pinyin column is still empty. *)
Definition sampleRow (i : N) (n d : string) : NinjutsuInfo :=
  mkNinjutsuInfo i (lit n) (lit d) (removePunctuation (lit n)) [].

Definition withoutPinyin : KoishiContext := mkContext None.
Definition withEcho : KoishiContext := mkContext (Some echoService).

Definition emptyDatabase : Database := mkDatabase [] [].

Definition fireStyles : Database :=
  mkDatabase [sampleRow 2 "Fire-Style" "d"; sampleRow 1 "Fire Style!" "d"] [].

(** Source data for closed examples. *)
Definition sampleSource : list NinjutsuInfoSourceData :=
  [mkSourceData 1 (lit "ab") (lit "d"); mkSourceData 2 (lit "c-d") (lit "e")].

(** A stored entry whose pinyin column is filled. *)
Definition indexedEntry : Database :=
  mkDatabase [mkNinjutsuInfo 1 (lit "ab") (lit "d") (lit "ab") (lit "ab")] [].

(* ===================================================================== *)
(** * Sample runs *)
(* ===================================================================== *)

Example removePunctuation_hyphen :
  removePunctuation (lit "Fire-Style") = lit "FireStyle".
Proof. vm_compute. reflexivity. Qed.

Example removePunctuation_space_and_mark :
  removePunctuation (lit "Fire Style!") = lit "FireStyle".
Proof. vm_compute. reflexivity. Qed.

(** An emoji (a surrogate pair, category So), an ideographic space and an
    ideographic full stop are removed. *)
Example removePunctuation_beyond_ascii :
  removePunctuation [0xD83D; 0xDE00; 65; 0x3000; 0x3002] = [65].
Proof. vm_compute. reflexivity. Qed.

Example compile_keyword_ab :
  compile (lit ".*ab.*")
  = Regex [mkTerm AnyChar true; mkTerm (Char 97) false;
           mkTerm (Char 98) false; mkTerm AnyChar true].
Proof. reflexivity. Qed.

Example compile_keyword_star : compile (lit ".**.*") = SyntaxError.
Proof. reflexivity. Qed.

(** A keyword with [(] or [?] is beyond what [compile] reads: what comes
    of the pattern is the engine's answer. *)
Example compile_keyword_paren : compile (lit ".*(.*") = OutsideFragment.
Proof. reflexivity. Qed.

Example compile_keyword_optional : compile (lit ".*a?.*") = OutsideFragment.
Proof. reflexivity. Qed.

Example compile_keyword_backslash :
  compile (lit ".*\.*") = Regex [mkTerm AnyChar true; mkTerm (Char 46) true].
Proof. reflexivity. Qed.

Example compile_keyword_dot :
  compile (lit ".*..*")
  = Regex [mkTerm AnyChar true; mkTerm AnyChar false; mkTerm AnyChar true].
Proof. reflexivity. Qed.

(** The two Fire Style entries: each is found by its own name at the Strict
    level, and a search for the normalized name lists both. *)
Example resolve_strict_by_name :
  fst (@LexNinjutsu.tryGetNinjutsu asciiRuntime withoutPinyin
         (mkConfig Strict 10 10 true) (lit "Fire-Style") fireStyles)
  = Ok (Some (sampleRow 2 "Fire-Style" "d"))
  /\ fst (@LexNinjutsu.tryGetNinjutsu asciiRuntime withoutPinyin
            (mkConfig Strict 10 10 true) (lit "Fire Style!") fireStyles)
     = Ok (Some (sampleRow 1 "Fire Style!" "d")).
Proof. split; vm_compute; reflexivity. Qed.

(** Matching does not fold case. *)
Example resolve_is_case_sensitive :
  fst (@LexNinjutsu.tryGetNinjutsu asciiRuntime withoutPinyin
         (mkConfig Homophone 10 10 true) (lit "water jutsu")
         (mkDatabase [sampleRow 3 "Water Jutsu" "d"] []))
  = Ok None.
Proof. vm_compute. reflexivity. Qed.

Example search_without_result :
  fst (@LexNinjutsu.searchNinjutsu asciiRuntime withoutPinyin
         (mkConfig Normal 10 10 true) None (lit "zzz") fireStyles)
  = Ok NoResult.
Proof. vm_compute. reflexivity. Qed.

(* ===================================================================== *)
(** * Facts about strings and removePunctuation *)
(* ===================================================================== *)

Lemma jsstring_eqb_eq (a b : jsstring) : jsstring_eqb a b = true <-> a = b.
Proof.
  unfold jsstring_eqb. destruct (list_eq_dec N.eq_dec a b); split; congruence.
Qed.

Lemma jsstring_eqb_refl (a : jsstring) : jsstring_eqb a a = true.
Proof. apply jsstring_eqb_eq. reflexivity. Qed.

(** Induction two units at a time, the way [scan] and [removePunctuation]
    recurse. *)
Lemma jsstring_pair_ind (P : jsstring -> Prop) :
  P [] ->
  (forall u, P [u]) ->
  (forall u l t, P t -> P (l :: t) -> P (u :: l :: t)) ->
  forall s, P s.
Proof.
  intros Hnil Hone Hstep s.
  assert (H : P s /\ forall u, P (u :: s)).
  { induction s as [|l t [IHt IHlt]].
    - split; [exact Hnil | exact Hone].
    - split; [apply IHlt | intro u; apply Hstep; [exact IHt | apply IHlt]]. }
  exact (proj1 H).
Qed.

Lemma removePunctuation_scan (s : jsstring) :
  removePunctuation s = spell (filter kept (scan s)).
Proof.
  induction s as [|u|u l t IHt IHlt] using jsstring_pair_ind.
  - reflexivity.
  - unfold kept, spell. simpl. destruct (matchesPSZ u); reflexivity.
  - change (removePunctuation (u :: l :: t)) with
      (if isLeadSurrogate u && isTrailSurrogate l
       then if matchesPSZ (pairCodePoint u l)
            then removePunctuation t
            else u :: l :: removePunctuation t
       else if matchesPSZ u
            then removePunctuation (l :: t)
            else u :: removePunctuation (l :: t)).
    change (scan (u :: l :: t)) with
      (if isLeadSurrogate u && isTrailSurrogate l
       then (pairCodePoint u l, [u; l]) :: scan t
       else (u, [u]) :: scan (l :: t)).
    destruct (isLeadSurrogate u && isTrailSurrogate l).
    + cbn [filter]. unfold kept at 1. cbn [fst].
      destruct (matchesPSZ (pairCodePoint u l)); cbn [negb].
      * exact IHt.
      * rewrite IHt. reflexivity.
    + cbn [filter]. unfold kept at 1. cbn [fst].
      destruct (matchesPSZ u); cbn [negb].
      * exact IHlt.
      * rewrite IHlt. reflexivity.
Qed.

Lemma scan_single_unit (u : N) (x : jsstring) :
  isLeadSurrogate u = false -> scan (u :: x) = (u, [u]) :: scan x.
Proof.
  intro Hu. destruct x as [|l x]; simpl; [reflexivity|].
  rewrite Hu. reflexivity.
Qed.

Lemma scan_surrogate_pair (u l : N) (x : jsstring) :
  isLeadSurrogate u && isTrailSurrogate l = true ->
  scan (u :: l :: x) = (pairCodePoint u l, [u; l]) :: scan x.
Proof. intro H. simpl. rewrite H. reflexivity. Qed.

Lemma codePoints_removePunctuation (s : jsstring) :
  wellFormed s = true ->
  codePoints (removePunctuation s)
  = filter (fun c => negb (matchesPSZ c)) (codePoints s).
Proof.
  unfold codePoints.
  induction s as [|u|u l t IHt IHlt] using jsstring_pair_ind; intro Hwf.
  - reflexivity.
  - simpl. destruct (matchesPSZ u); reflexivity.
  - change (wellFormed (u :: l :: t)) with
      (if isLeadSurrogate u && isTrailSurrogate l then wellFormed t
       else negb (isLeadSurrogate u) && negb (isTrailSurrogate u)
            && wellFormed (l :: t)) in Hwf.
    change (removePunctuation (u :: l :: t)) with
      (if isLeadSurrogate u && isTrailSurrogate l
       then if matchesPSZ (pairCodePoint u l)
            then removePunctuation t
            else u :: l :: removePunctuation t
       else if matchesPSZ u
            then removePunctuation (l :: t)
            else u :: removePunctuation (l :: t)).
    destruct (isLeadSurrogate u && isTrailSurrogate l) eqn:Hpair.
    + rewrite (scan_surrogate_pair _ _ _ Hpair). cbn [map fst filter].
      destruct (matchesPSZ (pairCodePoint u l)); cbn [negb].
      * apply IHt, Hwf.
      * rewrite (scan_surrogate_pair _ _ _ Hpair). cbn [map fst].
        f_equal. apply IHt, Hwf.
    + apply andb_true_iff in Hwf. destruct Hwf as [Hu Hwf].
      apply andb_true_iff in Hu. destruct Hu as [Hu _].
      apply negb_true_iff in Hu.
      rewrite (scan_single_unit _ _ Hu). cbn [map fst filter].
      destruct (matchesPSZ u); cbn [negb].
      * apply IHlt, Hwf.
      * rewrite (scan_single_unit _ _ Hu). cbn [map fst].
        f_equal. apply IHlt, Hwf.
Qed.

(** C7 (as amended).  [removePunctuation] deletes exactly the code points of
    general category P, S or Z and keeps every other code point, in order:
    the result is the input's scanned code points, without the matching
    ones, spelled out again.  On a string without lone surrogates the code
    points of the result are the kept code points of the input, none of which
    is in P, S or Z.  The function is total, and the empty string is mapped
    to itself. *)
Theorem removePunctuation_deletes_P_S_Z (s : jsstring) :
  removePunctuation s = spell (filter kept (scan s))
  /\ removePunctuation [] = []
  /\ (wellFormed s = true ->
      codePoints (removePunctuation s)
      = filter (fun c => negb (matchesPSZ c)) (codePoints s))
  /\ (wellFormed s = true ->
      forall c, In c (codePoints (removePunctuation s)) -> matchesPSZ c = false).
Proof.
  split; [apply removePunctuation_scan|].
  split; [reflexivity|].
  split; [apply codePoints_removePunctuation|].
  intros Hwf c Hc.
  rewrite (codePoints_removePunctuation _ Hwf) in Hc.
  apply filter_In in Hc. destruct Hc as [_ Hc].
  apply negb_true_iff in Hc. exact Hc.
Qed.

Lemma removePunctuation_deletes_P_S_Z_witness :
  wellFormed (lit "Fire Style!") = true
  /\ codePoints (removePunctuation (lit "Fire Style!")) = lit "FireStyle"
  /\ matchesPSZ 70 = false.
Proof.
  split; [reflexivity|].
  destruct (removePunctuation_deletes_P_S_Z (lit "Fire Style!"))
    as (_ & _ & Hpoints & Hnone).
  split.
  - rewrite Hpoints; [vm_compute; reflexivity | reflexivity].
  - apply Hnone; [reflexivity|]. vm_compute. left. reflexivity.
Defined.

(** C7, as stated, fails: tab (U+0009) and newline (U+000A) are control
    characters (category Cc), outside P, S and Z, and stay in the result. *)
Lemma removePunctuation_keeps_tab_and_newline :
  In 9 (codePoints (removePunctuation [9]))
  /\ In 10 (codePoints (removePunctuation [10]))
  /\ removePunctuation (lit "a" ++ [9; 10] ++ lit "b") = lit "a" ++ [9; 10] ++ lit "b".
Proof.
  vm_compute. repeat split; left; reflexivity.
Qed.

(* ===================================================================== *)
(** * getDescriptionPreview *)
(* ===================================================================== *)

Lemma replaceAll1_length (a b : N) (s : jsstring) :
  js_length (replaceAll1 a b s) = js_length s.
Proof. apply length_map. Qed.

(** C10.  With a limit of 0 the preview is the description itself.  With a
    limit L >= 1 and d' the description with every newline replaced by a
    space, the preview is d' when d' has at most L units, and otherwise the
    first L units of d' followed by one U+2026; it never has more than L + 1
    units. *)
Theorem getDescriptionPreview_spec (cfg : Config) (d : jsstring) :
  let L := descriptionPreviewLimit cfg in
  let d' := replaceAll1 c_newline c_space d in
  (L = 0%nat -> LexNinjutsu.getDescriptionPreview cfg d = d)
  /\ ((1 <= L)%nat ->
      ((js_length d' <= L)%nat -> LexNinjutsu.getDescriptionPreview cfg d = d')
      /\ ((L < js_length d')%nat ->
          LexNinjutsu.getDescriptionPreview cfg d = substring0 L d' ++ [c_ellipsis])
      /\ (js_length (LexNinjutsu.getDescriptionPreview cfg d) <= L + 1)%nat).
Proof.
  intros L d'. unfold LexNinjutsu.getDescriptionPreview. fold L. fold d'.
  split.
  - intros ->. reflexivity.
  - intro HL.
    destruct (Nat.eqb_spec L 0) as [H0|_]; [lia|].
    destruct (Nat.leb_spec (js_length d') L) as [Hle|Hgt].
    + split; [reflexivity|]. split; [lia|]. lia.
    + split; [lia|]. split; [reflexivity|].
      unfold js_length, substring0 in *.
      rewrite length_app, length_firstn. simpl. lia.
Qed.

Lemma getDescriptionPreview_spec_witness :
  let cfg := mkConfig Normal 10 3 true in
  (1 <= descriptionPreviewLimit cfg)%nat
  /\ LexNinjutsu.getDescriptionPreview cfg (lit "ab" ++ [c_newline] ++ lit "cd")
     = lit "ab " ++ [c_ellipsis]
  /\ LexNinjutsu.getDescriptionPreview cfg (lit "a" ++ [c_newline]) = lit "a "
  /\ LexNinjutsu.getDescriptionPreview (mkConfig Normal 10 0 true)
       (lit "a" ++ [c_newline]) = lit "a" ++ [c_newline].
Proof.
  intro cfg.
  pose proof (getDescriptionPreview_spec cfg (lit "ab" ++ [c_newline] ++ lit "cd")) as H1.
  pose proof (getDescriptionPreview_spec cfg (lit "a" ++ [c_newline])) as H2.
  pose proof (getDescriptionPreview_spec (mkConfig Normal 10 0 true)
                (lit "a" ++ [c_newline])) as H3.
  cbv zeta in H1, H2, H3.
  destruct H1 as [_ H1]. destruct H2 as [_ H2]. destruct H3 as [H3 _].
  split; [simpl; lia|].
  split.
  - destruct (H1 ltac:(simpl; lia)) as (_ & H & _).
    rewrite H; [reflexivity | simpl; lia].
  - split.
    + destruct (H2 ltac:(simpl; lia)) as (H & _ & _).
      rewrite H; [reflexivity | simpl; lia].
    + apply H3. reflexivity.
Defined.

(* ===================================================================== *)
(** * The strategy table and the resolver *)
(* ===================================================================== *)

Section Resolver.
Context {rt : JSRuntime}.
Variable ctx : KoishiContext.

(** Without the service, [getMatchInfo] answers for Homophone what it
    answers for Normal: [removePunctuation] and [nameNoPunctuation]. *)
Lemma getMatchInfo_downgrade :
  pinyin ctx = None ->
  LexNinjutsu.getMatchInfo ctx Homophone = LexNinjutsu.getMatchInfo ctx Normal
  /\ LexNinjutsu.getMatchInfo ctx Normal
     = ((fun name => removePunctuation name), P_nameNoPunctuation).
Proof.
  intro Hp. unfold LexNinjutsu.getMatchInfo. rewrite Hp. split; reflexivity.
Qed.

Lemma getMatchInfo_with_service (service : PinyinService) :
  pinyin ctx = Some service ->
  LexNinjutsu.getMatchInfo ctx Homophone
  = ((fun name => NinjutsuPinyin.getPinyin service (removePunctuation name)),
     P_namePinyin).
Proof.
  intro Hp. unfold LexNinjutsu.getMatchInfo. rewrite Hp. cbn.
  unfold LexNinjutsu.bail_get_pinyin. rewrite Hp. reflexivity.
Qed.

(** One level of the resolver: one query, the first of its rows. *)
Lemma tryGetNinjutsuAtLevel_run (name : jsstring) (level : MatchLevel)
    (db : Database) :
  LexNinjutsu.tryGetNinjutsuAtLevel ctx name level db
  = (Ok (hd_error (exactRows ctx level name (table db))),
     journalled (exactQuery ctx name level) db).
Proof.
  unfold LexNinjutsu.tryGetNinjutsuAtLevel, exactRows, exactQuery, keyOf, columnOf.
  destruct (LexNinjutsu.getMatchInfo ctx level) as [getKeyword propertyName].
  reflexivity.
Qed.

Lemma journalled_twice (db : Database) (q : Query) (qs : list Query) :
  mkDatabase (table (journalled q db)) (journal (journalled q db) ++ qs)
  = mkDatabase (table db) (journal db ++ q :: qs).
Proof. unfold journalled. cbn. rewrite <- app_assoc. reflexivity. Qed.

Lemma tryGetNinjutsuFrom_hit (name : jsstring) (earlier : list MatchLevel) :
  forall (level : MatchLevel) (later : list MatchLevel)
         (first : NinjutsuInfo) (rest : list NinjutsuInfo) (db : Database),
    (forall l, In l earlier -> exactRows ctx l name (table db) = []) ->
    exactRows ctx level name (table db) = first :: rest ->
    LexNinjutsu.tryGetNinjutsuFrom ctx (earlier ++ level :: later) name db
    = (Ok (Some first),
       mkDatabase (table db)
                  (journal db ++ map (exactQuery ctx name) (earlier ++ [level]))).
Proof.
  induction earlier as [|e earlier IH]; intros level later first rest db Hmiss Hhit.
  - cbn [app LexNinjutsu.tryGetNinjutsuFrom]. unfold bind.
    rewrite tryGetNinjutsuAtLevel_run, Hhit. reflexivity.
  - cbn [app LexNinjutsu.tryGetNinjutsuFrom]. unfold bind.
    rewrite tryGetNinjutsuAtLevel_run, (Hmiss e (or_introl eq_refl)).
    cbn [hd_error].
    rewrite (IH level later first rest (journalled (exactQuery ctx name e) db)).
    + cbn [map]. rewrite journalled_twice. reflexivity.
    + intros l Hl. apply Hmiss. right. exact Hl.
    + exact Hhit.
Qed.

Lemma tryGetNinjutsuFrom_miss (name : jsstring) (levels : list MatchLevel) :
  forall db : Database,
    (forall l, In l levels -> exactRows ctx l name (table db) = []) ->
    LexNinjutsu.tryGetNinjutsuFrom ctx levels name db
    = (Ok None,
       mkDatabase (table db) (journal db ++ map (exactQuery ctx name) levels)).
Proof.
  induction levels as [|e levels IH]; intros db Hmiss.
  - cbn. rewrite app_nil_r. destruct db; reflexivity.
  - cbn [LexNinjutsu.tryGetNinjutsuFrom]. unfold bind.
    rewrite tryGetNinjutsuAtLevel_run, (Hmiss e (or_introl eq_refl)).
    cbn [hd_error].
    rewrite (IH (journalled (exactQuery ctx name e) db)).
    + cbn [map]. rewrite journalled_twice. reflexivity.
    + intros l Hl. apply Hmiss. right. exact Hl.
Qed.

(** The loop computes what the spec's algorithm describes, and only reads. *)
Lemma tryGetNinjutsuFrom_resolve (name : jsstring) (levels : list MatchLevel) :
  forall db : Database,
    fst (LexNinjutsu.tryGetNinjutsuFrom ctx levels name db)
    = Ok (resolve ctx levels name (table db))
    /\ table (snd (LexNinjutsu.tryGetNinjutsuFrom ctx levels name db)) = table db.
Proof.
  induction levels as [|e levels IH]; intro db.
  - split; reflexivity.
  - cbn [LexNinjutsu.tryGetNinjutsuFrom resolve]. unfold bind.
    rewrite tryGetNinjutsuAtLevel_run.
    destruct (exactRows ctx e name (table db)) as [|first rest]; cbn [hd_error].
    + apply (IH (journalled (exactQuery ctx name e) db)).
    + split; reflexivity.
Qed.

Lemma levelsUpTo_spec (m : MatchLevel) :
  StronglySorted lt (map levelValue (levelsUpTo m))
  /\ forall l, In l (levelsUpTo m) <-> (levelValue l <= levelValue m)%nat.
Proof.
  split.
  - destruct m; cbn; repeat constructor.
  - intro l. unfold levelsUpTo. rewrite filter_In, Nat.leb_le.
    split; [tauto|]. intro H. split; [|exact H].
    destruct l; cbn; tauto.
Qed.

(** C5.  [tryGetNinjutsu] goes through the levels from Strict up to the
    configured one, in ascending order.  At the first level whose exact
    query has a row it returns the first row of that query and has sent the
    queries of the levels up to that one and of no later level; when every
    level's query is empty it returns nothing (after one query per level).
    The table is left as it was. *)
Theorem tryGetNinjutsu_first_hit_wins (cfg : Config) (name : jsstring)
    (db : Database) :
  let levels := levelsUpTo (matchLevel cfg) in
  (StronglySorted lt (map levelValue levels)
   /\ forall l, In l levels <-> (levelValue l <= levelValue (matchLevel cfg))%nat)
  /\ (forall earlier level later first rest,
        levels = earlier ++ level :: later ->
        (forall l, In l earlier -> exactRows ctx l name (table db) = []) ->
        exactRows ctx level name (table db) = first :: rest ->
        LexNinjutsu.tryGetNinjutsu ctx cfg name db
        = (Ok (Some first),
           mkDatabase (table db)
             (journal db ++ map (exactQuery ctx name) (earlier ++ [level]))))
  /\ ((forall l, In l levels -> exactRows ctx l name (table db) = []) ->
      LexNinjutsu.tryGetNinjutsu ctx cfg name db
      = (Ok None,
         mkDatabase (table db) (journal db ++ map (exactQuery ctx name) levels))).
Proof.
  intro levels. split; [apply levelsUpTo_spec|]. split.
  - intros earlier level later first rest Hlevels Hmiss Hhit.
    unfold LexNinjutsu.tryGetNinjutsu. fold levels. rewrite Hlevels.
    apply (tryGetNinjutsuFrom_hit name earlier level later first rest db Hmiss Hhit).
  - intro Hmiss. unfold LexNinjutsu.tryGetNinjutsu. fold levels.
    apply tryGetNinjutsuFrom_miss. exact Hmiss.
Qed.

(** In [src/index.tsx] the Homophone level answers nothing and asks
    nothing when the service is missing. *)
Lemma IndexTsx_homophone_without_service (name : jsstring) (db : Database) :
  pinyin ctx = None ->
  IndexTsx.tryGetNinjutsuAtLevel ctx name Homophone db = (Ok None, db).
Proof.
  intro Hp. unfold IndexTsx.tryGetNinjutsuAtLevel. rewrite Hp. reflexivity.
Qed.

Lemma IndexTsx_other_levels (name : jsstring) (level : MatchLevel) (db : Database) :
  level <> Homophone ->
  IndexTsx.tryGetNinjutsuAtLevel ctx name level db
  = LexNinjutsu.tryGetNinjutsuAtLevel ctx name level db.
Proof.
  intro Hl. unfold IndexTsx.tryGetNinjutsuAtLevel, LexNinjutsu.tryGetNinjutsuAtLevel,
    LexNinjutsu.getMatchInfo.
  destruct level; [| |congruence]; destruct (pinyin ctx); reflexivity.
Qed.

(** C6.  Without the service, resolving with the level set to Homophone
    gives what resolving with the level set to Normal gives, on every
    table; this holds for the plugin and for [src/index.tsx]. *)
Theorem tryGetNinjutsu_homophone_as_normal (cfgH cfgN : Config)
    (name : jsstring) (db : Database) :
  pinyin ctx = None ->
  matchLevel cfgH = Homophone ->
  matchLevel cfgN = Normal ->
  fst (LexNinjutsu.tryGetNinjutsu ctx cfgH name db)
  = fst (LexNinjutsu.tryGetNinjutsu ctx cfgN name db)
  /\ fst (IndexTsx.tryGetNinjutsu ctx cfgH name db)
     = fst (IndexTsx.tryGetNinjutsu ctx cfgN name db).
Proof.
  intros Hp HH HN. split.
  - unfold LexNinjutsu.tryGetNinjutsu. rewrite HH, HN.
    rewrite (proj1 (tryGetNinjutsuFrom_resolve name _ db)).
    rewrite (proj1 (tryGetNinjutsuFrom_resolve name _ db)).
    f_equal. cbn [levelsUpTo filter levelValue Nat.leb resolve].
    assert (HE : exactRows ctx Homophone name (table db)
                 = exactRows ctx Normal name (table db)).
    { unfold exactRows, keyOf, columnOf.
      rewrite (proj1 (getMatchInfo_downgrade Hp)). reflexivity. }
    rewrite HE.
    destruct (exactRows ctx Strict name (table db)); [|reflexivity].
    destruct (exactRows ctx Normal name (table db)); reflexivity.
  - unfold IndexTsx.tryGetNinjutsu. rewrite HH, HN.
    cbn [levelsUpTo filter levelValue Nat.leb IndexTsx.tryGetNinjutsuFrom].
    unfold bind.
    destruct (IndexTsx.tryGetNinjutsuAtLevel ctx name Strict db)
      as [[[found|]|e] db1]; [reflexivity| |reflexivity].
    destruct (IndexTsx.tryGetNinjutsuAtLevel ctx name Normal db1)
      as [[[found|]|e] db2]; [reflexivity| |reflexivity].
    rewrite (IndexTsx_homophone_without_service name db2 Hp). reflexivity.
Qed.
End Resolver.

Lemma tryGetNinjutsu_first_hit_wins_witness :
  @LexNinjutsu.tryGetNinjutsu asciiRuntime withoutPinyin
     (mkConfig Normal 10 10 true) (lit "Fire Style") fireStyles
  = (Ok (Some (sampleRow 2 "Fire-Style" "d")),
     mkDatabase (table fireStyles)
       [SelectEq P_name (lit "Fire Style");
        SelectEq P_nameNoPunctuation (lit "FireStyle")])
  /\ @LexNinjutsu.tryGetNinjutsu asciiRuntime withoutPinyin
       (mkConfig Normal 10 10 true) (lit "Water") fireStyles
     = (Ok None,
        mkDatabase (table fireStyles)
          [SelectEq P_name (lit "Water");
           SelectEq P_nameNoPunctuation (lit "Water")]).
Proof.
  split.
  - destruct (@tryGetNinjutsu_first_hit_wins asciiRuntime withoutPinyin
                (mkConfig Normal 10 10 true) (lit "Fire Style") fireStyles)
      as (_ & Hhit & _).
    apply (Hhit [Strict] Normal [] (sampleRow 2 "Fire-Style" "d")
                [sampleRow 1 "Fire Style!" "d"]).
    + reflexivity.
    + intros l [<-|[]]. reflexivity.
    + reflexivity.
  - destruct (@tryGetNinjutsu_first_hit_wins asciiRuntime withoutPinyin
                (mkConfig Normal 10 10 true) (lit "Water") fireStyles)
      as (_ & _ & Hmiss).
    apply Hmiss.
    intros l [<-|[<-|[]]]; reflexivity.
Defined.

Lemma tryGetNinjutsu_homophone_as_normal_witness :
  fst (@LexNinjutsu.tryGetNinjutsu asciiRuntime withoutPinyin
         (mkConfig Homophone 10 10 true) (lit "Fire Style") fireStyles)
  = fst (@LexNinjutsu.tryGetNinjutsu asciiRuntime withoutPinyin
           (mkConfig Normal 10 10 true) (lit "Fire Style") fireStyles)
  /\ fst (@IndexTsx.tryGetNinjutsu asciiRuntime withoutPinyin
            (mkConfig Homophone 10 10 true) (lit "Fire Style") fireStyles)
     = fst (@IndexTsx.tryGetNinjutsu asciiRuntime withoutPinyin
              (mkConfig Normal 10 10 true) (lit "Fire Style") fireStyles).
Proof.
  apply (@tryGetNinjutsu_homophone_as_normal asciiRuntime withoutPinyin);
    reflexivity.
Defined.

(** C1 (as amended).  Without the pinyin service, the strategy that the
    plugin's [getMatchInfo] hands out for the Homophone level is exactly the
    one of the Normal level: the key is [removePunctuation] of the name and
    the column is [nameNoPunctuation].  So its Homophone level sends the
    query of the Normal level, in the resolver and in the search.
    [src/index.tsx] has no [getMatchInfo]: its resolver guards the Homophone
    level, which returns nothing and sends no query, so that resolving with
    the level set to Homophone is there, result and queries, resolving with
    the level set to Normal. *)
Theorem homophone_without_service_strategy {rt : JSRuntime} (ctx : KoishiContext)
    (cfgH cfgN : Config) (name : jsstring) (limit : nat) (db : Database) :
  pinyin ctx = None ->
  matchLevel cfgH = Homophone ->
  matchLevel cfgN = Normal ->
  (LexNinjutsu.getMatchInfo ctx Homophone = LexNinjutsu.getMatchInfo ctx Normal
   /\ keyOf ctx Homophone name = removePunctuation name
   /\ columnOf ctx Homophone = P_nameNoPunctuation)
  /\ LexNinjutsu.tryGetNinjutsuAtLevel ctx name Homophone db
     = (Ok (hd_error (filter (fun row => jsstring_eqb (nameNoPunctuation row)
                                                      (removePunctuation name))
                             (table db))),
        journalled (SelectEq P_nameNoPunctuation (removePunctuation name)) db)
  /\ LexNinjutsu.searchNinjutsuAtLevel ctx name limit Homophone db
     = LexNinjutsu.searchNinjutsuAtLevel ctx name limit Normal db
  /\ IndexTsx.tryGetNinjutsuAtLevel ctx name Homophone db = (Ok None, db)
  /\ IndexTsx.tryGetNinjutsu ctx cfgH name db
     = IndexTsx.tryGetNinjutsu ctx cfgN name db.
Proof.
  intros Hp HH HN.
  destruct (getMatchInfo_downgrade ctx Hp) as [Hdown Hnormal].
  split; [|split; [|split; [|split]]].
  - split; [exact Hdown|]. unfold keyOf, columnOf.
    rewrite Hdown, Hnormal. split; reflexivity.
  - rewrite tryGetNinjutsuAtLevel_run.
    unfold exactRows, exactQuery, keyOf, columnOf.
    rewrite Hdown, Hnormal. reflexivity.
  - unfold LexNinjutsu.searchNinjutsuAtLevel. rewrite Hdown. reflexivity.
  - apply IndexTsx_homophone_without_service. exact Hp.
  - unfold IndexTsx.tryGetNinjutsu. rewrite HH, HN.
    cbn [levelsUpTo filter levelValue Nat.leb IndexTsx.tryGetNinjutsuFrom].
    unfold bind.
    destruct (IndexTsx.tryGetNinjutsuAtLevel ctx name Strict db)
      as [[[found|]|e] db1]; [reflexivity| |reflexivity].
    destruct (IndexTsx.tryGetNinjutsuAtLevel ctx name Normal db1)
      as [[[found|]|e] db2]; [reflexivity| |reflexivity].
    rewrite (IndexTsx_homophone_without_service ctx name db2 Hp). reflexivity.
Qed.

Lemma homophone_without_service_strategy_witness :
  @LexNinjutsu.tryGetNinjutsuAtLevel asciiRuntime withoutPinyin (lit "a b")
     Homophone (mkDatabase [sampleRow 1 "a-b" "d"] [])
  = (Ok (Some (sampleRow 1 "a-b" "d")),
     mkDatabase [sampleRow 1 "a-b" "d"] [SelectEq P_nameNoPunctuation (lit "ab")])
  /\ @IndexTsx.tryGetNinjutsu asciiRuntime withoutPinyin
       (mkConfig Homophone 10 10 true) (lit "a b")
       (mkDatabase [sampleRow 1 "a-b" "d"] [])
     = @IndexTsx.tryGetNinjutsu asciiRuntime withoutPinyin
         (mkConfig Normal 10 10 true) (lit "a b")
         (mkDatabase [sampleRow 1 "a-b" "d"] []).
Proof.
  destruct (@homophone_without_service_strategy asciiRuntime withoutPinyin
              (mkConfig Homophone 10 10 true) (mkConfig Normal 10 10 true)
              (lit "a b") 10 (mkDatabase [sampleRow 1 "a-b" "d"] []))
    as (_ & Hlevel & _ & _ & Hresolver).
  - reflexivity.
  - reflexivity.
  - reflexivity.
  - split; [exact Hlevel|exact Hresolver].
Defined.

(** C1, as stated, fails in [src/index.tsx]: the service is missing, the
    level is set to Homophone and nothing is named [Water].  The resolver
    of [src/index.tsx] sends the Strict and the Normal query and then
    stops: at the Homophone level it asks nothing, where the Normal
    strategy asks for the normalized name once more, as the plugin does. *)
Lemma IndexTsx_sends_no_homophone_query :
  let cfg := mkConfig Homophone 10 10 true in
  @IndexTsx.tryGetNinjutsu asciiRuntime withoutPinyin cfg (lit "Water") fireStyles
  = (Ok None,
     mkDatabase (table fireStyles)
       [SelectEq P_name (lit "Water");
        SelectEq P_nameNoPunctuation (lit "Water")])
  /\ @LexNinjutsu.tryGetNinjutsu asciiRuntime withoutPinyin cfg (lit "Water") fireStyles
     = (Ok None,
        mkDatabase (table fireStyles)
          [SelectEq P_name (lit "Water");
           SelectEq P_nameNoPunctuation (lit "Water");
           SelectEq P_nameNoPunctuation (lit "Water")]).
Proof. cbv zeta. split; vm_compute; reflexivity. Qed.

(* ===================================================================== *)
(** * The search query of one level *)
(* ===================================================================== *)

Lemma not_syntax_character (c : N) :
  isSyntaxCharacter c = false ->
  (c =? c_star) = false /\ (c =? c_backslash) = false /\ (c =? c_dot) = false.
Proof.
  unfold isSyntaxCharacter, syntaxCharacters, c_star, c_backslash, c_dot.
  cbn [existsb]. intro H.
  repeat (apply orb_false_iff in H; destruct H as [? H]).
  repeat split; assumption.
Qed.

Lemma compile_literal (c q : N) (rest : jsstring) :
  isSyntaxCharacter c = false ->
  (q =? c_star) = false ->
  compile (c :: q :: rest) = consTerm (literal c) (compile (q :: rest)).
Proof.
  intros Hc Hq. destruct (not_syntax_character c Hc) as (Hs & Hb & Hd).
  cbn [compile]. rewrite Hs, Hb, Hc, Hd, Hq. reflexivity.
Qed.

Lemma compile_plain_then_any (k : jsstring) :
  plainKeyword k = true ->
  compile (k ++ [c_dot; c_star]) = Regex (map literal k ++ [anyStar]).
Proof.
  induction k as [|c k IH]; intro Hk.
  - reflexivity.
  - cbn [plainKeyword forallb] in Hk. apply andb_true_iff in Hk.
    destruct Hk as [Hc Hk]. apply negb_true_iff in Hc.
    specialize (IH Hk).
    destruct k as [|c' k].
    + cbn [app]. rewrite compile_literal; [|exact Hc|reflexivity].
      reflexivity.
    + cbn [app] in *. rewrite compile_literal; [|exact Hc|].
      * rewrite IH. reflexivity.
      * cbn [forallb] in Hk. apply andb_true_iff in Hk. destruct Hk as [Hc' _].
        apply negb_true_iff in Hc'.
        apply (not_syntax_character c' Hc').
Qed.

(** The source built from a keyword without syntax characters. *)
Lemma compile_plain (k : jsstring) :
  plainKeyword k = true ->
  compile (lit ".*" ++ k ++ lit ".*")
  = Regex (anyStar :: map literal k ++ [anyStar]).
Proof.
  intro Hk.
  change (lit ".*" ++ k ++ lit ".*")
    with (c_dot :: c_star :: (k ++ [c_dot; c_star])).
  change (compile (c_dot :: c_star :: (k ++ [c_dot; c_star])))
    with (consTerm anyStar (compile (k ++ [c_dot; c_star]))).
  rewrite (compile_plain_then_any k Hk). reflexivity.
Qed.

Lemma matchHere_literals (k : jsstring) :
  forall s, matchHere (map literal k ++ [anyStar]) s = startsWith k s.
Proof.
  induction k as [|c k IH]; intro s.
  - cbn. destruct s; reflexivity.
  - destruct s as [|u s]; cbn [map app matchHere literal starred atom startsWith].
    + reflexivity.
    + cbn [atomMatches]. rewrite IH, (N.eqb_sym u c). reflexivity.
Qed.

Lemma matchStar_weakens (a : Atom) (f : jsstring -> bool) (s : jsstring) :
  f s = true -> matchStar a f s = true.
Proof. intro H. destruct s; cbn; rewrite H; reflexivity. Qed.

(** A leading starred atom adds nothing to an unanchored test. *)
Lemma test_leading_star (a : Atom) (ts : list Term) (s : jsstring) :
  test (mkTerm a true :: ts) s = test ts s.
Proof.
  apply eq_true_iff_eq. split.
  - induction s as [|u s IH]; intro H.
    + cbn in H. rewrite orb_false_r in H. rewrite orb_false_r in H.
      cbn. rewrite H. reflexivity.
    + cbn [test] in H |- *. apply orb_true_iff in H. destruct H as [H|H].
      * cbn [matchHere starred atom matchStar] in H.
        apply orb_true_iff in H. destruct H as [H|H].
        -- rewrite H. reflexivity.
        -- apply andb_true_iff in H. destruct H as [_ H].
           rewrite IH; [apply orb_true_r|].
           destruct s; cbn [test matchHere starred atom]; rewrite H; reflexivity.
      * rewrite (IH H). apply orb_true_r.
  - induction s as [|u s IH]; intro H.
    + cbn in H |- *. rewrite orb_false_r in H. rewrite H. reflexivity.
    + cbn [test] in H |- *. apply orb_true_iff in H. destruct H as [H|H].
      * cbn [matchHere starred atom]. rewrite (matchStar_weakens a _ _ H).
        reflexivity.
      * rewrite (IH H). apply orb_true_r.
Qed.

Lemma test_literals (k s : jsstring) :
  test (map literal k ++ [anyStar]) s = includes k s.
Proof.
  induction s as [|u s IH]; cbn [test includes]; rewrite matchHere_literals.
  - reflexivity.
  - rewrite IH. reflexivity.
Qed.

(** For a keyword without syntax characters, the pattern tests for the
    keyword as a substring. *)
Lemma test_plain (k s : jsstring) :
  test (anyStar :: map literal k ++ [anyStar]) s = includes k s.
Proof. unfold anyStar at 1. rewrite test_leading_star. apply test_literals. Qed.

Lemma syntax_character_is_PSZ (c : N) :
  isSyntaxCharacter c = true ->
  matchesPSZ c = true /\ isLeadSurrogate c = false /\ isTrailSurrogate c = false.
Proof.
  unfold isSyntaxCharacter, syntaxCharacters. cbn [existsb]. intro H.
  repeat (apply orb_true_iff in H; destruct H as [H|H]);
    try discriminate H;
    apply N.eqb_eq in H; subst c; vm_compute; repeat split.
Qed.

Lemma kept_unit_not_syntax (u : N) :
  matchesPSZ u = false -> negb (isSyntaxCharacter u) = true.
Proof.
  intro H. destruct (isSyntaxCharacter u) eqn:E; [|reflexivity].
  destruct (syntax_character_is_PSZ u E) as [H' _]. congruence.
Qed.

Lemma surrogate_not_syntax (u : N) :
  isLeadSurrogate u = true \/ isTrailSurrogate u = true ->
  negb (isSyntaxCharacter u) = true.
Proof.
  intro H. destruct (isSyntaxCharacter u) eqn:E; [|reflexivity].
  destruct (syntax_character_is_PSZ u E) as (_ & Hl & Ht).
  destruct H; congruence.
Qed.

(** Every syntax character is punctuation or a symbol, so a normalized
    keyword has none. *)
Lemma removePunctuation_plain (s : jsstring) :
  plainKeyword (removePunctuation s) = true.
Proof.
  unfold plainKeyword.
  induction s as [|u|u l t IHt IHlt] using jsstring_pair_ind.
  - reflexivity.
  - cbn [removePunctuation]. destruct (matchesPSZ u) eqn:E; [reflexivity|].
    cbn [forallb]. rewrite (kept_unit_not_syntax u E). reflexivity.
  - change (removePunctuation (u :: l :: t)) with
      (if isLeadSurrogate u && isTrailSurrogate l
       then if matchesPSZ (pairCodePoint u l)
            then removePunctuation t
            else u :: l :: removePunctuation t
       else if matchesPSZ u
            then removePunctuation (l :: t)
            else u :: removePunctuation (l :: t)).
    destruct (isLeadSurrogate u && isTrailSurrogate l) eqn:Hpair.
    + destruct (matchesPSZ (pairCodePoint u l)); [exact IHt|].
      apply andb_true_iff in Hpair. destruct Hpair as [Hu Hl].
      cbn [forallb]. rewrite IHt.
      rewrite (surrogate_not_syntax u (or_introl Hu)).
      rewrite (surrogate_not_syntax l (or_intror Hl)). reflexivity.
    + destruct (matchesPSZ u) eqn:E; [exact IHlt|].
      cbn [forallb]. rewrite IHlt, (kept_unit_not_syntax u E). reflexivity.
Qed.

Section SearchQuery.
Context {rt : JSRuntime}.
Variable ctx : KoishiContext.

(** One level of the search, whatever the keyword. *)
Lemma searchNinjutsuAtLevel_run (keyword : jsstring) (limit : nat)
    (level : MatchLevel) (db : Database) :
  LexNinjutsu.searchNinjutsuAtLevel ctx keyword limit level db
  = match newRegExp (lit ".*" ++ keyOf ctx level keyword ++ lit ".*") with
    | Some _ =>
        (Ok (levelRows ctx level keyword limit (table db)),
         journalled (SelectRegex (columnOf ctx level)
                       (lit ".*" ++ keyOf ctx level keyword ++ lit ".*") limit) db)
    | None => (Throw RegExpSyntaxError, db)
    end.
Proof.
  unfold LexNinjutsu.searchNinjutsuAtLevel, levelRows, keyOf, columnOf.
  destruct (LexNinjutsu.getMatchInfo ctx level) as [getKeyword propertyName].
  cbn [fst snd]. unfold select_regex_limit.
  destruct (newRegExp (lit ".*" ++ getKeyword keyword ++ lit ".*")); reflexivity.
Qed.

(** For a key beyond what [compile] reads, the query answers with the
    first [limit] rows that the engine's regular expression matches, and
    throws when the engine refuses the pattern. *)
Lemma searchNinjutsuAtLevel_beyond (keyword : jsstring) (limit : nat)
    (level : MatchLevel) (db : Database) :
  compile (lit ".*" ++ keyOf ctx level keyword ++ lit ".*") = OutsideFragment ->
  LexNinjutsu.searchNinjutsuAtLevel ctx keyword limit level db
  = match regExpBeyond (lit ".*" ++ keyOf ctx level keyword ++ lit ".*") with
    | Some matches =>
        (Ok (firstn limit
               (filter (fun row => matches (column (columnOf ctx level) row))
                       (table db))),
         journalled (SelectRegex (columnOf ctx level)
                       (lit ".*" ++ keyOf ctx level keyword ++ lit ".*") limit) db)
    | None => (Throw RegExpSyntaxError, db)
    end.
Proof.
  intro H. rewrite searchNinjutsuAtLevel_run. unfold levelRows, newRegExp.
  rewrite H.
  destruct (regExpBeyond (lit ".*" ++ keyOf ctx level keyword ++ lit ".*"));
    reflexivity.
Qed.

(** The source built from a keyword without syntax characters gives a
    regular expression, the one [compile] reads. *)
Lemma newRegExp_plain (k : jsstring) :
  plainKeyword k = true ->
  newRegExp (lit ".*" ++ k ++ lit ".*")
  = Some (test (anyStar :: map literal k ++ [anyStar])).
Proof. intro Hk. unfold newRegExp. rewrite (compile_plain k Hk). reflexivity. Qed.

Lemma levelRows_plain (keyword : jsstring) (limit : nat) (level : MatchLevel)
    (tbl : list NinjutsuInfo) :
  plainKeyword (keyOf ctx level keyword) = true ->
  levelRows ctx level keyword limit tbl
  = firstn limit (substringRows ctx level keyword tbl).
Proof.
  intro Hk. unfold levelRows, substringRows.
  rewrite (newRegExp_plain _ Hk). f_equal.
  apply filter_ext. intro row. apply test_plain.
Qed.

(** When the key of the level has no syntax character, the query answers
    with the first [limit] rows, in store order, whose column contains the
    key as a substring. *)
Lemma searchNinjutsuAtLevel_plain (keyword : jsstring) (limit : nat)
    (level : MatchLevel) (db : Database) :
  plainKeyword (keyOf ctx level keyword) = true ->
  fst (LexNinjutsu.searchNinjutsuAtLevel ctx keyword limit level db)
  = Ok (firstn limit (substringRows ctx level keyword (table db)))
  /\ table (snd (LexNinjutsu.searchNinjutsuAtLevel ctx keyword limit level db))
     = table db.
Proof.
  intro Hk. rewrite searchNinjutsuAtLevel_run.
  rewrite (newRegExp_plain _ Hk). cbn [fst snd].
  rewrite (levelRows_plain keyword limit level (table db) Hk).
  split; reflexivity.
Qed.

(** The key of the Normal level (and of the Homophone level without the
    service) never has a syntax character: there the query is a substring
    query for every keyword. *)
Lemma keyOf_normal_plain (keyword : jsstring) :
  plainKeyword (keyOf ctx Normal keyword) = true.
Proof. apply removePunctuation_plain. Qed.

Lemma keyOf_strict (keyword : jsstring) : keyOf ctx Strict keyword = keyword.
Proof. reflexivity. Qed.
End SearchQuery.

(** C3, at failing inputs.  The table holds one row named [ab].  At the
    Strict level the keyword [.] selects that row although its name does not
    contain a dot, the keyword [\] selects it although its name contains no
    backslash, and the keyword [*] makes [new RegExp] throw; the keyword [b]
    selects the row as a substring query does. *)
Theorem searchNinjutsuAtLevel_keyword_is_a_pattern :
  let db := mkDatabase [sampleRow 1 "ab" "d"] [] in
  fst (@LexNinjutsu.searchNinjutsuAtLevel asciiRuntime withoutPinyin (lit ".") 10 Strict db)
  = Ok [sampleRow 1 "ab" "d"]
  /\ @substringRows asciiRuntime withoutPinyin Strict (lit ".") (table db) = []
  /\ fst (@LexNinjutsu.searchNinjutsuAtLevel asciiRuntime withoutPinyin (lit "\") 10 Strict db)
     = Ok [sampleRow 1 "ab" "d"]
  /\ @substringRows asciiRuntime withoutPinyin Strict (lit "\") (table db) = []
  /\ fst (@LexNinjutsu.searchNinjutsuAtLevel asciiRuntime withoutPinyin (lit "*") 10 Strict db)
     = Throw RegExpSyntaxError
  /\ fst (@LexNinjutsu.searchNinjutsuAtLevel asciiRuntime withoutPinyin (lit "b") 10 Strict db)
     = Ok (@substringRows asciiRuntime withoutPinyin Strict (lit "b") (table db)).
Proof. cbv zeta. repeat split; vm_compute; reflexivity. Qed.

(* ===================================================================== *)
(** * upsert and the pinyin backfill *)
(* ===================================================================== *)

Lemma existsb_hasId (i : N) (tbl : list NinjutsuInfo) :
  existsb (hasId i) tbl = true <-> In i (map id tbl).
Proof.
  rewrite existsb_exists, in_map_iff. unfold hasId.
  split.
  - intros [row [Hin Heq]]. apply N.eqb_eq in Heq. exists row. tauto.
  - intros [row [Heq Hin]]. exists row. split; [exact Hin|].
    apply N.eqb_eq. exact Heq.
Qed.

Lemma find_hasId_absent (i : N) (ds : list NinjutsuInfo) :
  ~ In i (map id ds) -> find (hasId i) ds = None.
Proof.
  induction ds as [|d ds IH]; intro H; [reflexivity|].
  cbn [find]. unfold hasId at 1.
  destruct (N.eqb_spec (id d) i) as [E|_].
  - exfalso. apply H. left. exact E.
  - apply IH. intro H'. apply H. right. exact H'.
Qed.

Lemma patchRow_fullRow (d row : NinjutsuInfo) :
  id row = id d -> patchRow (fullRow d) row = d.
Proof. intro H. destruct d. unfold patchRow. cbn in *. rewrite H. reflexivity. Qed.

(** A full row replaces the row of the same key. *)
Lemma upsertRow_fullRow (tbl : list NinjutsuInfo) (d : NinjutsuInfo) :
  In (id d) (map id tbl) ->
  upsertRow tbl (fullRow d)
  = map (fun row => if hasId (id d) row then d else row) tbl.
Proof.
  intro H. unfold upsertRow. cbn [p_id fullRow].
  rewrite (proj2 (existsb_hasId (id d) tbl) H).
  apply map_ext. intro row. unfold hasId.
  destruct (N.eqb_spec (id row) (id d)) as [E|_]; [|reflexivity].
  apply patchRow_fullRow. exact E.
Qed.

Lemma replace_keeps_ids (d : NinjutsuInfo) (tbl : list NinjutsuInfo) :
  map id (map (fun row => if hasId (id d) row then d else row) tbl) = map id tbl.
Proof.
  rewrite map_map. apply map_ext. intro row. unfold hasId.
  destruct (N.eqb_spec (id row) (id d)) as [E|_]; congruence.
Qed.

(** Full rows with distinct keys, all present in the table: each replaces
    its row, the other rows and the order stay. *)
Lemma upsertRows_fullRows (ds : list NinjutsuInfo) :
  forall tbl : list NinjutsuInfo,
    NoDup (map id ds) ->
    (forall d, In d ds -> In (id d) (map id tbl)) ->
    upsertRows tbl (map fullRow ds)
    = map (fun row => match find (hasId (id row)) ds with
                      | Some d => d
                      | None => row
                      end) tbl.
Proof.
  induction ds as [|d ds IH]; intros tbl Hnd Hin.
  - cbn. symmetry. apply map_id.
  - unfold upsertRows in *. cbn [map fold_left].
    rewrite (upsertRow_fullRow tbl d (Hin d (or_introl eq_refl))).
    inversion Hnd as [|? ? Hd Hnd']; subst.
    rewrite IH.
    + rewrite map_map. apply map_ext. intro row.
      assert (E : hasId (id row) d = hasId (id d) row)
        by (unfold hasId; apply N.eqb_sym).
      cbn [find]. rewrite E.
      destruct (hasId (id d) row); [|reflexivity].
      rewrite (find_hasId_absent (id d) ds Hd). reflexivity.
    + exact Hnd'.
    + intros d' Hd'. rewrite replace_keeps_ids. apply Hin. right. exact Hd'.
Qed.

Lemma NoDup_ids_filter (p : NinjutsuInfo -> bool) (tbl : list NinjutsuInfo) :
  NoDup (map id tbl) -> NoDup (map id (filter p tbl)).
Proof.
  induction tbl as [|row tbl IH]; intro H; [exact H|].
  inversion H as [|? ? Hrow Htbl]; subst. cbn [filter].
  destruct (p row); [|apply IH, Htbl].
  cbn [map]. constructor; [|apply IH, Htbl].
  intro Hin. apply Hrow. apply in_map_iff in Hin.
  destruct Hin as [r [E Hr]]. apply filter_In in Hr.
  apply in_map_iff. exists r. tauto.
Qed.

Lemma find_among_selected (g : NinjutsuInfo -> NinjutsuInfo)
    (p : NinjutsuInfo -> bool) (tbl : list NinjutsuInfo) (row : NinjutsuInfo) :
  (forall r, id (g r) = id r) ->
  NoDup (map id tbl) ->
  In row tbl ->
  find (hasId (id row)) (map g (filter p tbl))
  = if p row then Some (g row) else None.
Proof.
  intros Hg. induction tbl as [|x tbl IH]; intros Hnd Hin; [destruct Hin|].
  inversion Hnd as [|? ? Hx Hnd']; subst.
  destruct Hin as [->|Hin].
  - cbn [filter]. destruct (p row) eqn:Hp.
    + cbn [map find]. unfold hasId. rewrite Hg, N.eqb_refl. reflexivity.
    + apply find_hasId_absent. intro H. apply Hx.
      rewrite map_map in H. apply in_map_iff in H.
      destruct H as [r [E Hr]]. rewrite Hg in E. apply filter_In in Hr.
      apply in_map_iff. exists r. tauto.
  - assert (Hne : id x <> id row).
    { intro E. apply Hx. rewrite E. apply in_map. exact Hin. }
    cbn [filter]. destruct (p x).
    + cbn [map find]. unfold hasId at 1. rewrite Hg.
      destruct (N.eqb_spec (id x) (id row)) as [E|_]; [contradiction|].
      apply IH; assumption.
    + apply IH; assumption.
Qed.

Section Backfill.
Context {rt : JSRuntime}.
Variable service : PinyinService.

Lemma setNamePinyin_id (row : NinjutsuInfo) :
  id (NinjutsuPinyin.setNamePinyin service row) = id row.
Proof. reflexivity. Qed.

(** On a table with distinct keys the backfill rewrites each row on its
    own: rows with an empty pinyin column get it computed, the others
    stay. *)
Lemma updateDatabasePinyin_table (db : Database) :
  NoDup (map id (table db)) ->
  fst (NinjutsuPinyin.updateDatabasePinyin service db) = Ok tt
  /\ table (snd (NinjutsuPinyin.updateDatabasePinyin service db))
     = map (backfillRow service) (table db).
Proof.
  intro Hnd. unfold NinjutsuPinyin.updateDatabasePinyin, bind, select_eq, upsert.
  cbn [fst snd table journalled column]. split; [reflexivity|].
  set (sel := fun row : NinjutsuInfo => jsstring_eqb (namePinyin row) []).
  rewrite upsertRows_fullRows.
  - apply map_ext_in. intros row Hrow.
    rewrite (find_among_selected (NinjutsuPinyin.setNamePinyin service) sel
               (table db) row setNamePinyin_id Hnd Hrow).
    unfold backfillRow. fold (sel row). destruct (sel row); reflexivity.
  - rewrite map_map.
    rewrite (map_ext _ id setNamePinyin_id).
    apply NoDup_ids_filter. exact Hnd.
  - intros d Hd. apply in_map_iff in Hd. destruct Hd as [r [<- Hr]].
    apply filter_In in Hr. rewrite setNamePinyin_id. apply in_map. tauto.
Qed.

Lemma backfillRow_id (row : NinjutsuInfo) : id (backfillRow service row) = id row.
Proof. unfold backfillRow. destruct (jsstring_eqb _ _); reflexivity. Qed.

(** Only the pinyin column is written, and only where it was empty. *)
Lemma backfillRow_writes_only_pinyin (row : NinjutsuInfo) :
  id (backfillRow service row) = id row
  /\ name (backfillRow service row) = name row
  /\ description (backfillRow service row) = description row
  /\ nameNoPunctuation (backfillRow service row) = nameNoPunctuation row
  /\ (namePinyin row <> [] -> backfillRow service row = row)
  /\ (namePinyin row = [] ->
      namePinyin (backfillRow service row)
      = NinjutsuPinyin.getPinyin service (nameNoPunctuation row)).
Proof.
  unfold backfillRow.
  destruct (jsstring_eqb (namePinyin row) []) eqn:E.
  - apply jsstring_eqb_eq in E. repeat split; try reflexivity. congruence.
  - repeat split; try reflexivity. intro H. rewrite H in E.
    rewrite jsstring_eqb_refl in E. discriminate.
Qed.

Lemma backfillRow_idempotent (row : NinjutsuInfo) :
  backfillRow service (backfillRow service row) = backfillRow service row.
Proof.
  unfold backfillRow.
  destruct (jsstring_eqb (namePinyin row) []) eqn:E.
  - destruct (jsstring_eqb (namePinyin (NinjutsuPinyin.setNamePinyin service row)) []);
      reflexivity.
  - rewrite E. reflexivity.
Qed.

(** A row stays empty only where the pinyin of its normalized name is
    itself empty. *)
Lemma backfillRow_still_empty (row : NinjutsuInfo) :
  namePinyin (backfillRow service row) = [] ->
  NinjutsuPinyin.getPinyin service (nameNoPunctuation (backfillRow service row)) = [].
Proof.
  unfold backfillRow.
  destruct (jsstring_eqb (namePinyin row) []) eqn:E; cbn.
  - intro H. exact H.
  - intro H. rewrite H, jsstring_eqb_refl in E. discriminate.
Qed.

Lemma backfillRow_consistent (row : NinjutsuInfo) :
  pinyinConsistent service row -> pinyinConsistent service (backfillRow service row).
Proof.
  unfold backfillRow.
  destruct (jsstring_eqb (namePinyin row) []) eqn:E; [|tauto].
  intros _. right. reflexivity.
Qed.

(** C9 (as amended).  On a table with distinct ids the backfill does not
    fail and rewrites the table row by row: a row whose pinyin column is
    not empty is left as it is, a row whose pinyin column is empty gets the
    pinyin of its normalized name and keeps its other columns.  Running it
    a second time changes nothing.  After a run, a row has an empty pinyin
    column only if the pinyin of its normalized name is empty. *)
Theorem updateDatabasePinyin_idempotent (db : Database) :
  NoDup (map id (table db)) ->
  let once := snd (NinjutsuPinyin.updateDatabasePinyin service db) in
  let twice := snd (NinjutsuPinyin.updateDatabasePinyin service once) in
  fst (NinjutsuPinyin.updateDatabasePinyin service db) = Ok tt
  /\ table once = map (backfillRow service) (table db)
  /\ (forall row,
        id (backfillRow service row) = id row
        /\ name (backfillRow service row) = name row
        /\ description (backfillRow service row) = description row
        /\ nameNoPunctuation (backfillRow service row) = nameNoPunctuation row
        /\ (namePinyin row <> [] -> backfillRow service row = row)
        /\ (namePinyin row = [] ->
            namePinyin (backfillRow service row)
            = NinjutsuPinyin.getPinyin service (nameNoPunctuation row)))
  /\ table twice = table once
  /\ (forall row, In row (table once) -> namePinyin row = [] ->
        NinjutsuPinyin.getPinyin service (nameNoPunctuation row) = []).
Proof.
  intros Hnd once twice.
  destruct (updateDatabasePinyin_table db Hnd) as [Hok Honce].
  fold once in Honce.
  assert (Hnd1 : NoDup (map id (table once))).
  { rewrite Honce, map_map, (map_ext _ id backfillRow_id). exact Hnd. }
  destruct (updateDatabasePinyin_table once Hnd1) as [_ Htwice].
  fold twice in Htwice.
  split; [exact Hok|]. split; [exact Honce|].
  split; [apply backfillRow_writes_only_pinyin|]. split.
  - rewrite Htwice, Honce, map_map. apply map_ext.
    intro row. apply backfillRow_idempotent.
  - intros row Hrow Hempty. rewrite Honce in Hrow.
    apply in_map_iff in Hrow. destruct Hrow as [r [<- _]].
    apply backfillRow_still_empty. exact Hempty.
Qed.
End Backfill.

Lemma updateDatabasePinyin_idempotent_witness :
  let db := mkDatabase [sampleRow 1 "Ab" "d"; sampleRow 2 "!!" "d"] [] in
  let once := snd (@NinjutsuPinyin.updateDatabasePinyin asciiRuntime echoService db) in
  let twice := snd (@NinjutsuPinyin.updateDatabasePinyin asciiRuntime echoService once) in
  NoDup (map id (table db))
  /\ table once = [mkNinjutsuInfo 1 (lit "Ab") (lit "d") (lit "Ab") (lit "ab");
                   sampleRow 2 "!!" "d"]
  /\ table twice = table once.
Proof.
  intros db once twice.
  assert (Hnd : NoDup (map id (table db))).
  { cbn. repeat constructor; cbn; intuition discriminate. }
  destruct (@updateDatabasePinyin_idempotent asciiRuntime echoService db Hnd)
    as (_ & H1 & _ & H2 & _).
  split; [exact Hnd|]. split; [|exact H2].
  fold once in H1. rewrite H1. vm_compute. reflexivity.
Defined.

(** C9, as stated, fails: a row whose name is made of punctuation only has
    an empty normalized name, whose pinyin is empty; its pinyin column is
    still empty after the backfill (and is selected again by the next one). *)
Lemma updateDatabasePinyin_leaves_empty_row :
  let db := mkDatabase [sampleRow 2 "!!" "d"] [] in
  let once := snd (@NinjutsuPinyin.updateDatabasePinyin asciiRuntime echoService db) in
  fst (@NinjutsuPinyin.updateDatabasePinyin asciiRuntime echoService db) = Ok tt
  /\ exists row, In row (table once) /\ namePinyin row = [].
Proof.
  cbv zeta. split; [reflexivity|].
  exists (sampleRow 2 "!!" "d"). split; [left|]; vm_compute; reflexivity.
Qed.

(* ===================================================================== *)
(** * Catalog operations *)
(* ===================================================================== *)

Lemma upsertRow_ids (tbl : list NinjutsuInfo) (p : Partial) :
  map id (upsertRow tbl p)
  = if existsb (hasId (p_id p)) tbl then map id tbl else map id tbl ++ [p_id p].
Proof.
  unfold upsertRow. destruct (existsb (hasId (p_id p)) tbl).
  - rewrite map_map. apply map_ext. intro row.
    destruct (hasId (p_id p) row); reflexivity.
  - rewrite map_app. reflexivity.
Qed.

Lemma upsertRow_NoDup (tbl : list NinjutsuInfo) (p : Partial) :
  NoDup (map id tbl) -> NoDup (map id (upsertRow tbl p)).
Proof.
  intro H. rewrite upsertRow_ids.
  destruct (existsb (hasId (p_id p)) tbl) eqn:E; [exact H|].
  apply NoDup_app; [exact H | repeat constructor; intros [] |].
  intros i Hi [<-|[]].
  apply existsb_hasId in Hi. congruence.
Qed.

Lemma upsertRows_NoDup (ps : list Partial) :
  forall tbl, NoDup (map id tbl) -> NoDup (map id (upsertRows tbl ps)).
Proof.
  unfold upsertRows. induction ps as [|p ps IH]; intros tbl H; [exact H|].
  cbn [fold_left]. apply IH, upsertRow_NoDup, H.
Qed.

Section Catalog.
Context {rt : JSRuntime}.
Variable ctx : KoishiContext.

Lemma runOp_NoDup (op : CatalogOp) (db : Database) :
  NoDup (map id (table db)) ->
  fst (runOp ctx op db) = Ok tt
  /\ NoDup (map id (table (snd (runOp ctx op db)))).
Proof.
  intro H. destruct op; cbn [runOp].
  - unfold LexNinjutsu.updateDatabase, bind, upsert.
    unfold LexNinjutsu.emit_ninjutsu_database_update.
    destruct (pinyin ctx) as [service|].
    + unfold NinjutsuPinyin.updateDatabasePinyin, bind, select_eq, upsert.
      cbn [fst snd table journalled]. split; [reflexivity|].
      apply upsertRows_NoDup, upsertRows_NoDup, H.
    + cbn. split; [reflexivity|]. apply upsertRows_NoDup, H.
  - unfold LexNinjutsu.emit_ninjutsu_database_update.
    destruct (pinyin ctx) as [service|].
    + unfold NinjutsuPinyin.updateDatabasePinyin, bind, select_eq, upsert.
      cbn [fst snd table journalled]. split; [reflexivity|].
      apply upsertRows_NoDup, H.
    + cbn. split; [reflexivity|exact H].
  - unfold LexNinjutsu.clearDatabase, remove_id_gt_0. cbn [fst snd table].
    split; [reflexivity|]. apply NoDup_ids_filter, H.
Qed.

(** Every table reached from one with distinct ids has distinct ids, and no
    catalog operation throws. *)
Lemma runOps_NoDup (ops : list CatalogOp) :
  forall db, NoDup (map id (table db)) ->
    fst (runOps ctx ops db) = Ok tt
    /\ NoDup (map id (table (snd (runOps ctx ops db)))).
Proof.
  induction ops as [|op ops IH]; intros db H.
  - split; [reflexivity|exact H].
  - cbn [runOps]. unfold bind.
    destruct (runOp_NoDup op db H) as [Hok Hnd].
    destruct (runOp ctx op db) as [[[]|e] db1]; [|discriminate Hok].
    apply IH. exact Hnd.
Qed.
End Catalog.

(** What a refresh does to a row that is already stored: the name, the
    description and the normalized name are replaced, the pinyin column is
    not touched. *)
Lemma refresh_keeps_pinyin (d : NinjutsuInfoSourceData) (row : NinjutsuInfo) :
  name (patchRow (LexNinjutsu.toNinjutsuInfo d) row) = src_name d
  /\ nameNoPunctuation (patchRow (LexNinjutsu.toNinjutsuInfo d) row)
     = removePunctuation (src_name d)
  /\ namePinyin (patchRow (LexNinjutsu.toNinjutsuInfo d) row) = namePinyin row.
Proof. repeat split. Qed.

(** A row inserted by a refresh starts with an empty pinyin column. *)
Lemma refresh_inserts_empty_pinyin (d : NinjutsuInfoSourceData) :
  namePinyin (patchRow (LexNinjutsu.toNinjutsuInfo d) (initialRow (src_id d))) = [].
Proof. reflexivity. Qed.

(** The backfill alone keeps the pinyin column in step with the normalized
    name. *)
Lemma updateDatabasePinyin_consistent {rt : JSRuntime} (service : PinyinService)
    (db : Database) :
  NoDup (map id (table db)) ->
  Forall (pinyinConsistent service) (table db) ->
  Forall (pinyinConsistent service)
         (table (snd (NinjutsuPinyin.updateDatabasePinyin service db))).
Proof.
  intros Hnd H.
  rewrite (proj2 (updateDatabasePinyin_table service db Hnd)).
  rewrite Forall_forall in *. intros row Hrow.
  apply in_map_iff in Hrow. destruct Hrow as [r [<- Hr]].
  apply backfillRow_consistent, H, Hr.
Qed.

(** C8, at the failing input.  Entry 1 is ingested as [ab] and backfilled;
    a second refresh renames it to [cd].  The upsert carries no pinyin
    column, so the old value stays, and the backfill (which only selects
    rows whose pinyin column is empty) does not visit the row: the stored
    pinyin is that of the old name, neither empty nor the pinyin of the
    current normalized name. *)
Theorem renamed_entry_keeps_old_pinyin :
  let ops := [OpUpdate [mkSourceData 1 (lit "ab") (lit "d")];
              OpUpdate [mkSourceData 1 (lit "cd") (lit "d")];
              OpReady] in
  let final := snd (@runOps asciiRuntime withEcho ops emptyDatabase) in
  table final = [mkNinjutsuInfo 1 (lit "cd") (lit "d") (lit "cd") (lit "ab")]
  /\ @NinjutsuPinyin.getPinyin asciiRuntime echoService (lit "cd") = lit "cd"
  /\ ~ Forall (@pinyinConsistent asciiRuntime echoService) (table final).
Proof.
  cbv zeta. split; [vm_compute; reflexivity|]. split; [reflexivity|].
  intro H. inversion H as [|row rest Hrow _ E]; subst.
  destruct Hrow as [Hrow|Hrow]; vm_compute in Hrow; discriminate Hrow.
Qed.

(* ===================================================================== *)
(** * The objects built by the search *)
(* ===================================================================== *)

Lemma updateAt_last (h : Heap) (o : JSObject) (f : JSObject -> JSObject) :
  updateAt (h ++ [o]) (List.length h) f = h ++ [f o].
Proof. induction h as [|x h IH]; cbn; [reflexivity|]. rewrite IH. reflexivity. Qed.

(** Filling the newest object of the heap. *)
Lemma fill_newest (h0 : Heap) (proto : option nat) (rows : list NinjutsuInfo) :
  forall ps,
    fold_left (fun h ninjutsu => setProperty h (List.length h0) (id ninjutsu) ninjutsu)
              rows (h0 ++ [mkObject ps proto])
    = h0 ++ [mkObject (fold_left (fun ps row => assign (id row) row ps) rows ps) proto].
Proof.
  induction rows as [|row rows IH]; intro ps; [reflexivity|].
  cbn [fold_left]. unfold setProperty at 2. rewrite updateAt_last.
  cbn [properties prototype]. apply IH.
Qed.

Lemma chain_length (bs : list (list (N * NinjutsuInfo))) :
  forall base, List.length (chain base bs) = List.length bs.
Proof.
  induction bs as [|b bs IH]; intro base; [reflexivity|].
  destruct bs as [|b' bs]; [reflexivity|].
  change (chain base (b :: b' :: bs))
    with (mkObject b (Some (S base)) :: chain (S base) (b' :: bs)).
  cbn [List.length]. rewrite IH. reflexivity.
Qed.

(** Linking a new object behind the last one of a chain. *)
Lemma chain_link (b : list (N * NinjutsuInfo)) (bs : list (list (N * NinjutsuInfo))) :
  forall base,
    bs <> [] ->
    setPrototypeOf (chain base bs ++ [mkObject b None])
                   (List.length bs - 1) (base + List.length bs)
    = chain base (bs ++ [b]).
Proof.
  unfold setPrototypeOf.
  induction bs as [|b0 bs IH]; intros base Hne; [congruence|].
  destruct bs as [|b1 bs].
  - cbn. rewrite Nat.add_1_r. reflexivity.
  - change (chain base (b0 :: b1 :: bs))
      with (mkObject b0 (Some (S base)) :: chain (S base) (b1 :: bs)).
    change ((b0 :: b1 :: bs) ++ [b]) with (b0 :: ((b1 :: bs) ++ [b])).
    change (chain base (b0 :: (b1 :: bs) ++ [b]))
      with (mkObject b0 (Some (S base)) :: chain (S base) ((b1 :: bs) ++ [b])).
    rewrite <- (IH (S base)); [|discriminate].
    cbn [List.length Nat.sub app updateAt].
    rewrite Nat.sub_0_r, Nat.add_succ_r. reflexivity.
Qed.

Section Collect.
Context {rt : JSRuntime}.
Variable ctx : KoishiContext.
Variable keyword : jsstring.
Variable limit : nat.

(** One round of the first loop. *)
Lemma collect_step (bs : list (list (N * NinjutsuInfo))) (rows : list NinjutsuInfo) :
  bs <> [] ->
  setPrototypeOf
    (fold_left (fun h ninjutsu => setProperty h (List.length (chain 0 bs))
                                    (id ninjutsu) ninjutsu)
               rows (chain 0 bs ++ [mkObject [] None]))
    (List.length bs - 1) (List.length (chain 0 bs))
  = chain 0 (bs ++ [bucket rows]).
Proof.
  intro Hne. rewrite fill_newest. rewrite chain_length.
  apply (chain_link (bucket rows) bs 0 Hne).
Qed.

(** When the first loop ends, the heap is the chain of the objects it
    started with followed by one object per level, and the table is as it
    was. *)
Lemma collectLevels_ok (levels : list MatchLevel) :
  forall bs db h' db',
    bs <> [] ->
    LexNinjutsu.collectLevels ctx levels keyword limit (chain 0 bs)
      (List.length bs - 1) db = (Ok h', db') ->
    h' = chain 0 (bs ++ map (bucketOf ctx keyword limit (table db)) levels)
    /\ table db' = table db.
Proof.
  induction levels as [|level levels IH]; intros bs db h' db' Hne Hrun.
  - cbn in Hrun. inversion Hrun; subst. rewrite app_nil_r. split; reflexivity.
  - cbn [LexNinjutsu.collectLevels] in Hrun. unfold bind in Hrun.
    rewrite searchNinjutsuAtLevel_run in Hrun.
    unfold bucketOf at 1. cbn [map]. unfold levelRows in *.
    destruct (newRegExp (lit ".*" ++ keyOf ctx level keyword ++ lit ".*"))
      as [matches|]; [|discriminate Hrun].
    unfold newObject in Hrun.
    rewrite collect_step in Hrun by exact Hne.
    rewrite chain_length in Hrun.
    match type of Hrun with
    | LexNinjutsu.collectLevels _ _ _ _ (chain 0 ?bs') _ _ = _ =>
        assert (Hlen : List.length bs = (List.length bs' - 1)%nat)
          by (rewrite length_app; cbn; lia);
        rewrite Hlen in Hrun;
        apply IH in Hrun; [|destruct bs; discriminate]
    end.
    destruct Hrun as [Hh Ht]. cbn [table journalled] in *.
    rewrite <- app_assoc in Hh. split; [exact Hh|exact Ht].
Qed.

(** The first loop ends when every pattern gives a regular expression. *)
Lemma collectLevels_total (levels : list MatchLevel) :
  forall bs db,
    bs <> [] ->
    (forall level, In level levels ->
       newRegExp (lit ".*" ++ keyOf ctx level keyword ++ lit ".*") <> None) ->
    exists h' db',
      LexNinjutsu.collectLevels ctx levels keyword limit (chain 0 bs)
        (List.length bs - 1) db = (Ok h', db').
Proof.
  induction levels as [|level levels IH]; intros bs db Hne Hc.
  - eexists. eexists. reflexivity.
  - cbn [LexNinjutsu.collectLevels]. unfold bind.
    rewrite searchNinjutsuAtLevel_run.
    pose proof (Hc level (or_introl eq_refl)) as Hts.
    destruct (newRegExp (lit ".*" ++ keyOf ctx level keyword ++ lit ".*"))
      as [matches|]; [|congruence].
    unfold newObject.
    rewrite collect_step by exact Hne.
    rewrite chain_length.
    match goal with
    | |- exists _ _, LexNinjutsu.collectLevels _ _ _ _ (chain 0 ?bs') _ ?db1 = _ =>
        assert (Hlen : List.length bs = (List.length bs' - 1)%nat)
          by (rewrite length_app; cbn; lia);
        rewrite Hlen;
        apply (IH bs' db1)
    end.
    + destruct bs; discriminate.
    + intros l Hl. apply Hc. right. exact Hl.
Qed.

(** The first loop throws when the pattern of some level is refused. *)
Lemma collectLevels_throws (levels : list MatchLevel) :
  forall h prev db,
    (exists level, In level levels
       /\ newRegExp (lit ".*" ++ keyOf ctx level keyword ++ lit ".*") = None) ->
    exists db',
      LexNinjutsu.collectLevels ctx levels keyword limit h prev db
      = (Throw RegExpSyntaxError, db').
Proof.
  induction levels as [|l levels IH]; intros h prev db [level [Hin Hnone]];
    [destruct Hin|].
  cbn [LexNinjutsu.collectLevels]. unfold bind.
  rewrite searchNinjutsuAtLevel_run.
  destruct (newRegExp (lit ".*" ++ keyOf ctx l keyword ++ lit ".*")) eqn:E.
  - destruct Hin as [<-|Hin]; [congruence|].
    unfold newObject. apply IH. exists level. split; assumption.
  - eexists. reflexivity.
Qed.
End Collect.

Lemma chain_cons (base : nat) (b : list (N * NinjutsuInfo))
    (rest : list (list (N * NinjutsuInfo))) :
  chain base (b :: rest)
  = mkObject b (match rest with [] => None | _ :: _ => Some (S base) end)
    :: chain (S base) rest.
Proof. destruct rest; reflexivity. Qed.

Lemma nth_error_after (prefix : Heap) (o : JSObject) (rest : Heap) :
  nth_error (prefix ++ o :: rest) (List.length prefix) = Some o.
Proof.
  rewrite nth_error_app2 by lia. rewrite Nat.sub_diag. reflexivity.
Qed.

(** [for..in] over a chain visits the own keys of its objects in turn. *)
Lemma forInFrom_chain (bs : list (list (N * NinjutsuInfo))) :
  forall base prefix visited fuel,
    List.length prefix = base ->
    (List.length bs <= fuel)%nat ->
    bs <> [] ->
    forInFrom fuel (prefix ++ chain base bs) (Some base) visited
    = mergeKeys visited (map (fun b => orderKeys (map fst b)) bs).
Proof.
  induction bs as [|b rest IH]; intros base prefix visited fuel Hlen Hfuel Hne;
    [congruence|].
  destruct fuel as [|fuel]; [cbn in Hfuel; lia|].
  rewrite chain_cons. cbn [forInFrom map mergeKeys].
  rewrite <- Hlen, nth_error_after. cbn [prototype]. unfold ownKeys.
  cbn [properties]. f_equal.
  destruct rest as [|b' rest].
  - destruct fuel; reflexivity.
  - rewrite Hlen.
    replace (prefix ++ mkObject b (Some (S base)) :: chain (S base) (b' :: rest))
      with ((prefix ++ [mkObject b (Some (S base))]) ++ chain (S base) (b' :: rest))
      by (rewrite <- app_assoc; reflexivity).
    apply IH.
    + rewrite length_app. cbn. lia.
    + cbn in Hfuel |- *. lia.
    + discriminate.
Qed.

(** A property read on a chain finds the first object that has the key. *)
Lemma getFrom_chain (k : N) (bs : list (list (N * NinjutsuInfo))) :
  forall base prefix fuel,
    List.length prefix = base ->
    (List.length bs <= fuel)%nat ->
    bs <> [] ->
    getFrom fuel (prefix ++ chain base bs) (Some base) k = firstLookup k bs.
Proof.
  induction bs as [|b rest IH]; intros base prefix fuel Hlen Hfuel Hne;
    [congruence|].
  destruct fuel as [|fuel]; [cbn in Hfuel; lia|].
  rewrite chain_cons. cbn [getFrom firstLookup].
  rewrite <- Hlen, nth_error_after. cbn [prototype properties].
  destruct (lookupKey k b) as [v|]; [reflexivity|].
  destruct rest as [|b' rest].
  - destruct fuel; reflexivity.
  - rewrite Hlen.
    replace (prefix ++ mkObject b (Some (S base)) :: chain (S base) (b' :: rest))
      with ((prefix ++ [mkObject b (Some (S base))]) ++ chain (S base) (b' :: rest))
      by (rewrite <- app_assoc; reflexivity).
    apply IH.
    + rewrite length_app. cbn. lia.
    + cbn in Hfuel |- *. lia.
    + discriminate.
Qed.

Lemma forIn_chain (bs : list (list (N * NinjutsuInfo))) :
  bs <> [] ->
  forIn (chain 0 bs) 0 = mergeKeys [] (map (fun b => orderKeys (map fst b)) bs).
Proof.
  intro Hne. unfold forIn.
  apply (forInFrom_chain bs 0 [] [] (List.length (chain 0 bs)));
    [reflexivity | rewrite chain_length; lia | exact Hne].
Qed.

Lemma getProperty_chain (k : N) (bs : list (list (N * NinjutsuInfo))) :
  bs <> [] ->
  getProperty (chain 0 bs) 0 k = firstLookup k bs.
Proof.
  intro Hne. unfold getProperty.
  apply (getFrom_chain k bs 0 [] (List.length (chain 0 bs)));
    [reflexivity | rewrite chain_length; lia | exact Hne].
Qed.

(* --- the properties of one object -------------------------------------- *)

Lemma assign_new (k : N) (v : NinjutsuInfo) (ps : list (N * NinjutsuInfo)) :
  ~ In k (map fst ps) -> assign k v ps = ps ++ [(k, v)].
Proof.
  induction ps as [|[k' v'] ps IH]; intro H; [reflexivity|].
  cbn [assign]. destruct (N.eqb_spec k k') as [E|_].
  - exfalso. apply H. left. symmetry. exact E.
  - cbn [app]. rewrite IH; [reflexivity|]. intro H'. apply H. right. exact H'.
Qed.

Lemma fold_assign_distinct (rows : list NinjutsuInfo) :
  forall ps,
    NoDup (map fst ps ++ map id rows) ->
    fold_left (fun ps row => assign (id row) row ps) rows ps
    = ps ++ map property rows.
Proof.
  induction rows as [|row rows IH]; intros ps H.
  - cbn. rewrite app_nil_r. reflexivity.
  - cbn [fold_left map]. rewrite assign_new.
    + rewrite IH.
      * rewrite <- app_assoc. reflexivity.
      * rewrite map_app, <- app_assoc. exact H.
    + cbn [map] in H. apply NoDup_remove_2 in H.
      intro Hin. apply H. apply in_or_app. left. exact Hin.
Qed.

(** Rows with distinct ids become one property each, in their order. *)
Lemma bucket_distinct (rows : list NinjutsuInfo) :
  NoDup (map id rows) -> bucket rows = map property rows.
Proof. intro H. unfold bucket. rewrite fold_assign_distinct; [reflexivity|exact H]. Qed.

Lemma bucket_keys (rows : list NinjutsuInfo) :
  NoDup (map id rows) -> map fst (bucket rows) = map id rows.
Proof.
  intro H. rewrite (bucket_distinct rows H), map_map. reflexivity.
Qed.

Lemma lookupKey_property (k : N) (rows : list NinjutsuInfo) :
  lookupKey k (map property rows) = find (hasId k) rows.
Proof.
  induction rows as [|row rows IH]; [reflexivity|].
  cbn [map property lookupKey find]. unfold hasId at 1.
  rewrite (N.eqb_sym k (id row)).
  destruct (id row =? k); [reflexivity|exact IH].
Qed.

(* --- lists: one element before another ---------------------------------- *)

Section Before.
Context {A : Type}.
Implicit Types (l : list A) (a b : A).

Lemma before_in l a b : before l a b -> In a l /\ In b l.
Proof.
  intros (l1 & l2 & l3 & ->). split.
  - apply in_or_app. right. left. reflexivity.
  - apply in_or_app. right. right. apply in_or_app. right. left. reflexivity.
Qed.

Lemma before_cons_inv h l a b :
  before (h :: l) a b -> (a = h /\ In b l) \/ before l a b.
Proof.
  intros (l1 & l2 & l3 & E). destruct l1 as [|x l1]; cbn in E.
  - inversion E; subst. left. split; [reflexivity|].
    apply in_or_app. right. left. reflexivity.
  - inversion E; subst. right. exists l1, l2, l3. reflexivity.
Qed.

Lemma before_cons h l a b : before l a b -> before (h :: l) a b.
Proof. intros (l1 & l2 & l3 & ->). exists (h :: l1), l2, l3. reflexivity. Qed.

Lemma before_head h l b : In b l -> before (h :: l) h b.
Proof.
  intro H. apply in_split in H. destruct H as (l2 & l3 & ->).
  exists [], l2, l3. reflexivity.
Qed.

Lemma before_app_cases x y a b :
  before (x ++ y) a b ->
  before x a b \/ (In a x /\ In b y) \/ before y a b.
Proof.
  induction x as [|h x IH]; intro H.
  - right. right. exact H.
  - cbn in H. apply before_cons_inv in H. destruct H as [[-> Hb]|H].
    + apply in_app_or in Hb. destruct Hb as [Hb|Hb].
      * left. apply before_head. exact Hb.
      * right. left. split; [left; reflexivity|exact Hb].
    + destruct (IH H) as [H1|[[Ha Hb]|H3]].
      * left. apply before_cons. exact H1.
      * right. left. split; [right; exact Ha|exact Hb].
      * right. right. exact H3.
Qed.

Lemma before_filter (f : A -> bool) l a b :
  before (filter f l) a b -> before l a b.
Proof.
  induction l as [|h l IH]; intro H.
  - destruct H as (l1 & l2 & l3 & E). destruct l1; discriminate E.
  - cbn in H. destruct (f h).
    + apply before_cons_inv in H. destruct H as [[-> Hb]|H].
      * apply before_head. apply filter_In in Hb. tauto.
      * apply before_cons, IH, H.
    + apply before_cons, IH, H.
Qed.

Lemma before_NoDup_neq l a b : NoDup l -> before l a b -> a <> b.
Proof.
  intros Hnd (l1 & l2 & l3 & ->) E. subst b.
  apply NoDup_app_remove_l in Hnd. inversion Hnd as [|? ? Hnot _]; subst.
  apply Hnot. apply in_or_app. right. left. reflexivity.
Qed.

Lemma StronglySorted_before (R : A -> A -> Prop) l a b :
  StronglySorted R l -> before l a b -> R a b.
Proof.
  induction 1 as [|h l Hs IH Hall]; intro H.
  - destruct H as (l1 & l2 & l3 & E). destruct l1; discriminate E.
  - apply before_cons_inv in H. destruct H as [[-> Hb]|H].
    + rewrite Forall_forall in Hall. apply Hall, Hb.
    + apply IH, H.
Qed.
End Before.

Arguments before_in {A} [l a b] _.
Arguments before_filter {A} f [l a b] _.
Arguments before_NoDup_neq {A} [l a b] _ _.
Arguments StronglySorted_before {A} [R l a b] _ _.

(* --- the order of own keys --------------------------------------------- *)

Lemma insertKey_perm (k : N) (l : list N) : Permutation (insertKey k l) (k :: l).
Proof.
  induction l as [|x l IH]; cbn; [reflexivity|].
  destruct (k <=? x); [reflexivity|].
  rewrite IH. apply perm_swap.
Qed.

Lemma sortKeys_perm (l : list N) : Permutation (sortKeys l) l.
Proof.
  induction l as [|k l IH]; cbn; [reflexivity|].
  rewrite insertKey_perm. constructor. exact IH.
Qed.

Lemma insertKey_sorted (k : N) (l : list N) :
  StronglySorted N.le l -> StronglySorted N.le (insertKey k l).
Proof.
  induction 1 as [|x l Hs IH Hall]; cbn.
  - repeat constructor.
  - destruct (N.leb_spec k x) as [Hle|Hgt].
    + constructor; [constructor; assumption|].
      constructor; [exact Hle|].
      rewrite Forall_forall in *. intros y Hy. specialize (Hall y Hy). lia.
    + constructor; [exact IH|].
      rewrite Forall_forall in *. intros y Hy.
      apply (Permutation_in _ (insertKey_perm k l)) in Hy.
      destruct Hy as [<-|Hy]; [lia|apply Hall, Hy].
Qed.

Lemma sortKeys_sorted (l : list N) : StronglySorted N.le (sortKeys l).
Proof.
  induction l as [|k l IH]; cbn; [constructor|].
  apply insertKey_sorted, IH.
Qed.

Lemma filter_split_perm (f : N -> bool) (l : list N) :
  Permutation (filter f l ++ filter (fun k => negb (f k)) l) l.
Proof.
  induction l as [|k l IH]; cbn; [reflexivity|].
  destruct (f k); cbn.
  - constructor. exact IH.
  - symmetry. apply Permutation_cons_app. symmetry. exact IH.
Qed.

Lemma orderKeys_perm (ks : list N) : Permutation (orderKeys ks) ks.
Proof.
  unfold orderKeys. rewrite sortKeys_perm. apply filter_split_perm.
Qed.

Lemma orderKeys_in (ks : list N) (k : N) : In k (orderKeys ks) <-> In k ks.
Proof.
  split; apply Permutation_in; [|symmetry]; apply orderKeys_perm.
Qed.

Lemma orderKeys_NoDup (ks : list N) : NoDup ks -> NoDup (orderKeys ks).
Proof.
  apply Permutation_NoDup. symmetry. apply orderKeys_perm.
Qed.

(** Where two keys of one object stand in its enumeration: array indices by
    value, array indices before the other keys, the other keys in the order
    they were created. *)
Lemma orderKeys_before (ks : list N) (a b : N) :
  NoDup ks ->
  before (orderKeys ks) a b ->
  (isArrayIndex a = true -> isArrayIndex b = true -> a < b)
  /\ (isArrayIndex b = true -> isArrayIndex a = true)
  /\ (isArrayIndex a = false -> isArrayIndex b = false -> before ks a b).
Proof.
  intros Hnd H.
  pose proof (before_NoDup_neq (orderKeys_NoDup ks Hnd) H) as Hne.
  unfold orderKeys in H. apply before_app_cases in H.
  destruct H as [H|[[Ha Hb]|H]].
  - pose proof (StronglySorted_before (sortKeys_sorted _) H) as Hle.
    apply before_in in H. destruct H as [Ha Hb].
    apply (Permutation_in _ (sortKeys_perm _)) in Ha, Hb.
    apply filter_In in Ha, Hb.
    repeat split; intros; try lia; try tauto. destruct Ha; congruence.
  - apply (Permutation_in _ (sortKeys_perm _)) in Ha.
    apply filter_In in Ha, Hb. destruct Ha as [_ Ha]. destruct Hb as [_ Hb].
    apply negb_true_iff in Hb.
    repeat split; intros; congruence.
  - pose proof (before_in H) as [Ha Hb].
    apply filter_In in Ha, Hb. destruct Ha as [_ Ha]. destruct Hb as [_ Hb].
    apply negb_true_iff in Ha, Hb.
    repeat split; intros; try congruence.
    apply (before_filter _ H).
Qed.

(* --- merging the key lists --------------------------------------------- *)

Lemma seen_in (visited : list N) (k : N) : seen visited k = true <-> In k visited.
Proof.
  unfold seen. rewrite existsb_exists. split.
  - intros [x [Hx E]]. apply N.eqb_eq in E. subst. exact Hx.
  - intro H. exists k. split; [exact H|apply N.eqb_refl].
Qed.

Lemma seen_not_in (visited : list N) (k : N) :
  seen visited k = false <-> ~ In k visited.
Proof.
  rewrite <- seen_in. destruct (seen visited k); split; congruence.
Qed.

Lemma mergeKeys_in (kss : list (list N)) :
  forall visited k,
    In k (mergeKeys visited kss)
    <-> ~ In k visited /\ exists ks, In ks kss /\ In k ks.
Proof.
  induction kss as [|ks kss IH]; intros visited k; cbn [mergeKeys].
  - split; [intros []|]. intros [_ [ks [[] _]]].
  - rewrite in_app_iff, filter_In, IH, negb_true_iff, seen_not_in.
    split.
    + intros [[Hk Hv]|[Hv [ks' [Hks' Hk]]]].
      * split; [exact Hv|]. exists ks. split; [left; reflexivity|exact Hk].
      * split.
        -- intro H. apply Hv. apply in_or_app. left. exact H.
        -- exists ks'. split; [right; exact Hks'|exact Hk].
    + intros [Hv [ks' [[<-|Hks'] Hk]]].
      * left. split; assumption.
      * destruct (in_dec N.eq_dec k ks) as [Hin|Hnot].
        -- left. split; assumption.
        -- right. split.
           ++ intro H. apply in_app_or in H. tauto.
           ++ exists ks'. split; assumption.
Qed.

Lemma mergeKeys_NoDup (kss : list (list N)) :
  forall visited,
    (forall ks, In ks kss -> NoDup ks) ->
    NoDup (mergeKeys visited kss).
Proof.
  induction kss as [|ks kss IH]; intros visited H; cbn [mergeKeys].
  - constructor.
  - apply NoDup_app.
    + apply NoDup_filter, H. left. reflexivity.
    + apply IH. intros ks' Hks'. apply H. right. exact Hks'.
    + intros k Hk Hk'. apply filter_In in Hk. apply mergeKeys_in in Hk'.
      destruct Hk' as [Hv _]. apply Hv. apply in_or_app. right. tauto.
Qed.

Lemma firstIndex_head (k : N) (ks : list N) (kss : list (list N)) :
  In k ks -> firstIndex k (ks :: kss) = 0%nat.
Proof. intro H. cbn. rewrite (proj2 (seen_in ks k) H). reflexivity. Qed.

Lemma firstIndex_tail (k : N) (ks : list N) (kss : list (list N)) :
  ~ In k ks -> firstIndex k (ks :: kss) = S (firstIndex k kss).
Proof. intro H. cbn. rewrite (proj2 (seen_not_in ks k) H). reflexivity. Qed.

(** In the merged list a key of an earlier list comes first; two keys first
    met in the same list stand as they stand in that list. *)
Lemma mergeKeys_before (kss : list (list N)) :
  forall visited a b,
    before (mergeKeys visited kss) a b ->
    (firstIndex a kss <= firstIndex b kss)%nat
    /\ (firstIndex a kss = firstIndex b kss ->
        exists ks, nth_error kss (firstIndex a kss) = Some ks /\ before ks a b).
Proof.
  induction kss as [|ks kss IH]; intros visited a b H; cbn [mergeKeys] in H.
  - destruct H as (l1 & l2 & l3 & E). destruct l1; discriminate E.
  - apply before_app_cases in H. destruct H as [H|[[Ha Hb]|H]].
    + pose proof (before_filter _ H) as Hks.
      destruct (before_in Hks) as [Ha Hb].
      rewrite (firstIndex_head _ _ kss Ha), (firstIndex_head _ _ kss Hb).
      split; [lia|]. intros _. exists ks. split; [reflexivity|exact Hks].
    + apply filter_In in Ha. destruct Ha as [Ha _].
      apply mergeKeys_in in Hb. destruct Hb as [Hb _].
      assert (Hb' : ~ In b ks) by (intro; apply Hb, in_or_app; tauto).
      rewrite (firstIndex_head _ _ kss Ha), (firstIndex_tail _ _ kss Hb').
      split; [lia|]. intro E. discriminate E.
    + destruct (before_in H) as [Ha Hb].
      apply mergeKeys_in in Ha, Hb. destruct Ha as [Ha _]. destruct Hb as [Hb _].
      assert (Ha' : ~ In a ks) by (intro; apply Ha, in_or_app; tauto).
      assert (Hb' : ~ In b ks) by (intro; apply Hb, in_or_app; tauto).
      rewrite (firstIndex_tail _ _ kss Ha'), (firstIndex_tail _ _ kss Hb').
      destruct (IH _ _ _ H) as [Hle Heq].
      split; [lia|]. intro E. injection E as E.
      destruct (Heq E) as [ks' [Hn Hbef]]. exists ks'. split; assumption.
Qed.

Lemma firstIndex_orderKeys (k : N) (kss : list (list N)) :
  firstIndex k (map orderKeys kss) = firstIndex k kss.
Proof.
  induction kss as [|ks kss IH]; [reflexivity|].
  cbn [map firstIndex]. rewrite IH.
  destruct (seen ks k) eqn:E.
  - apply seen_in in E. apply orderKeys_in in E. apply seen_in in E.
    rewrite E. reflexivity.
  - apply seen_not_in in E. rewrite <- orderKeys_in in E.
    apply seen_not_in in E. rewrite E. reflexivity.
Qed.

(* --- rows of a level ---------------------------------------------------- *)

Lemma In_firstn {A : Type} (n : nat) (l : list A) (x : A) :
  In x (firstn n l) -> In x l.
Proof.
  intro H. rewrite <- (firstn_skipn n l). apply in_or_app. left. exact H.
Qed.

Lemma NoDup_firstn {A : Type} (n : nat) (l : list A) :
  NoDup l -> NoDup (firstn n l).
Proof.
  intro H. rewrite <- (firstn_skipn n l) in H.
  apply NoDup_app_remove_r in H. exact H.
Qed.

Lemma NoDup_ids_inj (tbl : list NinjutsuInfo) (r1 r2 : NinjutsuInfo) :
  NoDup (map id tbl) -> In r1 tbl -> In r2 tbl -> id r1 = id r2 -> r1 = r2.
Proof.
  induction tbl as [|x tbl IH]; intros Hnd H1 H2 E; [destruct H1|].
  inversion Hnd as [|? ? Hx Hnd']; subst.
  destruct H1 as [->|H1]; destruct H2 as [->|H2].
  - reflexivity.
  - exfalso. apply Hx. rewrite E. apply in_map. exact H2.
  - exfalso. apply Hx. rewrite <- E. apply in_map. exact H1.
  - apply IH; assumption.
Qed.

Lemma Forall2_choose {A B : Type} (P : A -> B -> Prop) (l : list A) :
  (forall a, In a l -> exists b, P a b) -> exists l', Forall2 P l l'.
Proof.
  induction l as [|a l IH]; intro H.
  - exists []. constructor.
  - destruct (H a (or_introl eq_refl)) as [b Hb].
    destruct IH as [l' Hl']; [intros x Hx; apply H; right; exact Hx|].
    exists (b :: l'). constructor; assumption.
Qed.

Section LevelRows.
Context {rt : JSRuntime}.
Variable ctx : KoishiContext.
Variable keyword : jsstring.
Variable limit : nat.
Variable tbl : list NinjutsuInfo.

Lemma levelRows_incl (level : MatchLevel) (row : NinjutsuInfo) :
  In row (levelRows ctx level keyword limit tbl) -> In row tbl.
Proof.
  unfold levelRows. destruct (newRegExp _); [|intros []].
  intro H. apply In_firstn in H. apply filter_In in H. tauto.
Qed.

Lemma levelRows_NoDup (level : MatchLevel) :
  NoDup (map id tbl) -> NoDup (map id (levelRows ctx level keyword limit tbl)).
Proof.
  intro H. unfold levelRows. destruct (newRegExp _); [|constructor].
  rewrite <- firstn_map. apply NoDup_firstn, NoDup_ids_filter, H.
Qed.

Lemma levelRows_length (level : MatchLevel) :
  (List.length (levelRows ctx level keyword limit tbl) <= limit)%nat.
Proof.
  unfold levelRows. destruct (newRegExp _); [|cbn; lia].
  rewrite length_firstn. lia.
Qed.

(** Reading a key that some level's rows carry finds the row of that id
    in the first object that has it. *)
Lemma firstLookup_found (k : N) (levels : list MatchLevel) :
  NoDup (map id tbl) ->
  (exists level, In level levels
     /\ In k (map id (levelRows ctx level keyword limit tbl))) ->
  exists row level,
    In level levels
    /\ firstLookup k (map (bucketOf ctx keyword limit tbl) levels) = Some row
    /\ id row = k
    /\ In row (levelRows ctx level keyword limit tbl).
Proof.
  intro Hnd. induction levels as [|l levels IH]; intros [level [Hl Hk]];
    [destruct Hl|].
  cbn [map firstLookup]. unfold bucketOf at 1.
  rewrite (bucket_distinct _ (levelRows_NoDup l Hnd)), lookupKey_property.
  destruct (find (hasId k) (levelRows ctx l keyword limit tbl)) as [row|] eqn:E.
  - apply find_some in E. destruct E as [Hrow Hid].
    exists row, l. unfold hasId in Hid. apply N.eqb_eq in Hid.
    split; [left; reflexivity|]. split; [reflexivity|]. split; assumption.
  - destruct Hl as [<-|Hl].
    + exfalso. apply in_map_iff in Hk. destruct Hk as [row [Hid Hrow]].
      pose proof (find_none _ _ E row Hrow) as Hno.
      unfold hasId in Hno. rewrite Hid, N.eqb_refl in Hno. discriminate.
    + destruct IH as (row & level' & Hl' & Hfound & Hid & Hrow).
      * exists level. split; assumption.
      * exists row, level'. split; [right; exact Hl'|].
        split; [exact Hfound|]. split; assumption.
Qed.
End LevelRows.

Section Render.
Variable cfg : Config.
Variable h : Heap.
Variable res : nat.
Variable limit : nat.

(** The second loop over keys that all have a row: every key is counted,
    the rows of the first [limit] keys are rendered. *)
Lemma renderKeys_run (keys : list N) (rows : list NinjutsuInfo) :
  Forall2 (fun k row => getProperty h res k = Some row) keys rows ->
  forall count message,
    LexNinjutsu.renderKeys cfg h res limit keys count message
    = Ok ((count + List.length keys)%nat,
          message ++ map (LexNinjutsu.resultItem cfg) (firstn (limit - count) rows)).
Proof.
  induction 1 as [|k row keys rows Hk _ IH]; intros count message.
  - cbn. rewrite firstn_nil, app_nil_r, Nat.add_0_r. reflexivity.
  - cbn [LexNinjutsu.renderKeys]. rewrite Hk.
    destruct (Nat.ltb_spec limit (S count)) as [Hlt|Hge].
    + rewrite IH. cbn [List.length].
      replace (limit - S count)%nat with 0%nat by lia.
      replace (limit - count)%nat with 0%nat by lia.
      cbn. f_equal. f_equal. lia.
    + rewrite IH. cbn [List.length].
      replace (limit - count)%nat with (S (limit - S count)) by lia.
      cbn [firstn map]. rewrite <- app_assoc. cbn. f_equal. f_equal. lia.
Qed.
End Render.

(* ===================================================================== *)
(** * searchNinjutsu *)
(* ===================================================================== *)

Lemma Forall2_map_id (keys : list N) (rows : list NinjutsuInfo)
    (P : N -> NinjutsuInfo -> Prop) :
  (forall k row, P k row -> id row = k) ->
  Forall2 P keys rows -> map id rows = keys.
Proof.
  intros HP. induction 1 as [|k row keys rows Hk _ IH]; [reflexivity|].
  cbn. rewrite (HP k row Hk), IH. reflexivity.
Qed.

Lemma Forall2_in_r {A B : Type} (P : A -> B -> Prop) (l : list A) (l' : list B) :
  Forall2 P l l' -> forall b, In b l' -> exists a, In a l /\ P a b.
Proof.
  induction 1 as [|a b l l' Hab _ IH]; intros x Hx; [destruct Hx|].
  destruct Hx as [<-|Hx].
  - exists a. split; [left; reflexivity|exact Hab].
  - destruct (IH x Hx) as [a' [Ha' Hp]]. exists a'. split; [right|]; assumption.
Qed.

Section Search.
Context {rt : JSRuntime}.
Variable ctx : KoishiContext.
Variable cfg : Config.

(** The second loop on the heap the first loop leaves: the keys come in
    merged order, each has its row, and the rows are counted and
    rendered. *)
Lemma render_merged (keyword : jsstring) (L : nat) (tbl : list NinjutsuInfo)
    (levels : list MatchLevel) :
  NoDup (map id tbl) ->
  let h := chain 0 ([] :: map (bucketOf ctx keyword L tbl) levels) in
  exists merged : list NinjutsuInfo,
    map id merged = mergedKeys ctx keyword L tbl levels
    /\ (forall row, In row merged ->
          exists level, In level levels
            /\ In row (levelRows ctx level keyword L tbl))
    /\ LexNinjutsu.renderKeys cfg h 0 L (forIn h 0) 0 []
       = Ok (List.length merged,
             map (LexNinjutsu.resultItem cfg) (firstn L merged)).
Proof.
  intros Hnd h.
  assert (Hkeys : forIn h 0 = mergedKeys ctx keyword L tbl levels).
  { unfold h. rewrite forIn_chain by discriminate.
    cbn [map mergeKeys properties]. unfold mergedKeys.
    change (orderKeys []) with (@nil N). cbn [filter app].
    rewrite map_map. f_equal. apply map_ext. intro level.
    unfold bucketOf, levelIds.
    rewrite (bucket_keys _ (levelRows_NoDup ctx keyword L tbl level Hnd)).
    reflexivity. }
  rewrite Hkeys.
  set (P := fun (k : N) (row : NinjutsuInfo) =>
              getProperty h 0 k = Some row
              /\ id row = k
              /\ exists level, In level levels
                   /\ In row (levelRows ctx level keyword L tbl)).
  destruct (Forall2_choose P (mergedKeys ctx keyword L tbl levels)) as [merged HF].
  { intros k Hk. unfold mergedKeys in Hk. apply mergeKeys_in in Hk.
    destruct Hk as [_ [ks [Hks Hin]]].
    apply in_map_iff in Hks. destruct Hks as [level [<- Hlevel]].
    apply (proj1 (orderKeys_in _ _)) in Hin.
    destruct (firstLookup_found ctx keyword L tbl k levels Hnd) as
      (row & level' & Hl' & Hfound & Hid & Hrow).
    { exists level. split; [exact Hlevel|exact Hin]. }
    exists row. unfold P. split; [|split; [exact Hid|]].
    - unfold h. rewrite getProperty_chain by discriminate. exact Hfound.
    - exists level'. split; assumption. }
  exists merged. split; [|split].
  - apply (Forall2_map_id _ _ P); [|exact HF]. unfold P. tauto.
  - intros row Hrow. destruct (Forall2_in_r _ _ _ HF row Hrow) as [k [_ Hp]].
    unfold P in Hp. tauto.
  - rewrite (renderKeys_run cfg h 0 L (mergedKeys ctx keyword L tbl levels) merged).
    + rewrite (Forall2_length HF), Nat.sub_0_r. reflexivity.
    + eapply Forall2_impl; [|exact HF]. unfold P. tauto.
Qed.

(** Both loops of a search that does not throw: the rows for the merged
    keys are counted, and the first [limit] of them are rendered.  The
    table is left as it was. *)
Lemma searchNinjutsuLoops_merged (limit : option nat) (keyword : jsstring)
    (db db' : Database) (count : nat) (message : list ResultItem) :
  let L := LexNinjutsu.limitOrDefault cfg limit in
  let levels := levelsUpTo (matchLevel cfg) in
  NoDup (map id (table db)) ->
  LexNinjutsu.searchNinjutsuLoops ctx cfg limit keyword db
    = (Ok (count, message), db') ->
  exists merged : list NinjutsuInfo,
    map id merged = mergedKeys ctx keyword L (table db) levels
    /\ (forall row, In row merged ->
          exists level, In level levels
            /\ In row (levelRows ctx level keyword L (table db)))
    /\ count = List.length merged
    /\ message = map (LexNinjutsu.resultItem cfg) (firstn L merged)
    /\ table db' = table db.
Proof.
  intros L levels Hnd Hrun.
  unfold LexNinjutsu.searchNinjutsuLoops in Hrun. fold L levels in Hrun.
  unfold newObject in Hrun. cbn [List.length app] in Hrun. unfold bind in Hrun.
  destruct (LexNinjutsu.collectLevels ctx levels keyword L [mkObject [] None] 0 db)
    as [[h'|e] db1] eqn:Hc; [|discriminate Hrun].
  apply (collectLevels_ok ctx keyword L levels [[]] db h' db1) in Hc;
    [|discriminate].
  destruct Hc as [-> Ht]. cbn [app] in Hrun.
  destruct (render_merged keyword L (table db) levels Hnd)
    as (merged & Hids & Hrows & Hrender).
  rewrite Hrender in Hrun. inversion Hrun; subst.
  exists merged. repeat split; try assumption; reflexivity.
Qed.

(** A search returns exactly when the pattern of every level gives a
    regular expression; otherwise [new RegExp] throws. *)
Lemma searchNinjutsuLoops_returns (limit : option nat) (keyword : jsstring)
    (db : Database) :
  NoDup (map id (table db)) ->
  (forall level, In level (levelsUpTo (matchLevel cfg)) ->
     newRegExp (lit ".*" ++ keyOf ctx level keyword ++ lit ".*") <> None)
  <-> exists count message db',
        LexNinjutsu.searchNinjutsuLoops ctx cfg limit keyword db
        = (Ok (count, message), db').
Proof.
  intro Hnd. split.
  - intro Hvalid.
    unfold LexNinjutsu.searchNinjutsuLoops.
    set (L := LexNinjutsu.limitOrDefault cfg limit).
    set (levels := levelsUpTo (matchLevel cfg)) in *.
    unfold newObject. cbn [List.length app]. unfold bind.
    destruct (collectLevels_total ctx keyword L levels [[]] db) as (h' & db1 & Hc).
    { discriminate. }
    { exact Hvalid. }
    cbn [List.length Nat.sub chain] in Hc. rewrite Hc.
    apply (collectLevels_ok ctx keyword L levels [[]] db h' db1) in Hc;
      [|discriminate].
    destruct Hc as [-> Ht]. cbn [app].
    destruct (render_merged keyword L (table db) levels Hnd)
      as (merged & _ & _ & Hrender).
    rewrite Hrender. eexists. eexists. eexists. reflexivity.
  - intros (count & message & db' & Hrun) level Hlevel Hnone.
    unfold LexNinjutsu.searchNinjutsuLoops in Hrun.
    unfold newObject in Hrun. cbn [List.length app] in Hrun. unfold bind in Hrun.
    destruct (collectLevels_throws ctx keyword (LexNinjutsu.limitOrDefault cfg limit)
                (levelsUpTo (matchLevel cfg)) [mkObject [] None] 0%nat db)
      as [db1 Hthrow].
    { exists level. split; assumption. }
    rewrite Hthrow in Hrun. discriminate Hrun.
Qed.

Lemma searchNinjutsu_returns (limit : option nat) (keyword : jsstring)
    (db : Database) :
  (exists msg db', LexNinjutsu.searchNinjutsu ctx cfg limit keyword db = (Ok msg, db'))
  <-> exists count message db',
        LexNinjutsu.searchNinjutsuLoops ctx cfg limit keyword db
        = (Ok (count, message), db').
Proof.
  unfold LexNinjutsu.searchNinjutsu, bind.
  destruct (LexNinjutsu.searchNinjutsuLoops ctx cfg limit keyword db)
    as [[[count message]|e] db1].
  - split; intros _.
    + exists count, message, db1. reflexivity.
    + destruct (Nat.eqb count 0); eexists; eexists; reflexivity.
  - split.
    + intros (msg & db' & H). discriminate H.
    + intros (c & m & db' & H). discriminate H.
Qed.

(** A search whose keys have no syntax character does not throw. *)
Lemma searchNinjutsuLoops_total (limit : option nat) (keyword : jsstring)
    (db : Database) :
  NoDup (map id (table db)) ->
  (forall level, In level (levelsUpTo (matchLevel cfg)) ->
     plainKeyword (keyOf ctx level keyword) = true) ->
  exists count message db',
    LexNinjutsu.searchNinjutsuLoops ctx cfg limit keyword db
    = (Ok (count, message), db').
Proof.
  intros Hnd Hplain.
  apply (searchNinjutsuLoops_returns limit keyword db Hnd).
  intros level Hl. rewrite (newRegExp_plain _ (Hplain level Hl)). discriminate.
Qed.

End Search.

Lemma mergeKeys_length (L : nat) (kss : list (list N)) :
  forall visited,
    (forall ks, In ks kss -> (List.length ks <= L)%nat) ->
    (List.length (mergeKeys visited kss) <= List.length kss * L)%nat.
Proof.
  induction kss as [|ks kss IH]; intros visited H; cbn [mergeKeys List.length].
  - cbn. lia.
  - rewrite length_app.
    pose proof (filter_length_le (fun k => negb (seen visited k)) ks) as H1.
    pose proof (H ks (or_introl eq_refl)) as H2.
    pose proof (IH (visited ++ ks) (fun ks' Hks' => H ks' (or_intror Hks'))) as H3.
    cbn. lia.
Qed.

Section SearchClaims.
Context {rt : JSRuntime}.
Variable ctx : KoishiContext.
Variable cfg : Config.

Lemma mergedKeys_NoDup (keyword : jsstring) (L : nat) (tbl : list NinjutsuInfo)
    (levels : list MatchLevel) :
  NoDup (map id tbl) -> NoDup (mergedKeys ctx keyword L tbl levels).
Proof.
  intro Hnd. unfold mergedKeys. apply mergeKeys_NoDup.
  intros ks Hks. apply in_map_iff in Hks. destruct Hks as [level [<- _]].
  apply orderKeys_NoDup. unfold levelIds. apply levelRows_NoDup, Hnd.
Qed.

Lemma mergedKeys_in (keyword : jsstring) (L : nat) (tbl : list NinjutsuInfo)
    (levels : list MatchLevel) (k : N) :
  In k (mergedKeys ctx keyword L tbl levels)
  <-> exists level, In level levels /\ In k (levelIds ctx keyword L tbl level).
Proof.
  unfold mergedKeys. rewrite mergeKeys_in. split.
  - intros [_ [ks [Hks Hk]]]. apply in_map_iff in Hks.
    destruct Hks as [level [<- Hlevel]]. exists level.
    split; [exact Hlevel|]. apply (proj1 (orderKeys_in _ _) Hk).
  - intros [level [Hlevel Hk]]. split; [intros []|].
    exists (orderKeys (levelIds ctx keyword L tbl level)). split.
    + apply in_map_iff. exists level. split; [reflexivity|exact Hlevel].
    + apply (proj2 (orderKeys_in _ _) Hk).
Qed.

Lemma mergedKeys_before (keyword : jsstring) (L : nat) (tbl : list NinjutsuInfo)
    (levels : list MatchLevel) (a b : N) :
  let ids := levelIds ctx keyword L tbl in
  NoDup (map id tbl) ->
  before (mergedKeys ctx keyword L tbl levels) a b ->
  (firstIndex a (map ids levels) <= firstIndex b (map ids levels))%nat
  /\ (firstIndex a (map ids levels) = firstIndex b (map ids levels) ->
      (isArrayIndex a = true -> isArrayIndex b = true -> a < b)
      /\ (isArrayIndex b = true -> isArrayIndex a = true)
      /\ (isArrayIndex a = false -> isArrayIndex b = false ->
          exists level, In level levels /\ before (ids level) a b)).
Proof.
  intros ids Hnd H. unfold mergedKeys in H. fold ids in H.
  replace (map (fun level => orderKeys (ids level)) levels)
    with (map orderKeys (map ids levels)) in H by apply map_map.
  apply mergeKeys_before in H. rewrite !firstIndex_orderKeys in H.
  destruct H as [Hle Heq]. split; [exact Hle|].
  intro E. destruct (Heq E) as [ks [Hnth Hbef]].
  apply nth_error_In in Hnth. rewrite map_map in Hnth.
  apply in_map_iff in Hnth. destruct Hnth as [level [<- Hlevel]].
  assert (Hids : NoDup (ids level))
    by (unfold ids, levelIds; apply levelRows_NoDup, Hnd).
  destruct (orderKeys_before _ _ _ Hids Hbef) as (H1 & H2 & H3).
  split; [exact H1|]. split; [exact H2|].
  intros Ha Hb. exists level. split; [exact Hlevel|apply H3; assumption].
Qed.


End SearchClaims.

Lemma fireStyles_distinct_ids : NoDup (map id (table fireStyles)).
Proof. cbn. repeat constructor; cbn; intuition discriminate. Qed.

Lemma fireStyles_plain_keys (level : MatchLevel) :
  In level (levelsUpTo Normal) ->
  plainKeyword (@keyOf asciiRuntime withoutPinyin level (lit "Fire")) = true.
Proof. intros [<-|[<-|[]]]; reflexivity. Qed.





(* ===================================================================== *)
(** * Further properties of the resolver *)
(* ===================================================================== *)

Lemma Ok_inj {A : Type} (a b : A) : Ok a = Ok b -> a = b.
Proof. congruence. Qed.

Section ResolverFacts.
Context {rt : JSRuntime}.
Variable ctx : KoishiContext.

Lemma resolve_some (levels : list MatchLevel) (query : jsstring)
    (tbl : list NinjutsuInfo) (row : NinjutsuInfo) :
  resolve ctx levels query tbl = Some row ->
  exists level, In level levels /\ In row (exactRows ctx level query tbl).
Proof.
  induction levels as [|l levels IH]; cbn [resolve]; [discriminate|].
  destruct (exactRows ctx l query tbl) as [|first rest] eqn:E.
  - intro H. destruct (IH H) as [level [Hl Hrow]].
    exists level. split; [right; exact Hl|exact Hrow].
  - intro H. injection H as <-. exists l. split; [left; reflexivity|].
    rewrite E. left. reflexivity.
Qed.

Lemma resolve_none (levels : list MatchLevel) (query : jsstring)
    (tbl : list NinjutsuInfo) :
  resolve ctx levels query tbl = None
  <-> forall level, In level levels -> exactRows ctx level query tbl = [].
Proof.
  induction levels as [|l levels IH]; cbn [resolve].
  - split; [intros _ level []|reflexivity].
  - destruct (exactRows ctx l query tbl) as [|first rest] eqn:E.
    + rewrite IH. split.
      * intros H level [<-|Hl]; [exact E|apply H, Hl].
      * intros H level Hl. apply H. right. exact Hl.
    + split; [discriminate|]. intro H.
      rewrite (H l (or_introl eq_refl)) in E. discriminate E.
Qed.

Lemma resolve_app (l1 l2 : list MatchLevel) (query : jsstring)
    (tbl : list NinjutsuInfo) :
  resolve ctx (l1 ++ l2) query tbl
  = match resolve ctx l1 query tbl with
    | Some row => Some row
    | None => resolve ctx l2 query tbl
    end.
Proof.
  induction l1 as [|l l1 IH]; cbn [app resolve]; [reflexivity|].
  destruct (exactRows ctx l query tbl); [exact IH|reflexivity].
Qed.

Lemma exactRows_in (level : MatchLevel) (query : jsstring)
    (tbl : list NinjutsuInfo) (row : NinjutsuInfo) :
  In row (exactRows ctx level query tbl)
  <-> In row tbl /\ column (columnOf ctx level) row = keyOf ctx level query.
Proof. unfold exactRows. rewrite filter_In, jsstring_eqb_eq. reflexivity. Qed.

Lemma exactRows_empty (level : MatchLevel) (query : jsstring)
    (tbl : list NinjutsuInfo) :
  exactRows ctx level query tbl = []
  <-> forall row, In row tbl ->
        column (columnOf ctx level) row <> keyOf ctx level query.
Proof.
  split.
  - intros E row Hrow Hcol.
    assert (H : In row (exactRows ctx level query tbl))
      by (apply exactRows_in; split; assumption).
    rewrite E in H. destruct H.
  - intro H. destruct (exactRows ctx level query tbl) as [|row rest] eqn:E;
      [reflexivity|].
    assert (Hin : In row (exactRows ctx level query tbl))
      by (rewrite E; left; reflexivity).
    apply exactRows_in in Hin. destruct Hin as [Hrow Hcol].
    contradiction (H row Hrow Hcol).
Qed.

Lemma levelsUpTo_head (m : MatchLevel) :
  exists later, levelsUpTo m = Strict :: later.
Proof. destruct m; eexists; reflexivity. Qed.

Lemma levelsUpTo_length (m : MatchLevel) :
  List.length (levelsUpTo m) = S (levelValue m).
Proof. destruct m; reflexivity. Qed.

Lemma levelsUpTo_prefix (m1 m2 : MatchLevel) :
  (levelValue m1 <= levelValue m2)%nat ->
  exists extra, levelsUpTo m2 = levelsUpTo m1 ++ extra.
Proof.
  destruct m1, m2; cbn; intro H; try lia;
    first [ exists []; reflexivity
          | exists [Normal]; reflexivity
          | exists [Normal; Homophone]; reflexivity
          | exists [Homophone]; reflexivity ].
Qed.

(** X1.  A row returned by [tryGetNinjutsu] is a row of the table whose
    column equals the key, by exact equality, at one of the levels tried;
    with the level set to Strict its name is the query itself. *)
Theorem tryGetNinjutsu_hit_is_exact_match (cfg : Config) (query : jsstring)
    (db : Database) (row : NinjutsuInfo) :
  fst (LexNinjutsu.tryGetNinjutsu ctx cfg query db) = Ok (Some row) ->
  In row (table db)
  /\ (exists level,
        In level (levelsUpTo (matchLevel cfg))
        /\ column (columnOf ctx level) row = keyOf ctx level query)
  /\ (matchLevel cfg = Strict -> name row = query).
Proof.
  unfold LexNinjutsu.tryGetNinjutsu.
  rewrite (proj1 (tryGetNinjutsuFrom_resolve ctx query _ db)).
  intro H. apply Ok_inj in H.
  destruct (resolve_some _ _ _ _ H) as [level [Hl Hrow]].
  apply exactRows_in in Hrow. destruct Hrow as [Hrow Hcol].
  split; [exact Hrow|]. split.
  - exists level. split; assumption.
  - intro Hs. rewrite Hs in Hl. destruct Hl as [<-|[]]. exact Hcol.
Qed.

(** X2.  [tryGetNinjutsu] returns nothing exactly when no row of the table
    equals the key at any of the levels tried: a row that matches at some
    level is never missed. *)
Theorem tryGetNinjutsu_misses_only_without_match (cfg : Config)
    (query : jsstring) (db : Database) :
  fst (LexNinjutsu.tryGetNinjutsu ctx cfg query db) = Ok None
  <-> forall level row,
        In level (levelsUpTo (matchLevel cfg)) ->
        In row (table db) ->
        column (columnOf ctx level) row <> keyOf ctx level query.
Proof.
  unfold LexNinjutsu.tryGetNinjutsu.
  rewrite (proj1 (tryGetNinjutsuFrom_resolve ctx query _ db)).
  split.
  - intro H. apply Ok_inj in H. intros level row Hl.
    apply exactRows_empty. apply (proj1 (resolve_none _ _ _) H level Hl).
  - intro H. f_equal. apply resolve_none. intros level Hl.
    apply exactRows_empty. intros row Hrow. apply (H level row Hl Hrow).
Qed.

Lemma tryGetNinjutsuFrom_only_reads (query : jsstring) (levels : list MatchLevel) :
  forall db,
    exists found qs,
      LexNinjutsu.tryGetNinjutsuFrom ctx levels query db
      = (Ok found, mkDatabase (table db) (journal db ++ qs))
      /\ (List.length qs <= List.length levels)%nat
      /\ (levels <> [] -> 1 <= List.length qs)%nat
      /\ Forall (fun q => exists p v, q = SelectEq p v) qs.
Proof.
  induction levels as [|l levels IH]; intro db.
  - exists None, []. cbn. rewrite app_nil_r. destruct db.
    repeat split; [lia|congruence|constructor].
  - cbn [LexNinjutsu.tryGetNinjutsuFrom]. unfold bind.
    rewrite tryGetNinjutsuAtLevel_run.
    destruct (exactRows ctx l query (table db)) as [|first rest]; cbn [hd_error].
    + destruct (IH (journalled (exactQuery ctx query l) db))
        as (found & qs & Hrun & Hlen & _ & Hall).
      exists found, (exactQuery ctx query l :: qs).
      rewrite Hrun, journalled_twice.
      repeat split; cbn [List.length]; try lia.
      constructor; [|exact Hall]. unfold exactQuery. eexists. eexists. reflexivity.
    + exists (Some first), [exactQuery ctx query l].
      repeat split; cbn [List.length]; try lia.
      constructor; [|constructor]. unfold exactQuery. eexists. eexists. reflexivity.
Qed.

(** X3.  [tryGetNinjutsu] asked for a string never writes: it leaves the
    table as it was, and the only requests it sends are equality
    selections, at least one and at most one per level up to the configured
    one (so at most three). *)
Theorem tryGetNinjutsu_only_reads (cfg : Config) (query : jsstring)
    (db : Database) :
  exists qs,
    snd (LexNinjutsu.tryGetNinjutsu ctx cfg query db)
    = mkDatabase (table db) (journal db ++ qs)
    /\ (1 <= List.length qs <= S (levelValue (matchLevel cfg)))%nat
    /\ (List.length qs <= 3)%nat
    /\ Forall (fun q => exists p v, q = SelectEq p v) qs.
Proof.
  unfold LexNinjutsu.tryGetNinjutsu.
  destruct (tryGetNinjutsuFrom_only_reads query (levelsUpTo (matchLevel cfg)) db)
    as (found & qs & Hrun & Hlen & Hone & Hall).
  exists qs. rewrite levelsUpTo_length in Hlen.
  split; [rewrite Hrun; reflexivity|]. split; [|split; [|exact Hall]].
  - split; [|exact Hlen]. apply Hone.
    destruct (levelsUpTo_head (matchLevel cfg)) as [later ->]. discriminate.
  - destruct (matchLevel cfg); cbn in Hlen; lia.
Qed.

(** X4.  Raising the configured level never changes a hit: what is found
    with a lower level is found, the same row, with any higher level. *)
Theorem tryGetNinjutsu_hit_survives_higher_level (cfg1 cfg2 : Config)
    (query : jsstring) (db : Database) (row : NinjutsuInfo) :
  (levelValue (matchLevel cfg1) <= levelValue (matchLevel cfg2))%nat ->
  fst (LexNinjutsu.tryGetNinjutsu ctx cfg1 query db) = Ok (Some row) ->
  fst (LexNinjutsu.tryGetNinjutsu ctx cfg2 query db) = Ok (Some row).
Proof.
  intros Hle. unfold LexNinjutsu.tryGetNinjutsu.
  rewrite !(proj1 (tryGetNinjutsuFrom_resolve ctx query _ db)).
  destruct (levelsUpTo_prefix _ _ Hle) as [extra ->].
  intro H. apply Ok_inj in H. rewrite resolve_app, H. reflexivity.
Qed.

Lemma IndexTsx_homophone_with_service (service : PinyinService)
    (query : jsstring) (db : Database) :
  pinyin ctx = Some service ->
  IndexTsx.tryGetNinjutsuAtLevel ctx query Homophone db
  = LexNinjutsu.tryGetNinjutsuAtLevel ctx query Homophone db.
Proof.
  intro Hp. unfold IndexTsx.tryGetNinjutsuAtLevel, LexNinjutsu.tryGetNinjutsuAtLevel,
    LexNinjutsu.getMatchInfo. rewrite Hp. reflexivity.
Qed.

Lemma IndexTsx_from_with_service (service : PinyinService) (query : jsstring)
    (levels : list MatchLevel) :
  pinyin ctx = Some service ->
  forall db,
    IndexTsx.tryGetNinjutsuFrom ctx levels query db
    = LexNinjutsu.tryGetNinjutsuFrom ctx levels query db.
Proof.
  intro Hp. induction levels as [|l levels IH]; intro db; [reflexivity|].
  cbn [IndexTsx.tryGetNinjutsuFrom LexNinjutsu.tryGetNinjutsuFrom]. unfold bind.
  assert (E : IndexTsx.tryGetNinjutsuAtLevel ctx query l db
              = LexNinjutsu.tryGetNinjutsuAtLevel ctx query l db).
  { destruct l; [apply IndexTsx_other_levels; discriminate
                |apply IndexTsx_other_levels; discriminate
                |apply (IndexTsx_homophone_with_service service); exact Hp]. }
  rewrite E.
  destruct (LexNinjutsu.tryGetNinjutsuAtLevel ctx query l db) as [[[found|]|e] db1];
    [reflexivity|apply IH|reflexivity].
Qed.

(** The two resolvers compared. *)
Lemma IndexTsx_tryGetNinjutsu_result (cfg : Config) (query : jsstring) (db : Database) :
  fst (IndexTsx.tryGetNinjutsu ctx cfg query db)
  = fst (LexNinjutsu.tryGetNinjutsu ctx cfg query db)
  /\ table (snd (IndexTsx.tryGetNinjutsu ctx cfg query db)) = table db
  /\ table (snd (LexNinjutsu.tryGetNinjutsu ctx cfg query db)) = table db.
Proof.
  assert (Hlex : table (snd (LexNinjutsu.tryGetNinjutsu ctx cfg query db)) = table db)
    by apply tryGetNinjutsuFrom_resolve.
  destruct (pinyin ctx) as [service|] eqn:Hp.
  - unfold IndexTsx.tryGetNinjutsu.
    rewrite (IndexTsx_from_with_service service query _ Hp db).
    fold (LexNinjutsu.tryGetNinjutsu ctx cfg query db).
    split; [reflexivity|]. split; exact Hlex.
  - split; [|split; [|exact Hlex]];
    unfold IndexTsx.tryGetNinjutsu, LexNinjutsu.tryGetNinjutsu;
    destruct (matchLevel cfg);
    cbn [levelsUpTo filter levelValue Nat.leb IndexTsx.tryGetNinjutsuFrom
         LexNinjutsu.tryGetNinjutsuFrom];
    unfold bind;
    rewrite ?(IndexTsx_other_levels ctx query Strict) by discriminate;
    rewrite ?tryGetNinjutsuAtLevel_run;
    destruct (exactRows ctx Strict query (table db)); cbn [hd_error fst snd];
    try reflexivity;
    rewrite ?(IndexTsx_other_levels ctx query Normal) by discriminate;
    rewrite ?tryGetNinjutsuAtLevel_run;
    cbn [table journalled];
    try (destruct (exactRows ctx Normal query (table db)) eqn:EN;
         cbn [hd_error fst snd]; try reflexivity;
         rewrite ?(IndexTsx_homophone_without_service ctx query _ Hp);
         rewrite ?tryGetNinjutsuAtLevel_run; cbn [table journalled fst snd];
         try reflexivity;
         assert (EH : exactRows ctx Homophone query (table db)
                      = exactRows ctx Normal query (table db))
           by (unfold exactRows, keyOf, columnOf;
               rewrite (proj1 (getMatchInfo_downgrade ctx Hp)); reflexivity);
         rewrite EH, EN; reflexivity).
Qed.

(** X5.  The resolver of [src/index.tsx] and the resolver of the plugin
    return the same result for every context, configuration, query and
    table, although they do not send the same queries when the service is
    missing; neither changes the table. *)
Theorem resolvers_agree (cfg : Config) (query : jsstring) (db : Database) :
  fst (IndexTsx.tryGetNinjutsu ctx cfg query db)
  = fst (LexNinjutsu.tryGetNinjutsu ctx cfg query db)
  /\ table (snd (IndexTsx.tryGetNinjutsu ctx cfg query db)) = table db
  /\ table (snd (LexNinjutsu.tryGetNinjutsu ctx cfg query db)) = table db.
Proof.
  destruct (IndexTsx_tryGetNinjutsu_result cfg query db) as (H1 & H2 & H3).
  split; [exact H1|]. split; [exact H2|exact H3].
Qed.
End ResolverFacts.

(* ===================================================================== *)
(** * Further properties of removePunctuation *)
(* ===================================================================== *)

Lemma removePunctuation_single (u : N) (x : jsstring) :
  isLeadSurrogate u = false ->
  removePunctuation (u :: x)
  = if matchesPSZ u then removePunctuation x else u :: removePunctuation x.
Proof.
  intro Hu. destruct x as [|l t]; cbn [removePunctuation].
  - reflexivity.
  - rewrite Hu. reflexivity.
Qed.

Lemma removePunctuation_pair (u l : N) (x : jsstring) :
  isLeadSurrogate u && isTrailSurrogate l = true ->
  removePunctuation (u :: l :: x)
  = if matchesPSZ (pairCodePoint u l)
    then removePunctuation x
    else u :: l :: removePunctuation x.
Proof. intro H. cbn [removePunctuation]. rewrite H. reflexivity. Qed.

Lemma wellFormed_single (u : N) (x : jsstring) :
  isLeadSurrogate u = false ->
  wellFormed (u :: x) = negb (isTrailSurrogate u) && wellFormed x.
Proof.
  intro Hu. destruct x as [|l t]; cbn [wellFormed]; rewrite Hu; cbn [negb andb].
  - rewrite andb_true_r. reflexivity.
  - reflexivity.
Qed.

Lemma wellFormed_pair (u l : N) (x : jsstring) :
  isLeadSurrogate u && isTrailSurrogate l = true ->
  wellFormed (u :: l :: x) = wellFormed x.
Proof. intro H. cbn [wellFormed]. rewrite H. reflexivity. Qed.

Lemma wellFormed_two (u l : N) (t : jsstring) :
  wellFormed (u :: l :: t)
  = if isLeadSurrogate u && isTrailSurrogate l then wellFormed t
    else negb (isLeadSurrogate u) && negb (isTrailSurrogate u)
         && wellFormed (l :: t).
Proof. reflexivity. Qed.

Lemma removePunctuation_two (u l : N) (t : jsstring) :
  removePunctuation (u :: l :: t)
  = if isLeadSurrogate u && isTrailSurrogate l
    then if matchesPSZ (pairCodePoint u l)
         then removePunctuation t
         else u :: l :: removePunctuation t
    else if matchesPSZ u
         then removePunctuation (l :: t)
         else u :: removePunctuation (l :: t).
Proof. reflexivity. Qed.

Lemma lead_is_not_trail (u : N) :
  isLeadSurrogate u = true -> isTrailSurrogate u = false.
Proof.
  unfold isLeadSurrogate, isTrailSurrogate. intro H.
  apply andb_true_iff in H. destruct H as [_ H]. apply N.leb_le in H.
  apply andb_false_iff. left. apply N.leb_gt. lia.
Qed.

Lemma removePunctuation_wellFormed_idempotent (s : jsstring) :
  wellFormed s = true ->
  wellFormed (removePunctuation s) = true
  /\ removePunctuation (removePunctuation s) = removePunctuation s.
Proof.
  induction s as [|u|u l t IHt IHlt] using jsstring_pair_ind; intro Hwf.
  - split; reflexivity.
  - cbn [wellFormed] in Hwf. cbn [removePunctuation].
    destruct (matchesPSZ u) eqn:E; [split; reflexivity|].
    split; [exact Hwf|]. cbn [removePunctuation]. rewrite E. reflexivity.
  - rewrite wellFormed_two in Hwf. rewrite removePunctuation_two.
    destruct (isLeadSurrogate u && isTrailSurrogate l) eqn:Hpair.
    + destruct (IHt Hwf) as [Hw Hi].
      destruct (matchesPSZ (pairCodePoint u l)) eqn:E; [split; assumption|].
      rewrite (wellFormed_pair _ _ _ Hpair), (removePunctuation_pair _ _ _ Hpair).
      rewrite E, Hi. split; [exact Hw|reflexivity].
    + apply andb_true_iff in Hwf. destruct Hwf as [Hu Hwf].
      apply andb_true_iff in Hu. destruct Hu as [Hlead Htrail].
      apply negb_true_iff in Hlead.
      destruct (IHlt Hwf) as [Hw Hi].
      destruct (matchesPSZ u) eqn:E; [split; assumption|].
      rewrite (wellFormed_single _ _ Hlead), (removePunctuation_single _ _ Hlead).
      rewrite E, Hi, Htrail, Hw. split; reflexivity.
Qed.

Lemma removePunctuation_app (a b : jsstring) :
  wellFormed a = true ->
  removePunctuation (a ++ b) = removePunctuation a ++ removePunctuation b.
Proof.
  induction a as [|u|u l t IHt IHlt] using jsstring_pair_ind; intro Hwf.
  - reflexivity.
  - cbn [wellFormed] in Hwf. apply andb_true_iff in Hwf.
    destruct Hwf as [Hlead _]. apply negb_true_iff in Hlead.
    cbn [app]. rewrite (removePunctuation_single _ _ Hlead).
    cbn [removePunctuation]. destruct (matchesPSZ u); reflexivity.
  - rewrite wellFormed_two in Hwf.
    change ((u :: l :: t) ++ b) with (u :: l :: (t ++ b)).
    rewrite !removePunctuation_two.
    destruct (isLeadSurrogate u && isTrailSurrogate l) eqn:Hpair.
    + rewrite (IHt Hwf).
      destruct (matchesPSZ (pairCodePoint u l)); reflexivity.
    + apply andb_true_iff in Hwf. destruct Hwf as [_ Hwf].
      change (l :: t ++ b) with ((l :: t) ++ b). rewrite (IHlt Hwf).
      destruct (matchesPSZ u); reflexivity.
Qed.

Lemma wellFormed_head (h : N) (x : jsstring) :
  wellFormed (h :: x) = true -> isTrailSurrogate h = false.
Proof.
  destruct x as [|l t]; cbn [wellFormed].
  - intro H. apply andb_true_iff in H. destruct H as [_ H].
    apply negb_true_iff in H. exact H.
  - destruct (isLeadSurrogate h && isTrailSurrogate l) eqn:Hpair.
    + intros _. apply andb_true_iff in Hpair. apply lead_is_not_trail. tauto.
    + intro H. apply andb_true_iff in H. destruct H as [H _].
      apply andb_true_iff in H. destruct H as [_ H].
      apply negb_true_iff in H. exact H.
Qed.

(** A well-formed string cut in front of a unit that is not a trail
    surrogate gives two well-formed strings. *)
Lemma wellFormed_app_inv (a : jsstring) (h : N) (r : jsstring) :
  isTrailSurrogate h = false ->
  wellFormed (a ++ h :: r) = true ->
  wellFormed a = true /\ wellFormed (h :: r) = true.
Proof.
  intro Hh.
  induction a as [|u|u l t IHt IHlt] using jsstring_pair_ind; intro Hwf.
  - split; [reflexivity|exact Hwf].
  - cbn [app] in Hwf. rewrite wellFormed_two in Hwf.
    rewrite Hh, andb_false_r in Hwf.
    apply andb_true_iff in Hwf. destruct Hwf as [Hu Hr].
    split; [exact Hu|exact Hr].
  - change ((u :: l :: t) ++ h :: r) with (u :: l :: (t ++ h :: r)) in Hwf.
    rewrite wellFormed_two in Hwf |- *.
    destruct (isLeadSurrogate u && isTrailSurrogate l).
    + apply IHt, Hwf.
    + apply andb_true_iff in Hwf. destruct Hwf as [Hu Hwf].
      change (l :: t ++ h :: r) with ((l :: t) ++ h :: r) in Hwf.
      destruct (IHlt Hwf) as [H1 H2]. rewrite Hu, H1. split; [reflexivity|exact H2].
Qed.

Lemma startsWith_app (k v : jsstring) : startsWith k (k ++ v) = true.
Proof.
  induction k as [|c k IH]; cbn; [reflexivity|].
  rewrite N.eqb_refl. exact IH.
Qed.

Lemma startsWith_split (k s : jsstring) :
  startsWith k s = true -> exists v, s = k ++ v.
Proof.
  revert s. induction k as [|c k IH]; intros s H.
  - exists s. reflexivity.
  - destruct s as [|u s]; [discriminate H|]. cbn in H.
    apply andb_true_iff in H. destruct H as [E H]. apply N.eqb_eq in E.
    destruct (IH s H) as [v ->]. exists v. rewrite E. reflexivity.
Qed.

Lemma includes_app (k u v : jsstring) : includes k (u ++ k ++ v) = true.
Proof.
  induction u as [|c u IH]; cbn [app].
  - destruct (k ++ v) eqn:E; cbn [includes]; rewrite <- E, startsWith_app;
      reflexivity.
  - cbn [includes]. rewrite IH. apply orb_true_r.
Qed.

Lemma includes_split (k s : jsstring) :
  includes k s = true -> exists u v, s = u ++ k ++ v.
Proof.
  induction s as [|c s IH]; cbn [includes]; intro H.
  - rewrite orb_false_r in H. apply startsWith_split in H.
    destruct H as [v Hv]. exists [], v. exact Hv.
  - apply orb_true_iff in H. destruct H as [H|H].
    + apply startsWith_split in H. destruct H as [v Hv]. exists [], v. exact Hv.
    + destruct (IH H) as (u & v & ->). exists (c :: u), v. reflexivity.
Qed.

(** For strings without lone surrogates, a keyword found in a name is still
    found after both are normalized. *)
Lemma includes_removePunctuation (k s : jsstring) :
  wellFormed k = true ->
  wellFormed s = true ->
  includes k s = true ->
  includes (removePunctuation k) (removePunctuation s) = true.
Proof.
  intros Hk Hs H. destruct (includes_split _ _ H) as (u & v & ->).
  destruct k as [|h k].
  - cbn [removePunctuation]. destruct (removePunctuation (u ++ [] ++ v));
      reflexivity.
  - cbn [app] in Hs.
    destruct (wellFormed_app_inv u h (k ++ v) (wellFormed_head _ _ Hk) Hs)
      as [Hu _].
    rewrite (removePunctuation_app u _ Hu).
    change (h :: k ++ v) with ((h :: k) ++ v).
    rewrite (removePunctuation_app (h :: k) v Hk).
    apply includes_app.
Qed.

(** X6.  On a string without lone surrogates [removePunctuation] is
    idempotent, and its result has no lone surrogate either: a stored
    normalized name is its own normalization. *)
Theorem removePunctuation_idempotent (s : jsstring) :
  wellFormed s = true ->
  wellFormed (removePunctuation s) = true
  /\ removePunctuation (removePunctuation s) = removePunctuation s.
Proof. apply removePunctuation_wellFormed_idempotent. Qed.

Lemma removePunctuation_idempotent_witness :
  wellFormed (lit "Fire Style!") = true
  /\ removePunctuation (removePunctuation (lit "Fire Style!"))
     = removePunctuation (lit "Fire Style!").
Proof.
  split; [reflexivity|].
  apply (removePunctuation_idempotent (lit "Fire Style!")). reflexivity.
Defined.

(** X7.  [removePunctuation] goes through concatenation when the left part
    has no lone surrogate: normalizing [a ++ b] gives the normalization of
    [a] followed by that of [b]. *)
Theorem removePunctuation_concat (a b : jsstring) :
  wellFormed a = true ->
  removePunctuation (a ++ b) = removePunctuation a ++ removePunctuation b.
Proof. apply removePunctuation_app. Qed.

Lemma removePunctuation_concat_witness :
  removePunctuation (lit "Fire-" ++ lit "Style!")
  = removePunctuation (lit "Fire-") ++ removePunctuation (lit "Style!").
Proof. apply removePunctuation_concat. reflexivity. Defined.

(** Without the hypothesis the law fails: a lead and a trail surrogate kept
    on both sides of a deleted mark join into an emoji, which a second pass
    deletes. *)
Example removePunctuation_joins_lone_surrogates :
  removePunctuation [0xD83D; 33; 0xDE00] = [0xD83D; 0xDE00]
  /\ removePunctuation [0xD83D; 0xDE00] = [].
Proof. split; vm_compute; reflexivity. Qed.

(* ===================================================================== *)
(** * Further properties of the search *)
(* ===================================================================== *)

Section SearchFacts.
Context {rt : JSRuntime}.
Variable ctx : KoishiContext.

Lemma keyOf_normal (keyword : jsstring) :
  keyOf ctx Normal keyword = removePunctuation keyword
  /\ columnOf ctx Normal = P_nameNoPunctuation.
Proof.
  unfold keyOf, columnOf, LexNinjutsu.getMatchInfo.
  destruct (pinyin ctx); split; reflexivity.
Qed.

(** X8.  At the Normal level the search query never throws, whatever the
    keyword: the normalized keyword has no pattern syntax left, and the
    query answers with the first [limit] rows, in store order, whose
    normalized name contains the normalized keyword. *)
Theorem searchNinjutsuAtLevel_normal_is_substring (keyword : jsstring)
    (limit : nat) (db : Database) :
  LexNinjutsu.searchNinjutsuAtLevel ctx keyword limit Normal db
  = (Ok (firstn limit
           (filter (fun row => includes (removePunctuation keyword)
                                        (nameNoPunctuation row))
                   (table db))),
     journalled (SelectRegex P_nameNoPunctuation
                   (lit ".*" ++ removePunctuation keyword ++ lit ".*") limit) db).
Proof.
  rewrite searchNinjutsuAtLevel_run.
  pose proof (keyOf_normal_plain ctx keyword) as Hplain.
  rewrite (levelRows_plain ctx keyword limit Normal (table db) Hplain).
  rewrite (newRegExp_plain _ Hplain). unfold substringRows.
  destruct (keyOf_normal keyword) as [-> ->]. reflexivity.
Qed.

(** X9.  When the key of a level has no pattern syntax character, the
    level's query does not throw and answers with the first [limit] rows, in
    store order, whose column contains the key as a run of units: at most
    [limit] rows, all of them matching rows of the table, and all the
    matching rows when there are no more than [limit]. *)
Theorem searchNinjutsuAtLevel_plain_is_substring (keyword : jsstring)
    (limit : nat) (level : MatchLevel) (db : Database) :
  plainKeyword (keyOf ctx level keyword) = true ->
  exists rows,
    fst (LexNinjutsu.searchNinjutsuAtLevel ctx keyword limit level db) = Ok rows
    /\ rows = firstn limit (substringRows ctx level keyword (table db))
    /\ (List.length rows <= limit)%nat
    /\ (forall row, In row rows ->
          In row (table db)
          /\ includes (keyOf ctx level keyword) (column (columnOf ctx level) row) = true)
    /\ ((List.length (substringRows ctx level keyword (table db)) <= limit)%nat ->
        rows = substringRows ctx level keyword (table db)).
Proof.
  intro Hplain.
  destruct (searchNinjutsuAtLevel_plain ctx keyword limit level db Hplain) as [Hrun _].
  exists (firstn limit (substringRows ctx level keyword (table db))).
  split; [exact Hrun|]. split; [reflexivity|]. split; [|split].
  - rewrite length_firstn. lia.
  - intros row Hrow. apply In_firstn in Hrow. unfold substringRows in Hrow.
    apply filter_In in Hrow. exact Hrow.
  - intro Hlen. apply firstn_all2. exact Hlen.
Qed.

Lemma collectLevels_keeps_table (keyword : jsstring) (limit : nat)
    (levels : list MatchLevel) :
  forall h prev db,
    table (snd (LexNinjutsu.collectLevels ctx levels keyword limit h prev db))
    = table db.
Proof.
  induction levels as [|level levels IH]; intros h prev db; [reflexivity|].
  cbn [LexNinjutsu.collectLevels]. unfold bind.
  rewrite searchNinjutsuAtLevel_run.
  destruct (newRegExp _); [|reflexivity].
  unfold newObject. rewrite IH. reflexivity.
Qed.

Variable cfg : Config.

(** X10.  [searchNinjutsu] never writes: whether it answers or throws, the
    table is left as it was. *)
Theorem searchNinjutsu_keeps_table (limit : option nat) (keyword : jsstring)
    (db : Database) :
  table (snd (LexNinjutsu.searchNinjutsu ctx cfg limit keyword db)) = table db.
Proof.
  unfold LexNinjutsu.searchNinjutsu, LexNinjutsu.searchNinjutsuLoops, bind.
  unfold newObject. cbn [List.length app].
  pose proof (collectLevels_keeps_table keyword
                (LexNinjutsu.limitOrDefault cfg limit)
                (levelsUpTo (matchLevel cfg)) [mkObject [] None] 0%nat db) as Ht.
  destruct (LexNinjutsu.collectLevels ctx (levelsUpTo (matchLevel cfg)) keyword
              (LexNinjutsu.limitOrDefault cfg limit) [mkObject [] None] 0 db)
    as [[h|e] db1]; cbn [fst snd] in *; [|exact Ht].
  destruct (LexNinjutsu.renderKeys cfg h 0 (LexNinjutsu.limitOrDefault cfg limit)
              (forIn h 0) 0 []) as [[count message]|e]; cbn [fst snd throw ret].
  - destruct (Nat.eqb count 0); exact Ht.
  - exact Ht.
Qed.

(** X11.  A keyword that begins with [*] makes [ninjutsu.search] throw a
    SyntaxError before any query is sent, whatever the level, the limit and
    the table: the pattern built for the Strict level is [.**...]. *)
Theorem searchNinjutsu_star_keyword_throws (limit : option nat)
    (rest : jsstring) (db : Database) :
  LexNinjutsu.searchNinjutsu ctx cfg limit (c_star :: rest) db
  = (Throw RegExpSyntaxError, db).
Proof.
  unfold LexNinjutsu.searchNinjutsu, LexNinjutsu.searchNinjutsuLoops, bind.
  destruct (levelsUpTo_head (matchLevel cfg)) as [later ->].
  unfold newObject. cbn [List.length app LexNinjutsu.collectLevels]. unfold bind.
  rewrite searchNinjutsuAtLevel_run. reflexivity.
Qed.

(** X12.  What the Strict level finds is always rendered: on a table with
    distinct ids and for a limit that is a natural number, every row the
    Strict query answers with appears among the rendered items of a search
    that returns, whatever the keyword and however many rows the later
    levels add. *)
Theorem searchNinjutsu_renders_every_strict_row (limit : option nat)
    (keyword : jsstring) (db db' : Database) (count : nat)
    (message : list ResultItem) :
  NoDup (map id (table db)) ->
  LexNinjutsu.searchNinjutsuLoops ctx cfg limit keyword db
    = (Ok (count, message), db') ->
  forall row,
    In row (levelRows ctx Strict keyword (LexNinjutsu.limitOrDefault cfg limit)
              (table db)) ->
    In (LexNinjutsu.resultItem cfg row) message.
Proof.
  intros Hnd Hrun row Hrow.
  set (L := LexNinjutsu.limitOrDefault cfg limit) in *.
  destruct (searchNinjutsuLoops_merged ctx cfg limit keyword db _ _ _ Hnd Hrun)
    as (merged & Hids & Hrows & _ & Hmsg & _).
  fold L in Hids, Hrows, Hmsg.
  destruct (levelsUpTo_head (matchLevel cfg)) as [later Hlevels].
  rewrite Hlevels in Hids. unfold mergedKeys in Hids.
  cbn [map mergeKeys app] in Hids.
  set (strict := orderKeys (levelIds ctx keyword L (table db) Strict)) in *.
  assert (Hall : filter (fun k => negb (seen [] k)) strict = strict).
  { clear. induction strict as [|k ks IH]; [reflexivity|].
    cbn [filter]. unfold seen at 1. cbn [existsb negb]. rewrite IH.
    reflexivity. }
  rewrite Hall in Hids.
  assert (Hlen : (List.length strict <= L)%nat).
  { unfold strict. rewrite (Permutation_length (orderKeys_perm _)).
    unfold levelIds. rewrite length_map. apply levelRows_length. }
  assert (Hk : In (id row) (map id (firstn L merged))).
  { rewrite <- firstn_map, Hids, firstn_app.
    apply in_or_app. left. rewrite firstn_all2 by exact Hlen.
    unfold strict. apply orderKeys_in. unfold levelIds. apply in_map. exact Hrow. }
  apply in_map_iff in Hk. destruct Hk as [row' [E Hrow']].
  assert (Heq : row' = row).
  { apply (NoDup_ids_inj (table db) row' row Hnd); [| |exact E].
    - destruct (Hrows row' (In_firstn _ _ _ Hrow')) as [level [_ Hin]].
      apply (levelRows_incl ctx keyword L (table db) level row' Hin).
    - apply (levelRows_incl ctx keyword L (table db) Strict row Hrow). }
  subst row'. rewrite Hmsg. apply in_map. exact Hrow'.
Qed.

(** X13.  On a table with distinct ids, a search that returns, whatever
    its keyword, answers [.no-result] exactly when no level's query has a
    row. *)
Theorem searchNinjutsu_no_result_iff (limit : option nat) (keyword : jsstring)
    (db db' : Database) (msg : SearchMessage) :
  NoDup (map id (table db)) ->
  LexNinjutsu.searchNinjutsu ctx cfg limit keyword db = (Ok msg, db') ->
  (msg = NoResult
   <-> forall level, In level (levelsUpTo (matchLevel cfg)) ->
         levelRows ctx level keyword (LexNinjutsu.limitOrDefault cfg limit)
           (table db) = []).
Proof.
  intros Hnd Hrun.
  unfold LexNinjutsu.searchNinjutsu, bind in Hrun.
  destruct (LexNinjutsu.searchNinjutsuLoops ctx cfg limit keyword db)
    as [[[count message]|e] db1] eqn:Hloops; [|discriminate Hrun].
  destruct (searchNinjutsuLoops_merged ctx cfg limit keyword db _ _ _ Hnd Hloops)
    as (merged & Hids & Hrows & Hcount & _ & _).
  set (L := LexNinjutsu.limitOrDefault cfg limit) in *.
  set (levels := levelsUpTo (matchLevel cfg)) in *.
  assert (Hmsg : msg = NoResult <-> merged = []).
  { destruct (Nat.eqb_spec count 0) as [E|E]; inversion Hrun; subst.
    - destruct merged; [tauto|discriminate E].
    - destruct merged; [contradiction E; reflexivity|].
      split; discriminate. }
  rewrite Hmsg. split.
  - intros -> level Hlevel.
    destruct (levelRows ctx level keyword L (table db)) as [|row rest] eqn:E;
      [reflexivity|].
    assert (Hk : In (id row) (mergedKeys ctx keyword L (table db) levels)).
    { apply mergedKeys_in. exists level. split; [exact Hlevel|].
      unfold levelIds. rewrite E. left. reflexivity. }
    rewrite <- Hids in Hk. destruct Hk.
  - intro Hempty. destruct merged as [|row rest]; [reflexivity|].
    destruct (Hrows row (or_introl eq_refl)) as [level [Hlevel Hin]].
    rewrite (Hempty level Hlevel) in Hin. destruct Hin.
Qed.
End SearchFacts.

(** X14.  What matches at the Strict level matches at the Normal level: for
    a row whose normalized name is the normalization of its name, when the
    name and the keyword have no lone surrogate, a keyword contained in the
    name gives a normalized keyword contained in the normalized name. *)
Theorem strict_substring_is_normal_substring {rt : JSRuntime}
    (ctx : KoishiContext) (keyword : jsstring) (tbl : list NinjutsuInfo)
    (row : NinjutsuInfo) :
  normalized row ->
  wellFormed (name row) = true ->
  wellFormed keyword = true ->
  In row (substringRows ctx Strict keyword tbl) ->
  In row (substringRows ctx Normal keyword tbl).
Proof.
  intros Hnorm Hname Hkey Hrow. unfold substringRows in *.
  apply filter_In in Hrow. destruct Hrow as [Hin Hinc].
  apply filter_In. split; [exact Hin|].
  destruct (keyOf_normal ctx keyword) as [-> ->].
  cbn [column]. rewrite Hnorm.
  apply includes_removePunctuation; assumption.
Qed.

(* ===================================================================== *)
(** * Further properties of the catalog operations *)
(* ===================================================================== *)

Lemma upsertRow_keeps (tbl : list NinjutsuInfo) (p : Partial) (row : NinjutsuInfo) :
  In row tbl -> id row <> p_id p -> In row (upsertRow tbl p).
Proof.
  intros Hin Hne. unfold upsertRow.
  destruct (existsb (hasId (p_id p)) tbl).
  - apply in_map_iff. exists row. split; [|exact Hin].
    unfold hasId. destruct (N.eqb_spec (id row) (p_id p)); [contradiction|reflexivity].
  - apply in_or_app. left. exact Hin.
Qed.

Lemma upsertRows_keeps (ps : list Partial) :
  forall tbl row,
    In row tbl -> ~ In (id row) (map p_id ps) -> In row (upsertRows tbl ps).
Proof.
  unfold upsertRows. induction ps as [|p ps IH]; intros tbl row Hin Hne;
    [exact Hin|].
  cbn [fold_left]. apply IH.
  - apply upsertRow_keeps; [exact Hin|]. intro E. apply Hne. left. symmetry. exact E.
  - intro H. apply Hne. right. exact H.
Qed.

Lemma upsertRows_ids (ps : list Partial) :
  forall tbl i,
    In i (map id (upsertRows tbl ps)) -> In i (map id tbl) \/ In i (map p_id ps).
Proof.
  unfold upsertRows. induction ps as [|p ps IH]; intros tbl i H; [left; exact H|].
  cbn [fold_left] in H. apply IH in H. destruct H as [H|H].
  - rewrite upsertRow_ids in H.
    destruct (existsb (hasId (p_id p)) tbl); [left; exact H|].
    apply in_app_or in H. destruct H as [H|[<-|[]]]; [left; exact H|].
    right. left. reflexivity.
  - right. right. exact H.
Qed.

(** One refreshed entry: its row holds the source's data, and is a fresh row
    with an empty pinyin column when the id was not stored. *)
Lemma upsertRow_stores (tbl : list NinjutsuInfo) (d : NinjutsuInfoSourceData) :
  exists row,
    In row (upsertRow tbl (LexNinjutsu.toNinjutsuInfo d))
    /\ stores d row
    /\ (~ In (src_id d) (map id tbl) -> namePinyin row = []).
Proof.
  unfold upsertRow. cbn [p_id LexNinjutsu.toNinjutsuInfo].
  destruct (existsb (hasId (src_id d)) tbl) eqn:E.
  - pose proof E as E'. apply existsb_exists in E'. destruct E' as [r [Hr Hid]].
    exists (patchRow (LexNinjutsu.toNinjutsuInfo d) r). split; [|split].
    + apply in_map_iff. exists r. rewrite Hid. split; [reflexivity|exact Hr].
    + unfold hasId in Hid. apply N.eqb_eq in Hid.
      unfold stores. cbn. repeat split. exact Hid.
    + intro Hno. exfalso. apply Hno. apply existsb_hasId. exact E.
  - exists (patchRow (LexNinjutsu.toNinjutsuInfo d) (initialRow (src_id d))).
    split; [|split].
    + apply in_or_app. right. left. reflexivity.
    + unfold stores. cbn. repeat split.
    + reflexivity.
Qed.

Lemma upsertRows_stores (jutsus : list NinjutsuInfoSourceData) :
  forall tbl d,
    NoDup (map src_id jutsus) ->
    In d jutsus ->
    exists row,
      In row (upsertRows tbl (map LexNinjutsu.toNinjutsuInfo jutsus))
      /\ stores d row
      /\ (~ In (src_id d) (map id tbl) -> namePinyin row = []).
Proof.
  induction jutsus as [|d0 jutsus IH]; intros tbl d Hnd Hd; [destruct Hd|].
  inversion Hnd as [|? ? Hd0 Hnd']; subst.
  unfold upsertRows. cbn [map fold_left].
  fold (upsertRows (upsertRow tbl (LexNinjutsu.toNinjutsuInfo d0))
                   (map LexNinjutsu.toNinjutsuInfo jutsus)).
  destruct Hd as [<-|Hd].
  - destruct (upsertRow_stores tbl d0) as (row & Hin & Hst & Hnew).
    exists row. split; [|split; assumption].
    apply upsertRows_keeps; [exact Hin|].
    destruct Hst as [Hid _]. rewrite Hid, map_map. exact Hd0.
  - destruct (IH (upsertRow tbl (LexNinjutsu.toNinjutsuInfo d0)) d Hnd' Hd)
      as (row & Hin & Hst & Hnew).
    exists row. split; [exact Hin|]. split; [exact Hst|].
    intro Hno. apply Hnew. rewrite upsertRow_ids. cbn [p_id LexNinjutsu.toNinjutsuInfo].
    assert (Hne : src_id d <> src_id d0).
    { intro E. apply Hd0. rewrite <- E. apply in_map. exact Hd. }
    destruct (existsb (hasId (src_id d0)) tbl); [exact Hno|].
    intro H. apply in_app_or in H. destruct H as [H|[H|[]]]; [tauto|congruence].
Qed.

Section CatalogFacts.
Context {rt : JSRuntime}.
Variable ctx : KoishiContext.

(** [ninjutsu.update] returns after its upsert, with the listener runs of
    the emit still to finish. *)
Lemma updateDatabase_run (jutsus : list NinjutsuInfoSourceData) (db : Database) :
  LexNinjutsu.updateDatabase ctx jutsus db
  = (Ok (LexNinjutsu.emit_ninjutsu_database_update ctx),
     mkDatabase (upsertRows (table db) (map LexNinjutsu.toNinjutsuInfo jutsus))
                (journal db ++ [Upsert (map LexNinjutsu.toNinjutsuInfo jutsus)])).
Proof. reflexivity. Qed.

(** The listener runs of the emit, once finished: the backfill when the
    pinyin plugin is loaded, nothing otherwise. *)
Lemma settle_emit_table (db : Database) :
  NoDup (map id (table db)) ->
  fst (settle (LexNinjutsu.emit_ninjutsu_database_update ctx) db) = Ok tt
  /\ table (snd (settle (LexNinjutsu.emit_ninjutsu_database_update ctx) db))
     = match pinyin ctx with
       | Some service => map (backfillRow service) (table db)
       | None => table db
       end.
Proof.
  intro Hnd. unfold LexNinjutsu.emit_ninjutsu_database_update.
  destruct (pinyin ctx) as [service|]; [|split; reflexivity].
  cbn [settle]. unfold bind.
  destruct (updateDatabasePinyin_table service db Hnd) as [Hok Ht].
  destruct (NinjutsuPinyin.updateDatabasePinyin service db) as [[[]|e] db1];
    cbn [fst snd ret] in *; [|discriminate Hok].
  split; [reflexivity|exact Ht].
Qed.

(** The table after [ninjutsu.update]: the refreshed rows when the command
    returns, backfilled once the listener of the pinyin plugin has
    finished. *)
Lemma afterUpdate_table (jutsus : list NinjutsuInfoSourceData) (settled : bool)
    (db : Database) :
  NoDup (map id (table db)) ->
  fst (runOp ctx (OpUpdate jutsus) db) = Ok tt
  /\ table (afterUpdate ctx jutsus settled db)
     = match settled, pinyin ctx with
       | true, Some service =>
           map (backfillRow service)
               (upsertRows (table db) (map LexNinjutsu.toNinjutsuInfo jutsus))
       | _, _ => upsertRows (table db) (map LexNinjutsu.toNinjutsuInfo jutsus)
       end.
Proof.
  intro Hnd. unfold afterUpdate. cbn [runOp]. unfold bind.
  rewrite updateDatabase_run. cbn [snd table].
  set (db1 := mkDatabase (upsertRows (table db) (map LexNinjutsu.toNinjutsuInfo jutsus))
                (journal db ++ [Upsert (map LexNinjutsu.toNinjutsuInfo jutsus)])).
  assert (Hnd1 : NoDup (map id (table db1))) by (apply upsertRows_NoDup, Hnd).
  destruct (settle_emit_table db1 Hnd1) as [Hok Ht].
  split; [exact Hok|].
  destruct settled; [|destruct (pinyin ctx); reflexivity].
  rewrite Ht. destruct (pinyin ctx); reflexivity.
Qed.


(** X16.  The pinyin of a new entry is written by the listener, not by the
    update.  With the pinyin plugin loaded, when [ninjutsu.update] returns an
    entry that was not stored before has an empty pinyin column; once the
    listener run that the update started has finished, the column holds the
    pinyin of the normalized name, and the entry is then found at the
    Homophone level by every query that has the same pinyin key. *)
Theorem updateDatabase_indexes_new_entries (service : PinyinService)
    (cfg : Config) (jutsus : list NinjutsuInfoSourceData) (db : Database)
    (d : NinjutsuInfoSourceData) (query : jsstring) :
  pinyin ctx = Some service ->
  matchLevel cfg = Homophone ->
  NoDup (map id (table db)) ->
  NoDup (map src_id jutsus) ->
  In d jutsus ->
  ~ In (src_id d) (map id (table db)) ->
  NinjutsuPinyin.getPinyin service (removePunctuation query)
  = NinjutsuPinyin.getPinyin service (removePunctuation (src_name d)) ->
  let returned := afterUpdate ctx jutsus false db in
  let finished := afterUpdate ctx jutsus true db in
  (exists row,
     In row (table returned) /\ stores d row /\ namePinyin row = [])
  /\ (exists row,
        In row (table finished) /\ stores d row
        /\ namePinyin row
           = NinjutsuPinyin.getPinyin service (removePunctuation (src_name d)))
  /\ exists found,
       fst (LexNinjutsu.tryGetNinjutsu ctx cfg query finished) = Ok (Some found).
Proof.
  intros Hp Hlevel Hnd Hsrc Hd Hnew Hkey returned finished.
  destruct (afterUpdate_table jutsus false db Hnd) as [_ Hreturned].
  destruct (afterUpdate_table jutsus true db Hnd) as [_ Htable].
  fold returned in Hreturned. fold finished in Htable. rewrite Hp in Htable.
  destruct (upsertRows_stores jutsus (table db) d Hsrc Hd) as (row & Hin & Hst & Hempty).
  specialize (Hempty Hnew).
  split.
  { exists row. rewrite Hreturned. split; [exact Hin|]. split; assumption. }
  destruct (backfillRow_writes_only_pinyin service row)
    as (H1 & H2 & H3 & H4 & _ & H6).
  specialize (H6 Hempty). destruct Hst as (S1 & S2 & S3 & S4).
  assert (Hrow : In (backfillRow service row) (table finished))
    by (rewrite Htable; apply in_map; exact Hin).
  assert (Hpy : namePinyin (backfillRow service row)
                = NinjutsuPinyin.getPinyin service (removePunctuation (src_name d)))
    by (rewrite H6, S4; reflexivity).
  split.
  - exists (backfillRow service row). split; [exact Hrow|]. split; [|exact Hpy].
    unfold stores. rewrite H1, H2, H3, H4. repeat split; assumption.
  - unfold LexNinjutsu.tryGetNinjutsu.
    rewrite (proj1 (tryGetNinjutsuFrom_resolve ctx query _ finished)).
    destruct (resolve ctx (levelsUpTo (matchLevel cfg)) query (table finished))
      as [found|] eqn:E; [exists found; reflexivity|].
    exfalso. rewrite Hlevel in E.
    pose proof (proj1 (resolve_none ctx _ _ _) E Homophone) as Hnone.
    assert (Hin' : In (backfillRow service row)
                      (exactRows ctx Homophone query (table finished))).
    { apply exactRows_in. split; [exact Hrow|].
      unfold columnOf, keyOf.
      rewrite (getMatchInfo_with_service ctx service Hp). cbn [fst snd column].
      rewrite Hpy, Hkey. reflexivity. }
    rewrite Hnone in Hin'; [destruct Hin'|].
    cbn. right. right. left. reflexivity.
Qed.
End CatalogFacts.

Lemma upsertRow_Forall (P : NinjutsuInfo -> Prop) (tbl : list NinjutsuInfo)
    (p : Partial) :
  (forall row, P row -> id row = p_id p -> P (patchRow p row)) ->
  P (patchRow p (initialRow (p_id p))) ->
  Forall P tbl -> Forall P (upsertRow tbl p).
Proof.
  intros Hpatch Hnew Hall. unfold upsertRow.
  destruct (existsb (hasId (p_id p)) tbl).
  - rewrite Forall_forall in *. intros r Hr.
    apply in_map_iff in Hr. destruct Hr as [row [<- Hrow]].
    unfold hasId. destruct (N.eqb_spec (id row) (p_id p)) as [E|_].
    + apply Hpatch; [apply Hall, Hrow|exact E].
    + apply Hall, Hrow.
  - apply Forall_app. split; [exact Hall|]. constructor; [exact Hnew|constructor].
Qed.

Lemma upsertRows_Forall (P : NinjutsuInfo -> Prop) (ps : list Partial) :
  (forall p row, In p ps -> P row -> id row = p_id p -> P (patchRow p row)) ->
  (forall p, In p ps -> P (patchRow p (initialRow (p_id p)))) ->
  forall tbl, Forall P tbl -> Forall P (upsertRows tbl ps).
Proof.
  unfold upsertRows. induction ps as [|p ps IH]; intros Hpatch Hnew tbl Hall;
    [exact Hall|].
  cbn [fold_left]. apply IH.
  - intros q row Hq. apply Hpatch. right. exact Hq.
  - intros q Hq. apply Hnew. right. exact Hq.
  - apply upsertRow_Forall.
    + intros row. apply Hpatch. left. reflexivity.
    + apply Hnew. left. reflexivity.
    + exact Hall.
Qed.

Section Invariants.
Context {rt : JSRuntime}.
Variable ctx : KoishiContext.

Lemma refresh_keeps_normalized (jutsus : list NinjutsuInfoSourceData)
    (tbl : list NinjutsuInfo) :
  Forall normalized tbl ->
  Forall normalized (upsertRows tbl (map LexNinjutsu.toNinjutsuInfo jutsus)).
Proof.
  apply upsertRows_Forall.
  - intros p row Hp _ _. apply in_map_iff in Hp. destruct Hp as [d [<- _]].
    reflexivity.
  - intros p Hp. apply in_map_iff in Hp. destruct Hp as [d [<- _]]. reflexivity.
Qed.

Lemma backfill_keeps_normalized (service : PinyinService) (db : Database) :
  Forall normalized (table db) ->
  Forall normalized (table (snd (NinjutsuPinyin.updateDatabasePinyin service db))).
Proof.
  intro Hall. unfold NinjutsuPinyin.updateDatabasePinyin, bind, select_eq, upsert.
  cbn [fst snd table journalled].
  assert (Hdata : forall p,
            In p (map fullRow
                    (map (NinjutsuPinyin.setNamePinyin service)
                       (filter (fun row => jsstring_eqb (column P_namePinyin row) [])
                               (table db)))) ->
            exists r, normalized r /\ p = fullRow (NinjutsuPinyin.setNamePinyin service r)).
  { intros p Hp. apply in_map_iff in Hp. destruct Hp as [r' [<- Hr']].
    apply in_map_iff in Hr'. destruct Hr' as [r [<- Hr]].
    apply filter_In in Hr. exists r. split; [|reflexivity].
    rewrite Forall_forall in Hall. apply Hall. tauto. }
  apply upsertRows_Forall; [| |exact Hall].
  - intros p row Hp _ _. destruct (Hdata p Hp) as [r [Hr ->]]. exact Hr.
  - intros p Hp. destruct (Hdata p Hp) as [r [Hr ->]]. exact Hr.
Qed.

Lemma runOp_keeps_normalized (op : CatalogOp) (db : Database) :
  Forall normalized (table db) ->
  Forall normalized (table (snd (runOp ctx op db))).
Proof.
  intro Hall. destruct op; cbn [runOp].
  - unfold LexNinjutsu.updateDatabase, bind, upsert.
    unfold LexNinjutsu.emit_ninjutsu_database_update.
    destruct (pinyin ctx) as [service|].
    + apply backfill_keeps_normalized. cbn [table].
      apply refresh_keeps_normalized, Hall.
    + cbn [snd table ret]. apply refresh_keeps_normalized, Hall.
  - unfold LexNinjutsu.emit_ninjutsu_database_update.
    destruct (pinyin ctx) as [service|]; [|exact Hall].
    apply backfill_keeps_normalized, Hall.
  - unfold LexNinjutsu.clearDatabase, remove_id_gt_0. cbn [snd table].
    rewrite Forall_forall in *. intros row Hrow. apply filter_In in Hrow.
    apply Hall. tauto.
Qed.

(** X17.  Name and normalized name never drift apart: if every row's
    normalized name is the normalization of its name, this still holds after
    any sequence of updates, backfills and clears; in particular it holds in
    every table reached from the empty one. *)
Theorem runOps_keep_names_normalized (ops : list CatalogOp) (db : Database) :
  (Forall normalized (table db) ->
   Forall normalized (table (snd (runOps ctx ops db))))
  /\ Forall normalized (table (snd (runOps ctx ops emptyDatabase))).
Proof.
  assert (H : forall db0, Forall normalized (table db0) ->
                Forall normalized (table (snd (runOps ctx ops db0)))).
  { induction ops as [|op ops IH]; intros db0 Hall; [exact Hall|].
    cbn [runOps]. unfold bind.
    pose proof (runOp_keeps_normalized op db0 Hall) as Hop.
    destruct (runOp ctx op db0) as [[[]|e] db1]; cbn [snd] in *.
    - apply IH, Hop.
    - exact Hop. }
  split; [apply H|]. apply H. constructor.
Qed.

(** X18.  The pinyin column stays in step when a refresh renames nothing.
    On a table with distinct ids where every pinyin column is empty or the
    pinyin of the row's normalized name, an update whose entries give every
    row already stored the normalized name it has keeps that property
    (entries that are new are inserted with an empty column and, with the
    plugin loaded, backfilled by the listener), both when the command
    returns and once the listener has finished. *)
Theorem updateDatabase_keeps_pinyin_consistent (service : PinyinService)
    (jutsus : list NinjutsuInfoSourceData) (settled : bool) (db : Database) :
  pinyin ctx = Some service \/ pinyin ctx = None ->
  NoDup (map id (table db)) ->
  Forall (pinyinConsistent service) (table db) ->
  (forall d row, In d jutsus -> In row (table db) -> id row = src_id d ->
     removePunctuation (src_name d) = nameNoPunctuation row) ->
  Forall (pinyinConsistent service)
         (table (afterUpdate ctx jutsus settled db)).
Proof.
  intros Hp Hnd Hall Hsame.
  set (P := fun row : NinjutsuInfo =>
              pinyinConsistent service row
              /\ (namePinyin row <> [] ->
                  forall d, In d jutsus -> id row = src_id d ->
                    removePunctuation (src_name d) = nameNoPunctuation row)).
  assert (HP : Forall P (upsertRows (table db)
                           (map LexNinjutsu.toNinjutsuInfo jutsus))).
  { apply upsertRows_Forall.
    - intros p row Hin [Hc Hs] Hid.
      apply in_map_iff in Hin. destruct Hin as [d [<- Hd]].
      cbn [p_id LexNinjutsu.toNinjutsuInfo] in Hid.
      destruct (list_eq_dec N.eq_dec (namePinyin row) []) as [E|E].
      + split; [left; exact E|]. intro Hne. contradiction Hne.
      + pose proof (Hs E d Hd Hid) as Hd'. split.
        * destruct Hc as [Hc|Hc]; [contradiction|]. right. cbn.
          rewrite Hd'. exact Hc.
        * intros _ d2 Hd2 Hid2. cbn in Hid2 |- *.
          rewrite Hd'. apply (Hs E d2 Hd2 Hid2).
    - intros p Hin. apply in_map_iff in Hin. destruct Hin as [d [<- _]].
      split; [left; reflexivity|]. intro Hne. contradiction Hne. reflexivity.
    - rewrite Forall_forall in *. intros row Hrow. split; [apply Hall, Hrow|].
      intros _ d Hd Hid. apply (Hsame d row Hd Hrow Hid). }
  assert (Hc : Forall (pinyinConsistent service)
                 (upsertRows (table db) (map LexNinjutsu.toNinjutsuInfo jutsus))).
  { rewrite Forall_forall in *. intros row Hrow. apply (HP row Hrow). }
  rewrite (proj2 (afterUpdate_table ctx jutsus settled db Hnd)).
  destruct settled; [|exact Hc].
  destruct Hp as [Hp|Hp]; rewrite Hp; [|exact Hc].
  rewrite Forall_forall in *. intros row Hrow.
  apply in_map_iff in Hrow. destruct Hrow as [r [<- Hr]].
  apply backfillRow_consistent, Hc, Hr.
Qed.
End Invariants.

(** X19.  [ninjutsu.clear] removes the rows whose id is greater than 0 and
    no other: a row with id 0 survives it.  On a table with distinct ids at
    most one row is left, and the table is empty when every id was
    positive. *)
Theorem clearDatabase_keeps_id_zero (db : Database) :
  let remaining := table (snd (LexNinjutsu.clearDatabase db)) in
  fst (LexNinjutsu.clearDatabase db) = Ok tt
  /\ (forall row, In row remaining <-> In row (table db) /\ id row = 0)
  /\ (NoDup (map id (table db)) -> (List.length remaining <= 1)%nat)
  /\ ((forall row, In row (table db) -> 0 < id row) -> remaining = []).
Proof.
  intro remaining. unfold LexNinjutsu.clearDatabase, remove_id_gt_0 in *.
  cbn [fst snd table] in *.
  assert (Hin : forall row, In row remaining <-> In row (table db) /\ id row = 0).
  { intro row. unfold remaining. rewrite filter_In, negb_true_iff, N.ltb_ge.
    split; intros [H1 H2]; (split; [exact H1|lia]). }
  split; [reflexivity|]. split; [exact Hin|]. split.
  - intro Hnd.
    assert (Hnd' : NoDup (map id remaining)) by (apply NoDup_ids_filter, Hnd).
    destruct remaining as [|a [|b rest]] eqn:E; cbn [List.length]; try lia.
    exfalso. inversion Hnd' as [|? ? Ha _]; subst. apply Ha.
    assert (Ha0 : id a = 0) by (apply Hin; left; reflexivity).
    assert (Hb0 : id b = 0) by (apply Hin; right; left; reflexivity).
    left. congruence.
  - intro Hpos. destruct remaining as [|a rest] eqn:E; [reflexivity|].
    assert (Ha : In a (table db) /\ id a = 0) by (apply Hin; left; reflexivity).
    destruct Ha as [Ha Ha0]. specialize (Hpos a Ha). lia.
Qed.

(* ===================================================================== *)
(** * Further properties of the preview and of ninjutsu.info *)
(* ===================================================================== *)

Lemma replaceAll1_no_newline (s : jsstring) :
  ~ In c_newline (replaceAll1 c_newline c_space s).
Proof.
  unfold replaceAll1. intro H. apply in_map_iff in H.
  destruct H as [u [E _]].
  destruct (N.eqb_spec u c_newline) as [_|Hne]; [discriminate E|].
  apply Hne. exact E.
Qed.

Lemma replaceAll1_fixed (s : jsstring) :
  ~ In c_newline s -> replaceAll1 c_newline c_space s = s.
Proof.
  induction s as [|u s IH]; intro H; [reflexivity|].
  cbn [replaceAll1 map]. fold (replaceAll1 c_newline c_space s).
  rewrite IH by (intro Hin; apply H; right; exact Hin).
  destruct (N.eqb_spec u c_newline) as [E|_]; [|reflexivity].
  exfalso. apply H. left. exact E.
Qed.

Lemma In_substring0 (n : nat) (s : jsstring) (u : N) :
  In u (substring0 n s) -> In u s.
Proof. apply In_firstn. Qed.

(** X20.  With a limit of at least 1 the preview is a single line: it
    contains no newline.  For every limit, previewing a preview changes
    nothing. *)
Theorem getDescriptionPreview_single_line_idempotent (cfg : Config)
    (d : jsstring) :
  ((1 <= descriptionPreviewLimit cfg)%nat ->
   ~ In c_newline (LexNinjutsu.getDescriptionPreview cfg d))
  /\ LexNinjutsu.getDescriptionPreview cfg
       (LexNinjutsu.getDescriptionPreview cfg d)
     = LexNinjutsu.getDescriptionPreview cfg d.
Proof.
  unfold LexNinjutsu.getDescriptionPreview.
  set (L := descriptionPreviewLimit cfg).
  set (d' := replaceAll1 c_newline c_space d).
  pose proof (replaceAll1_no_newline d) as Hd'. fold d' in Hd'.
  destruct (Nat.eqb_spec L 0) as [E|E].
  - split; [lia|reflexivity].
  - destruct (Nat.leb_spec (js_length d') L) as [Hle|Hgt].
    + split; [intros _; exact Hd'|].
      rewrite (replaceAll1_fixed d' Hd').
      destruct (Nat.leb_spec (js_length d') L); [reflexivity|lia].
    + assert (Hcut : ~ In c_newline (substring0 L d' ++ [c_ellipsis])).
      { intro H. apply in_app_or in H. destruct H as [H|[H|[]]].
        - apply Hd'. apply (In_substring0 _ _ _ H).
        - discriminate H. }
      split; [intros _; exact Hcut|].
      rewrite (replaceAll1_fixed _ Hcut).
      assert (Hlen : js_length (substring0 L d') = L).
      { unfold js_length, substring0 in *. rewrite length_firstn. lia. }
      destruct (Nat.leb_spec (js_length (substring0 L d' ++ [c_ellipsis])) L)
        as [Hle'|_].
      * unfold js_length in *. rewrite length_app in Hle'. cbn in Hle'. lia.
      * f_equal. unfold substring0 at 1. unfold js_length in Hlen.
        rewrite firstn_app, Hlen, Nat.sub_diag. cbn [firstn].
        rewrite app_nil_r. apply firstn_all2. lia.
Qed.

Lemma getDescriptionPreview_single_line_idempotent_witness :
  ~ In c_newline
      (LexNinjutsu.getDescriptionPreview (mkConfig Normal 10 3 true)
         (lit "a" ++ [c_newline] ++ lit "bcd")).
Proof.
  apply (getDescriptionPreview_single_line_idempotent (mkConfig Normal 10 3 true)).
  cbn. lia.
Defined.

Lemma digits_inj (u v : Decimal.uint) : digits u = digits v -> u = v.
Proof.
  revert v. induction u; destruct v; cbn [digits]; intro H;
    try discriminate H; try reflexivity;
    injection H as H; f_equal; apply IHu; exact H.
Qed.

(** X21.  The link of [ninjutsu.info] identifies the entry, for the ids a
    number holds exactly: for one source URL, two ids up to 2^53 with the
    same link are the same id. *)
Theorem infoUrl_identifies_entry {rt : JSRuntime} (sourceUrl : jsstring)
    (i j : N) :
  i <= maxExactInteger ->
  j <= maxExactInteger ->
  LexNinjutsuInfo.infoUrl sourceUrl i = LexNinjutsuInfo.infoUrl sourceUrl j ->
  i = j.
Proof.
  unfold LexNinjutsuInfo.infoUrl, numberToString. intros Hi Hj H.
  apply N.leb_le in Hi. apply N.leb_le in Hj. rewrite Hi, Hj in H.
  apply app_inv_head in H. apply app_inv_head in H.
  apply digits_inj in H. apply DecimalN.Unsigned.to_uint_inj. exact H.
Qed.

Lemma infoUrl_identifies_entry_witness :
  @LexNinjutsuInfo.infoUrl asciiRuntime (lit "https://wsfrs.com") 42
  = lit "https://wsfrs.com/jutsus/42"
  /\ 42 = 42.
Proof.
  split; [vm_compute; reflexivity|].
  apply (@infoUrl_identifies_entry asciiRuntime (lit "https://wsfrs.com") 42 42).
  - apply N.leb_le. reflexivity.
  - apply N.leb_le. reflexivity.
  - reflexivity.
Defined.

Section InfoFacts.
Context {rt : JSRuntime}.
Variable ctx : KoishiContext.
Variable cfg : Config.
Variable sourceUrl : jsstring.

Lemma getNinjutsuInfo_run (query : jsstring) (db : Database) :
  fst (LexNinjutsuInfo.getNinjutsuInfo ctx cfg sourceUrl query db)
  = Ok (match resolve ctx (levelsUpTo (matchLevel cfg)) query (table db) with
        | Some row => LexNinjutsuInfo.infoText sourceUrl row
        | None =>
            if negb (searchOnFailed cfg) then NotFoundText
            else NotFoundTrySearch (lit "ninjutsu.search " ++ query)
        end)
  /\ table (snd (LexNinjutsuInfo.getNinjutsuInfo ctx cfg sourceUrl query db))
     = table db.
Proof.
  unfold LexNinjutsuInfo.getNinjutsuInfo, bind, LexNinjutsu.tryGetNinjutsu.
  destruct (tryGetNinjutsuFrom_resolve ctx query (levelsUpTo (matchLevel cfg)) db)
    as [Hres Htable].
  destruct (LexNinjutsu.tryGetNinjutsuFrom ctx (levelsUpTo (matchLevel cfg)) query db)
    as [[found|e] db1]; cbn [fst snd] in *; [|discriminate Hres].
  apply Ok_inj in Hres. rewrite <- Hres.
  destruct found as [row|]; [split; [reflexivity|exact Htable]|].
  unfold LexNinjutsuInfo.onNotfound.
  destruct (negb (searchOnFailed cfg)); split; try reflexivity; exact Htable.
Qed.

(** X23.  An entry that was just ingested is found by its name: after
    [ninjutsu.update] (distinct ids in the table and in the source data),
    as soon as the command has returned and also once its listener has
    finished, [ninjutsu.info] asked for the name of any entry of the source
    answers with an entry of exactly that name, never with not-found. *)
Theorem getNinjutsuInfo_finds_ingested (jutsus : list NinjutsuInfoSourceData)
    (settled : bool) (db : Database) (d : NinjutsuInfoSourceData) :
  NoDup (map id (table db)) ->
  NoDup (map src_id jutsus) ->
  In d jutsus ->
  let updated := afterUpdate ctx jutsus settled db in
  exists row,
    In row (table updated)
    /\ name row = src_name d
    /\ fst (LexNinjutsuInfo.getNinjutsuInfo ctx cfg sourceUrl (src_name d) updated)
       = Ok (InfoText (src_name d) (description row)
               (LexNinjutsuInfo.infoUrl sourceUrl (id row))).
Proof.
  intros Hnd Hsrc Hd updated.
  destruct (afterUpdate_table ctx jutsus settled db Hnd) as [_ Htable].
  fold updated in Htable.
  assert (Hstored : exists row0, In row0 (table updated) /\ name row0 = src_name d).
  { destruct (upsertRows_stores jutsus (table db) d Hsrc Hd)
      as (row & Hin & (_ & Hname & _) & _).
    rewrite Htable. destruct settled; [destruct (pinyin ctx) as [service|]|].
    - exists (backfillRow service row). split; [apply in_map; exact Hin|].
      destruct (backfillRow_writes_only_pinyin service row) as (_ & H2 & _).
      rewrite H2. exact Hname.
    - exists row. split; assumption.
    - exists row. split; assumption. }
  destruct Hstored as (row0 & Hin0 & Hname0).
  destruct (getNinjutsuInfo_run (src_name d) updated) as [Hrun _].
  rewrite Hrun.
  destruct (levelsUpTo_head (matchLevel cfg)) as [later ->].
  cbn [resolve].
  destruct (exactRows ctx Strict (src_name d) (table updated)) as [|first rest] eqn:E.
  - exfalso.
    apply (proj1 (exactRows_empty ctx Strict (src_name d) (table updated)) E row0 Hin0).
    exact Hname0.
  - assert (Hfirst : In first (exactRows ctx Strict (src_name d) (table updated)))
      by (rewrite E; left; reflexivity).
    apply exactRows_in in Hfirst. destruct Hfirst as [Hin Hname].
    change (name first = src_name d) in Hname.
    exists first. split; [exact Hin|]. split; [exact Hname|].
    unfold LexNinjutsuInfo.infoText. rewrite Hname. reflexivity.
Qed.

(** X24.  [ninjutsu.info] of [src/index.tsx] shows the entry that the
    plugin's shows, for every context, configuration, table and query
    string: the same name and description, and the URL the plugin prints as
    text is the target of the link the earlier file builds around
    [.more-info].  Where the plugin answers [.not-found] or hands the query
    to [ninjutsu.search], the earlier file answers [.not-found]. *)
Theorem getNinjutsuInfo_versions_agree (query : jsstring) (db : Database) :
  fst (IndexTsxInfo.getNinjutsuInfo ctx cfg sourceUrl query db)
  = match fst (LexNinjutsuInfo.getNinjutsuInfo ctx cfg sourceUrl query db) with
    | Ok (InfoText shownName shownDescription url) =>
        Ok (InfoTextLinked shownName shownDescription url)
    | Ok (NotFoundTrySearch _) => Ok NotFoundText
    | other => other
    end.
Proof.
  rewrite (proj1 (getNinjutsuInfo_run query db)).
  unfold IndexTsxInfo.getNinjutsuInfo, bind.
  destruct (IndexTsx_tryGetNinjutsu_result ctx cfg query db) as (Hres & _ & _).
  unfold LexNinjutsu.tryGetNinjutsu in Hres.
  rewrite (proj1 (tryGetNinjutsuFrom_resolve ctx query _ db)) in Hres.
  destruct (IndexTsx.tryGetNinjutsu ctx cfg query db) as [[found|e] db1];
    cbn [fst] in Hres; [|discriminate Hres].
  apply Ok_inj in Hres. rewrite <- Hres.
  destruct found as [row|]; [reflexivity|].
  destruct (negb (searchOnFailed cfg)); reflexivity.
Qed.
End InfoFacts.

(* ===================================================================== *)
(** * Runs of the further properties *)
(* ===================================================================== *)

Lemma tryGetNinjutsu_hit_is_exact_match_witness :
  In (sampleRow 2 "Fire-Style" "d") (table fireStyles)
  /\ name (sampleRow 2 "Fire-Style" "d") = lit "Fire-Style".
Proof.
  destruct (@tryGetNinjutsu_hit_is_exact_match asciiRuntime withoutPinyin
              (mkConfig Strict 10 10 true) (lit "Fire-Style") fireStyles
              (sampleRow 2 "Fire-Style" "d")) as (Hin & _ & Hname).
  - vm_compute. reflexivity.
  - split; [exact Hin|]. apply Hname. reflexivity.
Defined.

Lemma tryGetNinjutsu_misses_only_without_match_witness :
  fst (@LexNinjutsu.tryGetNinjutsu asciiRuntime withoutPinyin
         (mkConfig Normal 10 10 true) (lit "Water") fireStyles) = Ok None
  /\ name (sampleRow 2 "Fire-Style" "d") <> lit "Water".
Proof.
  assert (H : fst (@LexNinjutsu.tryGetNinjutsu asciiRuntime withoutPinyin
                     (mkConfig Normal 10 10 true) (lit "Water") fireStyles) = Ok None)
    by (vm_compute; reflexivity).
  split; [exact H|].
  apply (proj1 (@tryGetNinjutsu_misses_only_without_match asciiRuntime withoutPinyin
                  (mkConfig Normal 10 10 true) (lit "Water") fireStyles) H
           Strict (sampleRow 2 "Fire-Style" "d")).
  - left. reflexivity.
  - left. reflexivity.
Defined.

Lemma tryGetNinjutsu_hit_survives_higher_level_witness :
  fst (@LexNinjutsu.tryGetNinjutsu asciiRuntime withoutPinyin
         (mkConfig Homophone 10 10 true) (lit "Fire-Style") fireStyles)
  = Ok (Some (sampleRow 2 "Fire-Style" "d")).
Proof.
  apply (@tryGetNinjutsu_hit_survives_higher_level asciiRuntime withoutPinyin
           (mkConfig Strict 10 10 true) (mkConfig Homophone 10 10 true)).
  - cbn. lia.
  - vm_compute. reflexivity.
Defined.

Lemma searchNinjutsuAtLevel_plain_is_substring_witness :
  exists rows,
    fst (@LexNinjutsu.searchNinjutsuAtLevel asciiRuntime withoutPinyin
           (lit "Fire") 1 Strict fireStyles) = Ok rows
    /\ (List.length rows <= 1)%nat.
Proof.
  destruct (@searchNinjutsuAtLevel_plain_is_substring asciiRuntime withoutPinyin
              (lit "Fire") 1 Strict fireStyles) as (rows & Hrun & _ & Hlen & _).
  - reflexivity.
  - exists rows. split; assumption.
Defined.

Lemma searchNinjutsu_renders_every_strict_row_witness :
  exists count message,
    fst (@LexNinjutsu.searchNinjutsuLoops asciiRuntime withoutPinyin
           (mkConfig Normal 10 10 true) (Some 1%nat) (lit "Fire") fireStyles)
    = Ok (count, message)
    /\ In (LexNinjutsu.resultItem (mkConfig Normal 10 10 true)
             (sampleRow 2 "Fire-Style" "d")) message.
Proof.
  destruct (@searchNinjutsuLoops_total asciiRuntime withoutPinyin
              (mkConfig Normal 10 10 true) (Some 1%nat) (lit "Fire") fireStyles
              fireStyles_distinct_ids fireStyles_plain_keys)
    as (count & message & db' & Hrun).
  exists count, message. rewrite Hrun. split; [reflexivity|].
  apply (@searchNinjutsu_renders_every_strict_row asciiRuntime withoutPinyin
           (mkConfig Normal 10 10 true) (Some 1%nat) (lit "Fire") fireStyles db'
           count message fireStyles_distinct_ids Hrun).
  vm_compute. left. reflexivity.
Defined.

Lemma searchNinjutsu_no_result_iff_witness :
  fst (@LexNinjutsu.searchNinjutsu asciiRuntime withoutPinyin
         (mkConfig Normal 10 10 true) None (lit "zzz") fireStyles) = Ok NoResult.
Proof.
  destruct (@LexNinjutsu.searchNinjutsu asciiRuntime withoutPinyin
              (mkConfig Normal 10 10 true) None (lit "zzz") fireStyles)
    as [[msg|e] db'] eqn:Hrun; [|vm_compute in Hrun; discriminate Hrun].
  cbn [fst]. f_equal.
  apply (proj2 (@searchNinjutsu_no_result_iff asciiRuntime withoutPinyin
                  (mkConfig Normal 10 10 true) None (lit "zzz") fireStyles db' msg
                  fireStyles_distinct_ids Hrun)).
  intros level [<-|[<-|[]]]; vm_compute; reflexivity.
Defined.

Lemma strict_substring_is_normal_substring_witness :
  In (sampleRow 2 "Fire-Style" "d")
     (@substringRows asciiRuntime withoutPinyin Normal (lit "e-S") (table fireStyles)).
Proof.
  apply (@strict_substring_is_normal_substring asciiRuntime withoutPinyin).
  - reflexivity.
  - reflexivity.
  - reflexivity.
  - vm_compute. left. reflexivity.
Defined.

Lemma sampleSource_distinct_ids : NoDup (map src_id sampleSource).
Proof. cbn. repeat constructor; cbn; intuition discriminate. Qed.


Lemma updateDatabase_indexes_new_entries_witness :
  exists found,
    fst (@LexNinjutsu.tryGetNinjutsu asciiRuntime withEcho
           (mkConfig Homophone 10 10 true) (lit "C D!")
           (@afterUpdate asciiRuntime withEcho sampleSource true emptyDatabase))
    = Ok (Some found).
Proof.
  destruct (@updateDatabase_indexes_new_entries asciiRuntime withEcho echoService
              (mkConfig Homophone 10 10 true) sampleSource emptyDatabase
              (mkSourceData 2 (lit "c-d") (lit "e")) (lit "C D!"))
    as (_ & _ & Hfound).
  - reflexivity.
  - reflexivity.
  - constructor.
  - exact sampleSource_distinct_ids.
  - right. left. reflexivity.
  - intros [].
  - vm_compute. reflexivity.
  - exact Hfound.
Defined.

(** [ninjutsu.update] returns before the backfill.  When it returns, the
    new entry has no pinyin yet and a query that matches by pinyin only
    misses it; once the listener has finished, the same query finds the
    entry. *)
Example update_returns_before_backfill :
  let cfg := mkConfig Homophone 10 10 true in
  let source := [mkSourceData 1 (lit "ab") (lit "d")] in
  let returned := @afterUpdate asciiRuntime withEcho source false emptyDatabase in
  let finished := @afterUpdate asciiRuntime withEcho source true emptyDatabase in
  table returned = [sampleRow 1 "ab" "d"]
  /\ fst (@LexNinjutsu.tryGetNinjutsu asciiRuntime withEcho cfg (lit "AB") returned)
     = Ok None
  /\ table finished = [mkNinjutsuInfo 1 (lit "ab") (lit "d") (lit "ab") (lit "ab")]
  /\ fst (@LexNinjutsu.tryGetNinjutsu asciiRuntime withEcho cfg (lit "AB") finished)
     = Ok (Some (mkNinjutsuInfo 1 (lit "ab") (lit "d") (lit "ab") (lit "ab"))).
Proof. cbv zeta. repeat split; vm_compute; reflexivity. Qed.

Lemma runOps_keep_names_normalized_witness :
  Forall normalized
    (table (snd (@runOps asciiRuntime withEcho
                   [OpUpdate sampleSource; OpReady; OpClear] fireStyles))).
Proof.
  apply (proj1 (@runOps_keep_names_normalized asciiRuntime withEcho
                  [OpUpdate sampleSource; OpReady; OpClear] fireStyles)).
  repeat constructor.
Defined.

Lemma updateDatabase_keeps_pinyin_consistent_witness :
  Forall (@pinyinConsistent asciiRuntime echoService)
    (table (@afterUpdate asciiRuntime withEcho
              [mkSourceData 1 (lit "a-b") (lit "new");
               mkSourceData 2 (lit "x") (lit "y")]
              true indexedEntry)).
Proof.
  apply (@updateDatabase_keeps_pinyin_consistent asciiRuntime withEcho echoService).
  - left. reflexivity.
  - cbn. repeat constructor. intros [].
  - constructor; [right; vm_compute; reflexivity|constructor].
  - intros d row [<-|[<-|[]]] [<-|[]] Hid.
    + vm_compute. reflexivity.
    + discriminate Hid.
Defined.

Lemma clearDatabase_keeps_id_zero_witness :
  let db := mkDatabase [sampleRow 0 "zero" "d"; sampleRow 3 "three" "d"] [] in
  (List.length (table (snd (LexNinjutsu.clearDatabase db))) <= 1)%nat
  /\ In (sampleRow 0 "zero" "d") (table (snd (LexNinjutsu.clearDatabase db))).
Proof.
  intro db.
  destruct (clearDatabase_keeps_id_zero db) as (_ & Hin & Hlen & _).
  split.
  - apply Hlen. cbn. repeat constructor; cbn; intuition discriminate.
  - apply Hin. split; [left; reflexivity|reflexivity].
Defined.

Lemma getNinjutsuInfo_finds_ingested_witness :
  exists row,
    name row = lit "c-d"
    /\ fst (@LexNinjutsuInfo.getNinjutsuInfo asciiRuntime withEcho
              (mkConfig Strict 10 10 true) (lit "https://wsfrs.com") (lit "c-d")
              (@afterUpdate asciiRuntime withEcho sampleSource false emptyDatabase))
       = Ok (InfoText (lit "c-d") (description row)
               (@LexNinjutsuInfo.infoUrl asciiRuntime (lit "https://wsfrs.com")
                  (id row))).
Proof.
  destruct (@getNinjutsuInfo_finds_ingested asciiRuntime withEcho
              (mkConfig Strict 10 10 true) (lit "https://wsfrs.com")
              sampleSource false emptyDatabase (mkSourceData 2 (lit "c-d") (lit "e")))
    as (row & _ & Hname & Hrun).
  - constructor.
  - exact sampleSource_distinct_ids.
  - right. left. reflexivity.
  - exists row. split; assumption.
Defined.
